(** * Codex-Switch: the backup dedup engine and its index store

    A shallow embedding of the Go packages [internal/core] (service.go,
    store.go, hash.go, backup.go) and [internal/util], and the proofs of
    the properties the specification states about them; then of
    config.go and the error mapping of [internal/api], with further
    properties of the code.

    Conventions of the embedding.
    - A Go function returning [(T, error)] becomes a function returning
      [result T]; the file system is an explicit [World] threaded through
      every operation.
    - [time.Time] values are instants counted in nanoseconds from the zero
      time (January 1, year 1, UTC), so that [IsZero] is "equals 0".
    - [encoding/json] is taken to round-trip the index (strings are valid
      UTF-8, times carry no monotonic reading once stored).
    - Mutexes and the advisory file lock only serialise operations; the
      embedding runs one operation at a time, and another writer is
      modelled by letting the persisted index differ from an earlier
      snapshot.
    - Logging has no effect on the modelled state and is left out. *)

From Stdlib Require Import ZArith List Ascii String.
From Stdlib.Strings Require Import Byte.
From Stdlib Require Import DecimalString DecimalZ.
From stdpp Require Import base option list gmap strings.

Local Open Scope string_scope.
Local Open Scope Z_scope.
Local Open Scope list_scope.

(** ** crypto/sha256 (FIPS 180-4), on 32-bit words held in [Z] *)

Module Sha256.

Definition w32 (x : Z) : Z := x mod 2 ^ 32.

Definition add32 (x y : Z) : Z := w32 (x + y).

Definition rotr (n x : Z) : Z :=
  Z.lor (Z.shiftr x n) (w32 (Z.shiftl x (32 - n))).

Definition Ch (x y z : Z) : Z :=
  Z.lxor (Z.land x y) (Z.land (w32 (Z.lnot x)) z).

Definition Maj (x y z : Z) : Z :=
  Z.lxor (Z.lxor (Z.land x y) (Z.land x z)) (Z.land y z).

Definition Sigma0 (x : Z) : Z :=
  Z.lxor (Z.lxor (rotr 2 x) (rotr 13 x)) (rotr 22 x).

Definition Sigma1 (x : Z) : Z :=
  Z.lxor (Z.lxor (rotr 6 x) (rotr 11 x)) (rotr 25 x).

Definition sigma0 (x : Z) : Z :=
  Z.lxor (Z.lxor (rotr 7 x) (rotr 18 x)) (Z.shiftr x 3).

Definition sigma1 (x : Z) : Z :=
  Z.lxor (Z.lxor (rotr 17 x) (rotr 19 x)) (Z.shiftr x 10).

(** The first sixty-four primes. *)
Definition primes : list Z :=
  [ 2; 3; 5; 7; 11; 13; 17; 19; 23; 29; 31; 37; 41; 43; 47; 53; 59; 61; 67; 71;
    73; 79; 83; 89; 97; 101; 103; 107; 109; 113; 127; 131; 137; 139; 149; 151;
    157; 163; 167; 173; 179; 181; 191; 193; 197; 199; 211; 223; 227; 229; 233;
    239; 241; 251; 257; 263; 269; 271; 277; 281; 283; 293; 307; 311 ].

(** The integer cube root, one bit at a time from bit 39 down. *)
Definition cbrt (x : Z) : Z :=
  List.fold_left
    (fun r b => let r' := r + 2 ^ Z.of_nat b in
                if r' * r' * r' <=? x then r' else r)
    (List.rev (List.seq 0 40)) 0.

(** The round constants: the first thirty-two bits of the fractional
    parts of the cube roots of the primes. *)
Definition K : list Z :=
  Eval vm_compute in List.map (fun p => w32 (cbrt (p * 2 ^ 96))) primes.

(** The initial hash value: the same of the square roots of the first
    eight primes. *)
Definition H0 : list Z :=
  Eval vm_compute in
    List.map (fun p => w32 (Z.sqrt (p * 2 ^ 64))) (List.firstn 8 primes).

(** One round on the working variables [a..h], given [K_t] and [W_t]. *)
Definition round (st : list Z) (k w : Z) : list Z :=
  match st with
  | [a; b; c; d; e; f; g; h] =>
      let t1 := add32 (add32 (add32 (add32 h (Sigma1 e)) (Ch e f g)) k) w in
      let t2 := add32 (Sigma0 a) (Maj a b c) in
      [add32 t1 t2; a; b; c; add32 d t1; e; f; g]
  | _ => st
  end.

(** The message schedule is kept as a window of the last sixteen words:
    [W_t] is its head and [W_(t+16)] is appended after each round. *)
Fixpoint rounds (ks win st : list Z) : list Z :=
  match ks, win with
  | k :: ks', w0 :: rest =>
      let nxt :=
        add32 (add32 (add32 (sigma1 (List.nth 14 win 0)) (List.nth 9 win 0))
                     (sigma0 (List.nth 1 win 0))) w0 in
      rounds ks' (rest ++ [nxt]) (round st k w0)
  | _, _ => st
  end.

Definition compress (h block : list Z) : list Z :=
  List.map (fun p => add32 (fst p) (snd p)) (List.combine h (rounds K block h)).

Fixpoint words (bs : list Z) : list Z :=
  match bs with
  | a :: b :: c :: d :: r =>
      (Z.shiftl a 24 + Z.shiftl b 16 + Z.shiftl c 8 + d) :: words r
  | _ => []
  end.

Fixpoint blocks (n : nat) (ws h : list Z) : list Z :=
  match n with
  | O => h
  | S n' => blocks n' (List.skipn 16 ws) (compress h (List.firstn 16 ws))
  end.

Definition be_bytes (n : nat) (x : Z) : list Z :=
  List.map (fun i => Z.shiftr x (8 * Z.of_nat i) mod 256) (List.rev (List.seq 0 n)).

Definition pad (msg : list Z) : list Z :=
  let len := Z.of_nat (List.length msg) in
  let zeros := Z.to_nat ((55 - len) mod 64) in
  msg ++ [0x80] ++ List.repeat 0 zeros ++ be_bytes 8 (8 * len).

Definition sum256_Z (msg : list Z) : list Z :=
  let ws := words (pad msg) in
  List.concat (List.map (be_bytes 4) (blocks (List.length ws / 16) ws H0)).

Definition byte_to_Z (b : byte) : Z := Z.of_N (Byte.to_N b).

Definition Z_to_byte (z : Z) : byte :=
  match Byte.of_N (Z.to_N z) with Some b => b | None => x00 end.

(** [sha256.Sum256]. *)
Definition Sum256 (data : list byte) : list byte :=
  List.map Z_to_byte (sum256_Z (List.map byte_to_Z data)).

End Sha256.

(** ** encoding/hex and fmt *)

Definition hexdigit (n : Z) : ascii :=
  ascii_of_N (Z.to_N (if n <? 10 then 48 + n else 87 + n)).

(** [hex.EncodeToString]. *)
Fixpoint EncodeToString (bs : list byte) : string :=
  match bs with
  | [] => ""
  | b :: r =>
      let z := Sha256.byte_to_Z b in
      String (hexdigit (z / 16)) (String (hexdigit (z mod 16)) (EncodeToString r))
  end.

(** The verb [%d] of [fmt.Sprintf]. *)
Definition FormatInt (z : Z) : string := NilEmpty.string_of_int (Z.to_int z).

Definition bytes_of (s : string) : list byte := list_byte_of_string s.

(** ** time.Time *)

Definition Time := Z.

Definition IsZero (t : Time) : bool := t =? 0.

Definition After (t u : Time) : bool := u <? t.

Definition wrap64 (z : Z) : Z := (z + 2 ^ 63) mod 2 ^ 64 - 2 ^ 63.

(** Seconds from the zero time to the Unix epoch. *)
Definition unixToInternal : Z := 62135596800.

Definition UnixNano (t : Time) : Z := wrap64 (t - unixToInternal * 1000000000).

(** One reading of [time.Now()]: the instant, and its rendering by
    [Format("20060102-150405")] in the local zone, which the environment
    supplies together with the instant. *)
Record Clock := { instant : Time; stamp : string }.

(** ** strings *)

(** The encodings of the code points for which [unicode.IsSpace] holds:
    tab, LF, VT, FF, CR, space, U+0085, U+00A0, U+1680, U+2000..U+200A,
    U+2028, U+2029, U+202F, U+205F, U+3000. UTF-8 is prefix-free, so a
    string starts (ends) with a white-space rune exactly when it starts
    (ends) with one of these byte sequences. [trimLeft] works on the bytes
    in order, [trimRight] on the bytes in reverse order. *)
Definition asciiSpace (c : Z) : bool :=
  (c =? 9) || (c =? 10) || (c =? 11) || (c =? 12) || (c =? 13) || (c =? 32).

Definition space3 (a b c : Z) : bool :=
  ((a =? 0xE1) && (b =? 0x9A) && (c =? 0x80))
  || ((a =? 0xE2) && (b =? 0x80)
      && (((0x80 <=? c) && (c <=? 0x8A)) || (c =? 0xA8) || (c =? 0xA9) || (c =? 0xAF)))
  || ((a =? 0xE2) && (b =? 0x81) && (c =? 0x9F))
  || ((a =? 0xE3) && (b =? 0x80) && (c =? 0x80)).

Definition space2 (a b : Z) : bool :=
  (a =? 0xC2) && ((b =? 0x85) || (b =? 0xA0)).

Fixpoint trimLeft (bs : list Z) : list Z :=
  match bs with
  | a :: r1 =>
      if asciiSpace a then trimLeft r1
      else match r1 with
           | b :: r2 =>
               if space2 a b then trimLeft r2
               else match r2 with
                    | c :: r3 => if space3 a b c then trimLeft r3 else bs
                    | [] => bs
                    end
           | [] => bs
           end
  | [] => []
  end.

Fixpoint trimRight (rs : list Z) : list Z :=
  match rs with
  | a :: r1 =>
      if asciiSpace a then trimRight r1
      else match r1 with
           | b :: r2 =>
               if space2 b a then trimRight r2
               else match r2 with
                    | c :: r3 => if space3 c b a then trimRight r3 else rs
                    | [] => rs
                    end
           | [] => rs
           end
  | [] => []
  end.

Definition codes (s : string) : list Z :=
  List.map (fun a => Z.of_N (N_of_ascii a)) (list_ascii_of_string s).

Definition of_codes (l : list Z) : string :=
  string_of_list_ascii (List.map (fun z => ascii_of_N (Z.to_N z)) l).

(** [strings.TrimSpace]. *)
Definition TrimSpace (s : string) : string :=
  of_codes (List.rev (trimRight (List.rev (trimLeft (codes s))))).

(** [strings.TrimSuffix]. *)
Definition TrimSuffix (s suffix : string) : string :=
  let n := String.length s in
  let m := String.length suffix in
  if (m <=? n)%nat && String.eqb (String.substring (n - m) m s) suffix
  then String.substring 0 (n - m) s
  else s.

(** ** Errors *)

Inductive error : Type :=
  | ErrRemarkExists                     (* store.go: "remark already exists" *)
  | ErrBackupNotFound                   (* store.go: "backup not found" *)
  | ErrNotExist                         (* fs.ErrNotExist *)
  | ErrOS (op : string)                 (* any other failure of a system call *)
  | ErrNew (msg : string)               (* errors.New(msg) *)
  | ErrWrap (msg : string) (e : error). (* fmt.Errorf(msg + ": %w", e) *)

#[global] Instance error_eq_dec : EqDecision error.
Proof. solve_decision. Defined.

(** [errors.Is]: the error itself or one it wraps. *)
Fixpoint errors_Is (e target : error) : bool :=
  if decide (e = target) then true
  else match e with
       | ErrWrap _ e' => errors_Is e' target
       | _ => false
       end.

(** [os.IsNotExist] looks at the error itself, without unwrapping [%w]. *)
Definition IsNotExist (e : error) : bool :=
  match e with ErrNotExist => true | _ => false end.

Inductive result (A : Type) : Type :=
  | Ok (a : A)
  | Err (e : error).
Arguments Ok {A} a.
Arguments Err {A} e.

(** ** hash.go *)

Module FileStat.
Record t := mk { Size : Z; ModTime : Time; Inode : Z; Dev : Z }.
End FileStat.

Record FingerprintResult := {
  Stat : FileStat.t;
  Fingerprint : string
}.

(** The fast signature: the first eight bytes, in hex, of the SHA-256 of
    ["size|mtime|inode|dev"]. *)
Definition fingerprintOf (st : FileStat.t) : string :=
  let seed :=
    FormatInt (FileStat.Size st) +:+ "|" +:+ FormatInt (UnixNano (FileStat.ModTime st))
    +:+ "|" +:+ FormatInt (FileStat.Inode st) +:+ "|" +:+ FormatInt (FileStat.Dev st) in
  EncodeToString (List.firstn 8 (Sha256.Sum256 (bytes_of seed))).

(** A [hash.Hash] as its contract describes it: [Write] appends to the
    bytes seen so far and [Sum(nil)] is the digest of those bytes. *)
Record Hasher := { written : list byte }.

Definition sha256_New : Hasher := {| written := [] |}.

Definition Hasher_Write (h : Hasher) (p : list byte) : Hasher :=
  {| written := written h ++ p |}.

Definition Hasher_Sum (h : Hasher) : list byte := Sha256.Sum256 (written h).

(** One [Read] on the file: some bytes, the end of the file, or a failure. *)
Inductive ReadStep :=
  | ReadBytes (p : list byte)
  | ReadFail.

(** [io.ReadAll(io.TeeReader(f, sum))]: every block that a [Read] returns
    is written to the hasher by the tee and appended to the buffer by
    [ReadAll]; the list of steps is consumed once, front to back, and a
    list that ends is the end of the file. *)
Fixpoint teeReadAll (steps : list ReadStep) (sum : Hasher) (buf : list byte)
  : option (list byte * Hasher) :=
  match steps with
  | [] => Some (buf, sum)
  | ReadBytes p :: rest => teeReadAll rest (Hasher_Write sum p) (buf ++ p)
  | ReadFail :: _ => None
  end.

(** The body of [ComputeContentHash] once the file is open. *)
Definition hashStream (steps : list ReadStep) : result (string * list byte) :=
  match teeReadAll steps sha256_New [] with
  | None => Err (ErrWrap "read file" (ErrOS "read"))
  | Some (data, sum) => Ok (EncodeToString (Hasher_Sum sum), data)
  end.

Definition ShortHash (contentHash : string) : string :=
  if (String.length contentHash <=? 12)%nat then contentHash
  else String.substring 0 12 contentHash.

(** ** store.go: the data model *)

Record BackupItem := {
  ID : string;
  Filename : string;
  ContentHash : string;
  FileFingerprint : string;
  Size : Z;
  CreatedAt : Time;
  Remark : string;
  IsAuto : bool;
  SourcePath : string;
  LastModified : Time
}.

Record IndexData := {
  TargetPath : string;
  HashAlgo : string;
  LatestFingerprint : string;
  Items : list BackupItem;
  Remarks : gmap string string
}.

#[global] Instance BackupItem_eq_dec : EqDecision BackupItem.
Proof. solve_decision. Defined.

#[global] Instance IndexData_eq_dec : EqDecision IndexData.
Proof. solve_decision. Defined.

(** The zero value of [BackupItem] ([var latest BackupItem]). *)
Definition zeroItem : BackupItem :=
  {| ID := ""; Filename := ""; ContentHash := ""; FileFingerprint := "";
     Size := 0; CreatedAt := 0; Remark := ""; IsAuto := false;
     SourcePath := ""; LastModified := 0 |}.

(** The zero value of [IndexData] ([var idx IndexData]); a nil map or
    slice and an empty one are the same value here. *)
Definition zeroIndex : IndexData :=
  {| TargetPath := ""; HashAlgo := ""; LatestFingerprint := "";
     Items := []; Remarks := ∅ |}.

Definition set_Remark (r : string) (it : BackupItem) : BackupItem :=
  {| ID := ID it; Filename := Filename it; ContentHash := ContentHash it;
     FileFingerprint := FileFingerprint it; Size := Size it;
     CreatedAt := CreatedAt it; Remark := r; IsAuto := IsAuto it;
     SourcePath := SourcePath it; LastModified := LastModified it |}.

Definition set_LatestFingerprint (fp : string) (idx : IndexData) : IndexData :=
  {| TargetPath := TargetPath idx; HashAlgo := HashAlgo idx;
     LatestFingerprint := fp; Items := Items idx; Remarks := Remarks idx |}.

Definition set_Items (l : list BackupItem) (idx : IndexData) : IndexData :=
  {| TargetPath := TargetPath idx; HashAlgo := HashAlgo idx;
     LatestFingerprint := LatestFingerprint idx; Items := l;
     Remarks := Remarks idx |}.

Definition set_Remarks (m : gmap string string) (idx : IndexData) : IndexData :=
  {| TargetPath := TargetPath idx; HashAlgo := HashAlgo idx;
     LatestFingerprint := LatestFingerprint idx; Items := Items idx;
     Remarks := m |}.

Definition ensureDefaults (target : string) (idx : IndexData) : IndexData :=
  {| TargetPath := if decide (TargetPath idx = "") then target else TargetPath idx;
     HashAlgo := if decide (HashAlgo idx = "") then "sha256" else HashAlgo idx;
     LatestFingerprint := LatestFingerprint idx;
     Items := Items idx;
     Remarks := Remarks idx |}.

(** ** The file system *)

(** The target file: what [os.Stat] reports besides the size, and its
    bytes. *)
Record File := {
  file_ModTime : Time;
  file_Inode : Z;
  file_Dev : Z;
  file_data : list byte
}.

(** The files the service works on: the target file, the backup
    directory (file name to bytes) and the index file (absent, or the
    [IndexData] last written to it). The target path, the backup
    directory and the index path are three different places. *)
Record FS := {
  target : option File;
  backups : gmap string (list byte);
  index : option IndexData
}.

Definition set_target (t : option File) (d : FS) : FS :=
  {| target := t; backups := backups d; index := index d |}.

Definition set_backups (b : gmap string (list byte)) (d : FS) : FS :=
  {| target := target d; backups := b; index := index d |}.

Definition set_index (i : option IndexData) (d : FS) : FS :=
  {| target := target d; backups := backups d; index := i |}.

(** The state threaded through the operations: the files and a schedule
    of failures. Each system call that can fail takes the next entry of
    [faults], [true] meaning that the call fails; an empty schedule means
    that no call fails. *)
Record World := {
  fs : FS;
  faults : list bool
}.

Definition on_fs (f : FS -> FS) (w : World) : World :=
  {| fs := f (fs w); faults := faults w |}.

Definition set_faults (f : list bool) (w : World) : World :=
  {| fs := fs w; faults := f |}.

(** Take the next entry of the failure schedule. *)
Definition fault (w : World) : bool * World :=
  match faults w with
  | [] => (false, w)
  | b :: rest => (b, set_faults rest w)
  end.

Definition M (A : Type) : Type := World -> result A * World.

Definition ret {A} (a : A) : M A := fun w => (Ok a, w).

Definition fail {A} (e : error) : M A := fun w => (Err e, w).

Definition bind {A B} (m : M A) (k : A -> M B) : M B :=
  fun w => match m w with
           | (Ok a, w') => k a w'
           | (Err e, w') => (Err e, w')
           end.

Notation "x <-- m ;; k" := (bind m (fun x => k))
  (at level 100, m at next level, right associativity).

(** A system call with no result that fails with [e] when the schedule
    says so. *)
Definition syscall (e : error) : M unit :=
  fun w => let (b, w') := fault w in
           if b then (Err e, w') else (Ok tt, w').

(** [fmt.Errorf(msg + ": %w", err)] around a call. *)
Definition wrapping {A} (msg : string) (m : M A) : M A :=
  fun w => match m w with
           | (Err e, w') => (Err (ErrWrap msg e), w')
           | r => r
           end.

(** ** util: directories, atomic writes, the file lock *)

Definition MkdirAll : M unit := syscall (ErrOS "mkdir").

Definition EnsureDir (dir : string) : M unit :=
  if decide (dir = "") then fail (ErrNew "dir is empty") else MkdirAll.

(** The steps that [AtomicWriteJSON] and [AtomicWriteFile] share up to the
    rename: the directory of the path ([filepath.Dir] is never empty), the
    temporary file, and its [Write], [Sync], ([Chmod],) [Close]. None of
    them touches the destination. *)
Definition writeTemp (chmod : bool) : M unit :=
  _ <-- wrapping "ensure dir" MkdirAll ;;
  _ <-- wrapping "create temp" (syscall (ErrOS "createtemp")) ;;
  _ <-- wrapping "write temp" (syscall (ErrOS "write")) ;;
  _ <-- wrapping "sync temp" (syscall (ErrOS "sync")) ;;
  _ <-- (if chmod then wrapping "chmod temp" (syscall (ErrOS "chmod")) else ret tt) ;;
  wrapping "close temp" (syscall (ErrOS "close")).

(** [os.Rename(tmp, path)]: the destination takes its new content in one
    step, or the call fails and the destination is as before. *)
Definition rename (commit : FS -> FS) : M unit :=
  fun w => let (b, w') := fault w in
           if b then (Err (ErrWrap "rename temp" (ErrOS "rename")), w')
           else (Ok tt, on_fs commit w').

Definition AtomicWriteJSON (idx : IndexData) : M unit :=
  _ <-- writeTemp false ;;
  rename (set_index (Some idx)).

(** What the file system assigns to a file that was just renamed into
    place. *)
Record FileMeta := { meta_ModTime : Time; meta_Inode : Z; meta_Dev : Z }.

Definition mkFile (meta : FileMeta) (data : list byte) : File :=
  {| file_ModTime := meta_ModTime meta; file_Inode := meta_Inode meta;
     file_Dev := meta_Dev meta; file_data := data |}.

(** [AtomicWriteFile] on the target path. *)
Definition AtomicWriteFile_target (meta : FileMeta) (data : list byte) : M unit :=
  _ <-- writeTemp true ;;
  rename (set_target (Some (mkFile meta data))).

(** [AtomicWriteFile] on a file of the backup directory. *)
Definition AtomicWriteFile_backup (name : string) (data : list byte) : M unit :=
  _ <-- writeTemp true ;;
  rename (fun d => set_backups (<[name := data]> (backups d)) d).

(** [ReadFileIfExists] on the index path. *)
Definition ReadFileIfExists_index : M (option IndexData) :=
  fun w => let (b, w') := fault w in
           if b then (Err (ErrOS "read"), w') else (Ok (index (fs w')), w').

Definition WithFileLock {A} (fn : M A) : M A :=
  _ <-- wrapping "ensure lock dir" MkdirAll ;;
  _ <-- wrapping "open lock file" (syscall (ErrOS "open")) ;;
  _ <-- wrapping "lock file" (syscall (ErrOS "flock")) ;;
  fn.

(** ** store.go: the index store *)

Record Store := { indexPath : string; lockPath : string; targetPath : string }.

Definition NewStore (indexPath targetPath : string) : Store :=
  {| indexPath := indexPath; lockPath := indexPath +:+ ".lock";
     targetPath := targetPath |}.

Definition loadIndexUnlocked (s : Store) : M IndexData :=
  o <-- wrapping "read index" ReadFileIfExists_index ;;
  ret (ensureDefaults (targetPath s)
         (match o with Some idx => idx | None => zeroIndex end)).

Definition Snapshot (s : Store) : M IndexData := loadIndexUnlocked s.

(** A mutator works on the loaded index in place and returns an error or
    nil; [X] is what it leaves in the variables of its caller. *)
Definition Mutator (X : Type) : Type := IndexData -> X * IndexData * option error.

Definition update {X} (s : Store) (mutator : Mutator X) : M (X * IndexData) :=
  WithFileLock (
    idx <-- loadIndexUnlocked s ;;
    match mutator idx with
    | (_, _, Some e) => fail e
    | (x, idx', None) =>
        let idx'' := ensureDefaults (targetPath s) idx' in
        _ <-- AtomicWriteJSON idx'' ;;
        ret (x, idx'')
    end).

Definition addBackupMutator (item : BackupItem) (latestFingerprint : string)
  : Mutator unit :=
  fun idx =>
    let commit idx1 :=
      (tt, set_LatestFingerprint latestFingerprint
             (set_Items (Items idx1 ++ [item]) idx1), None) in
    if decide (Remark item <> "") then
      match Remarks idx !! Remark item with
      | Some existing =>
          if decide (existing <> ID item) then (tt, idx, Some ErrRemarkExists)
          else commit (set_Remarks (<[Remark item := ID item]> (Remarks idx)) idx)
      | None => commit (set_Remarks (<[Remark item := ID item]> (Remarks idx)) idx)
      end
    else commit idx.

Definition AddBackup (s : Store) (item : BackupItem) (latestFingerprint : string)
  : M IndexData :=
  r <-- update s (addBackupMutator item latestFingerprint) ;; ret (snd r).

Definition UpdateLatestFingerprint (s : Store) (fingerprint : string) : M IndexData :=
  r <-- update s (fun idx => (tt, set_LatestFingerprint fingerprint idx, None)) ;;
  ret (snd r).

(** The position of the first item with the given id. *)
Fixpoint findIndex (id : string) (items : list BackupItem) : option nat :=
  match items with
  | [] => None
  | it :: rest =>
      if decide (ID it = id) then Some O
      else match findIndex id rest with Some i => Some (S i) | None => None end
  end.

Definition updateRemarkMutator (id newRemark : string) : Mutator (option BackupItem) :=
  fun idx =>
    match findIndex id (Items idx) with
    | None => (None, idx, Some ErrBackupNotFound)
    | Some i =>
        match Items idx !! i with
        | None => (None, idx, Some ErrBackupNotFound)
        | Some item =>
            if decide (Remark item = newRemark) then (Some item, idx, None)
            else
              let taken :=
                if decide (newRemark <> "") then
                  match Remarks idx !! newRemark with
                  | Some existing => bool_decide (existing <> id)
                  | None => false
                  end
                else false in
              if taken then (None, idx, Some ErrRemarkExists)
              else
                let m1 := if decide (Remark item <> "")
                          then delete (Remark item) (Remarks idx)
                          else Remarks idx in
                let item' := set_Remark newRemark item in
                let m2 := if decide (newRemark <> "")
                          then <[newRemark := id]> m1 else m1 in
                (Some item', set_Remarks m2 (set_Items (<[i := item']> (Items idx)) idx), None)
        end
    end.

Definition Store_UpdateRemark (s : Store) (id newRemark : string) : M (option BackupItem) :=
  r <-- update s (updateRemarkMutator id newRemark) ;; ret (fst r).

(** The loop of [DeleteBackup] over [idx.Items]. *)
Record DeleteAcc := {
  acc_found : bool;
  acc_items : list BackupItem;
  acc_latest : BackupItem;
  acc_removed : BackupItem
}.

Definition deleteStep (id : string) (acc : DeleteAcc) (item : BackupItem) : DeleteAcc :=
  if decide (ID item = id) then
    {| acc_found := true; acc_items := acc_items acc;
       acc_latest := acc_latest acc; acc_removed := item |}
  else
    {| acc_found := acc_found acc;
       acc_items := acc_items acc ++ [item];
       acc_latest :=
         if IsZero (CreatedAt (acc_latest acc))
            || After (CreatedAt item) (CreatedAt (acc_latest acc))
         then item else acc_latest acc;
       acc_removed := acc_removed acc |}.

Definition deleteLoop (id : string) (items : list BackupItem) : DeleteAcc :=
  List.fold_left (deleteStep id) items
    {| acc_found := false; acc_items := []; acc_latest := zeroItem;
       acc_removed := zeroItem |}.

Definition deleteBackupMutator (id : string) : Mutator BackupItem :=
  fun idx =>
    let acc := deleteLoop id (Items idx) in
    if negb (acc_found acc) then (acc_removed acc, idx, Some ErrBackupNotFound)
    else
      let m := if decide (Remark (acc_removed acc) <> "")
               then delete (Remark (acc_removed acc)) (Remarks idx)
               else Remarks idx in
      let fp := if decide (ID (acc_latest acc) <> "")
                then FileFingerprint (acc_latest acc) else "" in
      (acc_removed acc,
       set_LatestFingerprint fp (set_Remarks m (set_Items (acc_items acc) idx)),
       None).

Definition Store_DeleteBackup (s : Store) (id : string) : M BackupItem :=
  r <-- update s (deleteBackupMutator id) ;; ret (fst r).

Fixpoint findByID (id : string) (items : list BackupItem) : option BackupItem :=
  match items with
  | [] => None
  | it :: rest => if decide (ID it = id) then Some it else findByID id rest
  end.

Definition FindByID (s : Store) (id : string) : M BackupItem :=
  idx <-- Snapshot s ;;
  match findByID id (Items idx) with
  | Some it => ret it
  | None => fail ErrBackupNotFound
  end.

(** ** hash.go and backup.go on the file system *)

(** [os.Stat] on the target path. *)
Definition Stat_target : M FileStat.t :=
  fun w => let (b, w') := fault w in
           if b then (Err (ErrOS "stat"), w')
           else match target (fs w') with
                | None => (Err ErrNotExist, w')
                | Some f =>
                    (Ok (FileStat.mk (Z.of_nat (List.length (file_data f)))
                           (file_ModTime f) (file_Inode f) (file_Dev f)), w')
                end.

Definition ComputeFingerprint : M FingerprintResult :=
  st <-- Stat_target ;;
  ret {| Stat := st; Fingerprint := fingerprintOf st |}.

(** The bytes of a file in the order of the [Read] calls that deliver
    them, [n] bytes at a time. *)
Fixpoint blocksOf (fuel n : nat) (data : list byte) : list (list byte) :=
  match fuel, data with
  | S fuel', _ :: _ => List.firstn n data :: blocksOf fuel' n (List.skipn n data)
  | _, _ => []
  end.

(** [os.Open] on the target path and the reads that follow; the block
    size is the first buffer of [io.ReadAll]. *)
Definition Open_target : M (list ReadStep) :=
  fun w => let (b, w1) := fault w in
           if b then (Err (ErrOS "open"), w1)
           else match target (fs w1) with
                | None => (Err ErrNotExist, w1)
                | Some f =>
                    let (b', w2) := fault w1 in
                    (Ok (if b' then [ReadFail]
                         else List.map ReadBytes
                                (blocksOf (List.length (file_data f)) 512 (file_data f))),
                     w2)
                end.

Definition ComputeContentHash : M (string * list byte) :=
  steps <-- Open_target ;;
  fun w => (hashStream steps, w).

Definition BuildBackupFilename (ts : Clock) (contentHash : string) : string :=
  stamp ts +:+ "_" +:+ ShortHash contentHash +:+ ".json".

(** [os.Stat] on a path of the backup directory, as [EnsureUniqueFilename]
    uses it: [true] when the answer is "does not exist". [name] is a
    plain file name, as [BuildBackupFilename] makes them, for which
    [filepath.Join(backupsDir, name)] is the path of the file [name] of
    the directory; the model does not cover other names (the empty name,
    [.], names with a separator). *)
Definition backupIsNotExist (name : string) (w : World) : bool * World :=
  let (b, w') := fault w in
  if b then (false, w')
  else (bool_decide (backups (fs w') !! name = None), w').

(** The loop of [EnsureUniqueFilename]; [None] while it has not returned
    after [fuel] candidates. *)
Fixpoint uniqueLoop (fuel : nat) (prefix : string) (counter : Z) (w : World)
  : option (string * World) :=
  match fuel with
  | O => None
  | S fuel' =>
      let candidate := prefix +:+ "-" +:+ FormatInt counter +:+ ".json" in
      let (free, w') := backupIsNotExist candidate w in
      if free then Some (candidate, w')
      else uniqueLoop fuel' prefix (wrap64 (counter + 1)) w'
  end.

Definition EnsureUniqueFilename (fuel : nat) (backupsDir base : string) (w : World)
  : option (result string * World) :=
  match EnsureDir backupsDir w with
  | (Err e, w1) => Some (Err e, w1)
  | (Ok _, w1) =>
      let (free, w2) := backupIsNotExist base w1 in
      if free then Some (Ok base, w2)
      else match uniqueLoop fuel (TrimSuffix base ".json") 1 w2 with
           | Some (candidate, w3) => Some (Ok candidate, w3)
           | None => None
           end
  end.

Definition WriteBackupFile (backupsDir filename : string) (data : list byte)
  : M string :=
  _ <-- EnsureDir backupsDir ;;
  _ <-- AtomicWriteFile_backup filename data ;;
  ret filename.

(** [os.Remove] on a file of the backup directory. *)
Definition Remove_backup (name : string) : M unit :=
  fun w => let (b, w') := fault w in
           if b then (Err (ErrOS "remove"), w')
           else match backups (fs w') !! name with
                | None => (Err ErrNotExist, w')
                | Some _ => (Ok tt, on_fs (set_backups (delete name (backups (fs w')))) w')
                end.

(** [os.ReadFile] on a file of the backup directory. *)
Definition ReadFile_backup (name : string) : M (list byte) :=
  fun w => let (b, w') := fault w in
           if b then (Err (ErrOS "read"), w')
           else match backups (fs w') !! name with
                | None => (Err ErrNotExist, w')
                | Some data => (Ok data, w')
                end.

(** ** service.go: the orchestrator *)

Module Config.
Record t := mk {
  TargetPath : string;
  DataDir : string;
  BackupsDir : string;
  IndexPath : string
}.
End Config.

Record Service := { cfg : Config.t; store : Store }.

Definition NewService (c : Config.t) : Service :=
  {| cfg := c; store := NewStore (Config.IndexPath c) (Config.TargetPath c) |}.

Record ScanResult := {
  Created : bool;
  Item : option BackupItem;
  Reason : string
}.

(** The reasons of a scan that creates nothing, as service.go spells
    them. *)
Definition reasonTargetMissing : string := "目标文件不存在".
Definition reasonUnchanged : string := "文件未变更".
Definition reasonDuplicateContent : string := "内容已存在备份".

Definition errEmptyRemark : error := ErrNew "备注不能为空字符串".

Fixpoint findByContentHash (items : list BackupItem) (hash : string)
  : option BackupItem :=
  match items with
  | [] => None
  | it :: rest =>
      if decide (ContentHash it = hash) then Some it
      else findByContentHash rest hash
  end.

(** The loop of [prepareRemark] over the snapshot. *)
Fixpoint prepareLoop (fuel : nat) (remarks : gmap string string)
    (remark : string) (counter : Z) : option string :=
  match fuel with
  | O => None
  | S fuel' =>
      let candidate := remark +:+ "-" +:+ FormatInt counter in
      match remarks !! candidate with
      | None => Some candidate
      | Some _ => prepareLoop fuel' remarks remark (wrap64 (counter + 1))
      end
  end.

(** [now] is the reading of [time.Now()] that [prepareRemark] takes when
    no label was supplied. *)
Definition prepareRemark (fuel : nat) (idx : IndexData) (isAuto : bool)
    (req : option string) (now : Clock) : option (result string) :=
  match req with
  | Some s =>
      let r := TrimSpace s in
      if decide (r = "") then Some (Err errEmptyRemark)
      else match Remarks idx !! r with
           | Some _ => Some (Err ErrRemarkExists)
           | None => Some (Ok r)
           end
  | None =>
      let base := if isAuto then "auto-" else "manual-" in
      let remark := base +:+ stamp now in
      match Remarks idx !! remark with
      | None => Some (Ok remark)
      | Some _ =>
          match prepareLoop fuel (Remarks idx) remark 1 with
          | Some candidate => Some (Ok candidate)
          | None => None
          end
      end
  end.

(** The loop of [persistBackup]: [fuel] bounds the calls of [AddBackup]
    the model follows; the source has no bound. The result is the error
    returned, [None] for nil. *)
Fixpoint persistLoop (fuel : nat) (st : Store) (baseRemark : string)
    (item : BackupItem) (counter : Z) (fingerprint : string) (isAuto : bool)
    (w : World) : option (option error * World) :=
  match fuel with
  | O => None
  | S fuel' =>
      match AddBackup st item fingerprint w with
      | (Ok _, w') => Some (None, w')
      | (Err e, w') =>
          if errors_Is e ErrRemarkExists && isAuto then
            persistLoop fuel' st baseRemark
              (set_Remark (baseRemark +:+ "-" +:+ FormatInt counter) item)
              (wrap64 (counter + 1)) fingerprint isAuto w'
          else Some (Some e, w')
      end
  end.

Definition persistBackup (fuel : nat) (s : Service) (item : BackupItem)
    (fingerprint : string) (isAuto : bool) (w : World)
  : option (option error * World) :=
  persistLoop fuel (store s) (Remark item) item 1 fingerprint isAuto w.

Definition notCreated (reason : string) : ScanResult :=
  {| Created := false; Item := None; Reason := reason |}.

(** What one call of [Scan] takes from its environment: the two readings
    of [time.Now()] (in [prepareRemark] and in [Scan]) and the string of
    [uuid.New()]. *)
Record ScanEnv := { env_remarkNow : Clock; env_now : Clock; env_uuid : string }.

(** [Scan]. [None] only when one of the three unbounded loops is still
    running after [fuel] iterations. *)
Definition Scan (fuel : nat) (s : Service) (isAuto : bool) (remark : option string)
    (env : ScanEnv) (w : World) : option (result ScanResult * World) :=
  match Snapshot (store s) w with
  | (Err e, w1) => Some (Err e, w1)
  | (Ok idx, w1) =>
  match ComputeFingerprint w1 with
  | (Err e, w2) =>
      if IsNotExist e then Some (Ok (notCreated reasonTargetMissing), w2)
      else Some (Err (ErrWrap "stat target" e), w2)
  | (Ok fingerprintRes, w2) =>
  let fingerprint := Fingerprint fingerprintRes in
  if decide (LatestFingerprint idx = fingerprint)
  then Some (Ok (notCreated reasonUnchanged), w2)
  else
  match ComputeContentHash w2 with
  | (Err e, w3) => Some (Err (ErrWrap "读取目标内容" e), w3)
  | (Ok (contentHash, data), w3) =>
  match findByContentHash (Items idx) contentHash with
  | Some _ =>
      match UpdateLatestFingerprint (store s) fingerprint w3 with
      | (Err e, w4) => Some (Err (ErrWrap "更新最新指纹" e), w4)
      | (Ok _, w4) => Some (Ok (notCreated reasonDuplicateContent), w4)
      end
  | None =>
  match prepareRemark fuel idx isAuto remark (env_remarkNow env) with
  | None => None
  | Some (Err e) => Some (Err e, w3)
  | Some (Ok finalRemark) =>
  let now := env_now env in
  match EnsureUniqueFilename fuel (Config.BackupsDir (cfg s))
          (BuildBackupFilename now contentHash) w3 with
  | None => None
  | Some (Err e, w4) => Some (Err (ErrWrap "生成备份文件名" e), w4)
  | Some (Ok filename, w4) =>
  match WriteBackupFile (Config.BackupsDir (cfg s)) filename data w4 with
  | (Err e, w5) => Some (Err (ErrWrap "写入备份文件" e), w5)
  | (Ok _, w5) =>
  let item :=
    {| ID := env_uuid env;
       Filename := filename;
       ContentHash := contentHash;
       FileFingerprint := fingerprint;
       Size := FileStat.Size (Stat fingerprintRes);
       CreatedAt := instant now;
       Remark := finalRemark;
       IsAuto := isAuto;
       SourcePath := Config.TargetPath (cfg s);
       LastModified := FileStat.ModTime (Stat fingerprintRes) |} in
  match persistBackup fuel s item fingerprint isAuto w5 with
  | None => None
  | Some (Some e, w6) => Some (Err e, snd (Remove_backup filename w6))
  | Some (None, w6) =>
      Some (Ok {| Created := true; Item := Some item; Reason := "" |}, w6)
  end end end end end end end end.

Definition CreateBackup (fuel : nat) (s : Service) (remark : option string)
    (env : ScanEnv) (w : World) : option (result ScanResult * World) :=
  Scan fuel s false remark env w.

Definition Service_UpdateRemark (s : Service) (id remark : string)
  : M (option BackupItem) :=
  Store_UpdateRemark (store s) id (TrimSpace remark).

(** [RestoreBackup]; [meta] is what the file system gives the restored
    file. The result is the error returned, [None] for nil. *)
Definition RestoreBackup (s : Service) (id : string) (meta : FileMeta) (w : World)
  : option error * World :=
  match FindByID (store s) id w with
  | (Err e, w1) => (Some e, w1)
  | (Ok item, w1) =>
  match ReadFile_backup (Filename item) w1 with
  | (Err e, w2) => (Some (ErrWrap "读取备份文件" e), w2)
  | (Ok data, w2) =>
  match MkdirAll w2 with
  | (Err e, w3) => (Some (ErrWrap "确保目标目录" e), w3)
  | (Ok _, w3) =>
  match AtomicWriteFile_target meta data w3 with
  | (Err e, w4) => (Some (ErrWrap "写入目标文件" e), w4)
  | (Ok _, w4) =>
  match ComputeFingerprint w4 with
  | (Ok res, w5) => (None, snd (UpdateLatestFingerprint (store s) (Fingerprint res) w5))
  | (Err _, w5) => (None, w5)
  end end end end end.

Definition Service_DeleteBackup (s : Service) (id : string) (w : World)
  : option error * World :=
  match Store_DeleteBackup (store s) id w with
  | (Err e, w1) => (Some e, w1)
  | (Ok item, w1) => (None, snd (Remove_backup (Filename item) w1))
  end.

(** ** Notions used by the statements *)

(** The errors that come from a failed system call, possibly wrapped. *)
Fixpoint isIOError (e : error) : bool :=
  match e with
  | ErrOS _ => true
  | ErrWrap _ e' => isIOError e'
  | _ => false
  end.

(** The index as [loadIndexUnlocked] sees it. *)
Definition loaded (s : Store) (d : FS) : IndexData :=
  ensureDefaults (targetPath s)
    (match index d with Some idx => idx | None => zeroIndex end).

(** What a computation of [M] may do, whatever the schedule: it returns a
    value allowed by [post] together with the files it leaves, or it fails
    with an error allowed by [exc]. *)
Definition outcome {A} (m : M A) (d : FS)
    (post : A -> FS -> Prop) (exc : error -> FS -> Prop) : Prop :=
  forall w, fs w = d ->
    match m w with
    | (Ok a, w') => post a (fs w')
    | (Err e, w') => exc e (fs w')
    end.

Definition ioFailure (d : FS) : error -> FS -> Prop :=
  fun e d' => isIOError e = true /\ d' = d.

(** What [os.Stat] reports on a file. *)
Definition statOf (f : File) : FileStat.t :=
  FileStat.mk (Z.of_nat (List.length (file_data f)))
    (file_ModTime f) (file_Inode f) (file_Dev f).

(** A scan ends without creating anything, for the given reason, and
    leaves every file as it was: this is the result unless a system call
    failed, and it is the result when none fails. *)
Definition endsNotCreated (reason : string) (w : World)
    (out : option (result ScanResult * World)) : Prop :=
  exists r w', out = Some (r, w')
    /\ fs w' = fs w
    /\ index (fs w') = index (fs w)
    /\ ((exists sr, r = Ok sr
           /\ Created sr = false /\ Item sr = None /\ Reason sr = reason)
        \/ exists e, r = Err e /\ isIOError e = true)
    /\ (faults w = [] ->
        exists sr, r = Ok sr
          /\ Created sr = false /\ Item sr = None /\ Reason sr = reason).

(** *** The label invariant *)

(** No two entries share an id. *)
Definition IdsUnique (idx : IndexData) : Prop := NoDup (ID <$> Items idx).

(** No two entries, at different positions, share a non-empty label. *)
Definition LabelsUnique (idx : IndexData) : Prop :=
  forall (i j : nat) (a b : BackupItem),
    Items idx !! i = Some a -> Items idx !! j = Some b ->
    Remark a <> "" -> Remark a = Remark b -> i = j.

(** The label index holds exactly the non-empty labels of the entries,
    each with the id of the entry that carries it. *)
Definition LabelIndexExact (idx : IndexData) : Prop :=
  forall (r id : string),
    Remarks idx !! r = Some id <->
    r <> "" /\ exists it, it ∈ Items idx /\ Remark it = r /\ ID it = id.

Definition StoreInv (idx : IndexData) : Prop :=
  IdsUnique idx /\ LabelIndexExact idx.

(** The operations of the store that write the index. *)
Inductive StoreOp : Type :=
  | OpAddBackup (item : BackupItem) (latestFingerprint : string)
  | OpUpdateLatestFingerprint (fingerprint : string)
  | OpUpdateRemark (id newRemark : string)
  | OpDeleteBackup (id : string).

Definition runOp (s : Store) (op : StoreOp) (w : World) : World :=
  match op with
  | OpAddBackup item fp => snd (AddBackup s item fp w)
  | OpUpdateLatestFingerprint fp => snd (UpdateLatestFingerprint s fp w)
  | OpUpdateRemark id r => snd (Store_UpdateRemark s id r w)
  | OpDeleteBackup id => snd (Store_DeleteBackup s id w)
  end.

(** An entry that is added brings an id of its own, as [uuid.New()]
    supplies it. *)
Definition freshId (s : Store) (op : StoreOp) (w : World) : Prop :=
  match op with
  | OpAddBackup item _ => ID item ∉ (ID <$> Items (loaded s (fs w)))
  | _ => True
  end.


(** *** The second half of a scan *)

(** What [Scan] does once it has found the content to be new: resolve the
    label, allocate the file name, write the backup file, commit the
    entry. It is the text of [Scan] from the call of [prepareRemark] on,
    given a name so that statements can refer to it; [Scan_new_content]
    shows that [Scan] continues with it. *)
Definition scanNewContent (fuel : nat) (s : Service) (isAuto : bool)
    (remark : option string) (env : ScanEnv) (idx : IndexData)
    (fingerprintRes : FingerprintResult) (contentHash : string)
    (data : list byte) (w3 : World) : option (result ScanResult * World) :=
  let fingerprint := Fingerprint fingerprintRes in
  match prepareRemark fuel idx isAuto remark (env_remarkNow env) with
  | None => None
  | Some (Err e) => Some (Err e, w3)
  | Some (Ok finalRemark) =>
  let now := env_now env in
  match EnsureUniqueFilename fuel (Config.BackupsDir (cfg s))
          (BuildBackupFilename now contentHash) w3 with
  | None => None
  | Some (Err e, w4) => Some (Err (ErrWrap "生成备份文件名" e), w4)
  | Some (Ok filename, w4) =>
  match WriteBackupFile (Config.BackupsDir (cfg s)) filename data w4 with
  | (Err e, w5) => Some (Err (ErrWrap "写入备份文件" e), w5)
  | (Ok _, w5) =>
  let item :=
    {| ID := env_uuid env;
       Filename := filename;
       ContentHash := contentHash;
       FileFingerprint := fingerprint;
       Size := FileStat.Size (Stat fingerprintRes);
       CreatedAt := instant now;
       Remark := finalRemark;
       IsAuto := isAuto;
       SourcePath := Config.TargetPath (cfg s);
       LastModified := FileStat.ModTime (Stat fingerprintRes) |} in
  match persistBackup fuel s item fingerprint isAuto w5 with
  | None => None
  | Some (Some e, w6) => Some (Err e, snd (Remove_backup filename w6))
  | Some (None, w6) =>
      Some (Ok {| Created := true; Item := Some item; Reason := "" |}, w6)
  end end end end.

(** The file of the target as [ComputeFingerprint] and
    [ComputeContentHash] report it. *)
Definition fingerprintResOf (f : File) : FingerprintResult :=
  {| Stat := statOf f; Fingerprint := fingerprintOf (statOf f) |}.

Definition contentHashOf (f : File) : string :=
  EncodeToString (Sha256.Sum256 (file_data f)).

(** The ways a scan can go, up to the point where the content is known
    to be new; [d] are the files before the scan. *)
Inductive ScanPath (fuel : nat) (s : Service) (isAuto : bool)
    (remark : option string) (env : ScanEnv) (w : World)
  : option (result ScanResult * World) -> Prop :=
  | path_io e w' :
      isIOError e = true -> fs w' = fs w -> faults w <> [] ->
      ScanPath fuel s isAuto remark env w (Some (Err e, w'))
  | path_missing w' :
      target (fs w) = None -> fs w' = fs w -> (faults w = [] -> w' = w) ->
      ScanPath fuel s isAuto remark env w
        (Some (Ok (notCreated reasonTargetMissing), w'))
  | path_unchanged f w' :
      target (fs w) = Some f ->
      LatestFingerprint (loaded (store s) (fs w)) = fingerprintOf (statOf f) ->
      fs w' = fs w -> (faults w = [] -> w' = w) ->
      ScanPath fuel s isAuto remark env w
        (Some (Ok (notCreated reasonUnchanged), w'))
  | path_duplicate f E w' :
      target (fs w) = Some f ->
      LatestFingerprint (loaded (store s) (fs w)) <> fingerprintOf (statOf f) ->
      findByContentHash (Items (loaded (store s) (fs w))) (contentHashOf f) = Some E ->
      fs w' = set_index
                (Some (set_LatestFingerprint (fingerprintOf (statOf f))
                         (loaded (store s) (fs w)))) (fs w) ->
      ScanPath fuel s isAuto remark env w
        (Some (Ok (notCreated reasonDuplicateContent), w'))
  | path_new f w3 :
      target (fs w) = Some f ->
      LatestFingerprint (loaded (store s) (fs w)) <> fingerprintOf (statOf f) ->
      findByContentHash (Items (loaded (store s) (fs w))) (contentHashOf f) = None ->
      fs w3 = fs w -> (faults w = [] -> w3 = w) ->
      ScanPath fuel s isAuto remark env w
        (scanNewContent fuel s isAuto remark env (loaded (store s) (fs w))
           (fingerprintResOf f) (contentHashOf f) (file_data f) w3).

(** *** Labels at commit time *)

(** The label of the [k]-th attempt of [persistBackup] on an entry whose
    label is [base]: [base] itself, then [base-1], [base-2], ... *)
Definition retryLabel (base : string) (k : Z) : string :=
  if decide (k = 0) then base else base +:+ "-" +:+ FormatInt k.

(** The label is in the label index under the id of another entry: the
    condition on which [AddBackup] answers [ErrRemarkExists]. *)
Definition takenByOther (idx : IndexData) (id label : string) : Prop :=
  label <> "" /\ exists existing, Remarks idx !! label = Some existing /\ existing <> id.

(** The index after [AddBackup] has committed the entry. *)
Definition withEntry (item : BackupItem) (fingerprint : string) (idx : IndexData)
  : IndexData :=
  set_LatestFingerprint fingerprint
    (set_Items (Items idx ++ [item])
       (if decide (Remark item <> "")
        then set_Remarks (<[Remark item := ID item]> (Remarks idx)) idx
        else idx)).

(** An index in which the first [n] labels that [persistBackup] tries
    from [base] are held by [n] entries. *)
Definition crowdEntry (base : string) (k : nat) : BackupItem :=
  {| ID := "id-" +:+ FormatInt (Z.of_nat k);
     Filename := "f-" +:+ FormatInt (Z.of_nat k) +:+ ".json";
     ContentHash := FormatInt (Z.of_nat k);
     FileFingerprint := "";
     Size := 0;
     CreatedAt := 1 + Z.of_nat k;
     Remark := retryLabel base (Z.of_nat k);
     IsAuto := true;
     SourcePath := "";
     LastModified := 0 |}.

Fixpoint crowdedRemarks (base : string) (n : nat) : gmap string string :=
  match n with
  | O => ∅
  | S k => <[retryLabel base (Z.of_nat k) := ID (crowdEntry base k)]>
             (crowdedRemarks base k)
  end.

Definition crowdedIndex (base : string) (n : nat) : IndexData :=
  {| TargetPath := ""; HashAlgo := ""; LatestFingerprint := "";
     Items := crowdEntry base <$> seq 0 n;
     Remarks := crowdedRemarks base n |}.

(** *** A sample run, for the instances of the statements *)

Definition sampleConfig : Config.t :=
  Config.mk "/home/u/.codex/auth.json" "/srv/data" "/srv/data/backups"
    "/srv/data/index.json".

Definition sampleService : Service := NewService sampleConfig.

Definition sampleFile : File :=
  {| file_ModTime := 63893750400000000000; file_Inode := 42; file_Dev := 7;
     file_data := bytes_of "token-alpha" |}.

(** The same bytes after a [touch]. *)
Definition sampleFileTouched : File :=
  {| file_ModTime := 63893750402000000000; file_Inode := 42; file_Dev := 7;
     file_data := bytes_of "token-alpha" |}.

Definition sampleFileChanged : File :=
  {| file_ModTime := 63893750460000000000; file_Inode := 42; file_Dev := 7;
     file_data := bytes_of "token-beta" |}.

Definition sampleEnv1 : ScanEnv :=
  {| env_remarkNow := {| instant := 63893750401000000000; stamp := "20250918-000001" |};
     env_now := {| instant := 63893750401000000000; stamp := "20250918-000001" |};
     env_uuid := "0b2f6c1e-0001" |}.

Definition sampleEnv2 : ScanEnv :=
  {| env_remarkNow := {| instant := 63893750461000000000; stamp := "20250918-000101" |};
     env_now := {| instant := 63893750461000000000; stamp := "20250918-000101" |};
     env_uuid := "0b2f6c1e-0002" |}.

(** A fresh data directory and the target file in place. *)
Definition sampleWorld0 : World :=
  {| fs := {| target := Some sampleFile; backups := ∅; index := None |};
     faults := [] |}.

Definition worldOf (out : option (result ScanResult * World)) (w : World) : World :=
  match out with Some (_, w') => w' | None => w end.

(** After a first manual backup under the label "x". *)
Definition sampleWorld1 : World :=
  worldOf (Scan 4 sampleService false (Some "x") sampleEnv1 sampleWorld0) sampleWorld0.

(** The target file rewritten with other content. *)
Definition sampleWorld2 : World :=
  on_fs (set_target (Some sampleFileChanged)) sampleWorld1.

(** After a second backup, taken by the scheduler. *)
Definition sampleWorld3 : World :=
  worldOf (Scan 4 sampleService true None sampleEnv2 sampleWorld2) sampleWorld2.

(** An entry the scheduler is about to commit under a synthesized
    label. *)
Definition sampleAutoItem : BackupItem :=
  {| ID := "0b2f6c1e-0003";
     Filename := "20250918-000201_38461323b18a.json";
     ContentHash := "38461323b18a";
     FileFingerprint := "2bf9494936162405";
     Size := 10;
     CreatedAt := 63893750521000000000;
     Remark := "auto-20250918-000201";
     IsAuto := true;
     SourcePath := "/home/u/.codex/auth.json";
     LastModified := 63893750460000000000 |}.

(** A data directory whose index holds the label of [sampleAutoItem] and
    its first [n - 1] renamings. *)
Definition crowdedWorld (n : nat) : World :=
  {| fs := {| target := Some sampleFileChanged; backups := ∅;
              index := Some (crowdedIndex (Remark sampleAutoItem) n) |};
     faults := [] |}.

(** *** Runs of the service *)

(** What a scan adds to the record of captured bytes: when it creates an
    entry, the bytes of the target file it has read, under the id of the
    entry. *)
Definition captured (env : ScanEnv) (w : World) (res : result ScanResult)
    (h : gmap string (list byte)) : gmap string (list byte) :=
  match res, target (fs w) with
  | Ok sr, Some f => if Created sr then <[env_uuid env := file_data f]> h else h
  | _, _ => h
  end.

(** The states that the operations of the service lead to, from a data
    directory without index file, together with the bytes each entry
    captured when a scan created it. Between the operations the client
    tool may rewrite or remove the target file, and any system call may
    fail. The ids that [uuid.New()] supplies are new to the index. *)
Inductive Run (s : Service) : World -> gmap string (list byte) -> Prop :=
  | run_start w : index (fs w) = None -> Run s w ∅
  | run_scan w h fuel isAuto remark env res w' :
      Run s w h ->
      env_uuid env ∉ (ID <$> Items (loaded (store s) (fs w))) ->
      Scan fuel s isAuto remark env w = Some (res, w') ->
      Run s w' (captured env w res h)
  | run_restore w h id meta :
      Run s w h -> Run s (snd (RestoreBackup s id meta w)) h
  | run_delete w h id :
      Run s w h -> Run s (snd (Service_DeleteBackup s id w)) h
  | run_update_remark w h id r :
      Run s w h -> Run s (snd (Service_UpdateRemark s id r w)) h
  | run_target w h f :
      Run s w h -> Run s (on_fs (set_target f) w) h
  | run_faults w h fl :
      Run s w h -> Run s (set_faults fl w) h.

(** Every entry of the index has its backup file, holding the bytes the
    entry captured, and no two entries share a file name. *)
Definition BackupsInv (s : Service) (w : World) (h : gmap string (list byte)) : Prop :=
  NoDup (Filename <$> Items (loaded (store s) (fs w)))
  /\ forall E, E ∈ Items (loaded (store s) (fs w)) ->
       exists data, h !! ID E = Some data
                    /\ backups (fs w) !! Filename E = Some data.

(** An error leaves the files as they were. *)
Definition unchanged (d : FS) : error -> FS -> Prop := fun _ d' => d' = d.

(** The entry of [sampleWorld1]. *)
Definition sampleEntry1 : BackupItem :=
  {| ID := "0b2f6c1e-0001";
     Filename := "20250918-000001_e16a717c1e42.json";
     ContentHash := "e16a717c1e4269239bda47d51630758b8ab40867b6d3a2e5f1a23f8e5bb0a8e1";
     FileFingerprint := "2eb735e5ddcdaf13";
     Size := 11;
     CreatedAt := 63893750401000000000;
     Remark := "x";
     IsAuto := false;
     SourcePath := "/home/u/.codex/auth.json";
     LastModified := 63893750400000000000 |}.

(** [sampleWorld1] after a [touch] of the target file. *)
Definition sampleWorldTouched : World :=
  on_fs (set_target (Some sampleFileTouched)) sampleWorld1.

(** What the file system gives the target file when it is restored. *)
Definition sampleMeta : FileMeta :=
  {| meta_ModTime := 63893750600000000000; meta_Inode := 43; meta_Dev := 7 |}.

(** The entry the second scan of the sample run creates. *)
Definition sampleEntry2 : BackupItem :=
  {| ID := "0b2f6c1e-0002";
     Filename := "20250918-000101_38461323b18a.json";
     ContentHash := "38461323b18af64e0faee0530ed620b4d21760fd624227b7456c2e38be2c1e51";
     FileFingerprint := "2bf9494936162405";
     Size := 10;
     CreatedAt := 63893750461000000000;
     Remark := "auto-20250918-000101";
     IsAuto := true;
     SourcePath := "/home/u/.codex/auth.json";
     LastModified := 63893750460000000000 |}.

Definition sampleResult1 : result ScanResult :=
  Ok {| Created := true; Item := Some sampleEntry1; Reason := "" |}.

Definition sampleResult2 : result ScanResult :=
  Ok {| Created := true; Item := Some sampleEntry2; Reason := "" |}.

(** The record of captured bytes after the two backups of the sample
    run. *)
Definition sampleCaptured : gmap string (list byte) :=
  captured sampleEnv2 sampleWorld2 sampleResult2
    (captured sampleEnv1 sampleWorld0 sampleResult1 ∅).

(** An entry that asks for the label of [sampleEntry1]. *)
Definition sampleClash : BackupItem :=
  {| ID := "0b2f6c1e-0009";
     Filename := "20250918-000301_38461323b18a.json";
     ContentHash := "38461323b18af64e0faee0530ed620b4d21760fd624227b7456c2e38be2c1e51";
     FileFingerprint := "2bf9494936162405";
     Size := 10;
     CreatedAt := 63893750581000000000;
     Remark := "x";
     IsAuto := false;
     SourcePath := "/home/u/.codex/auth.json";
     LastModified := 63893750460000000000 |}.

(** Entries that [AddBackup] accepts and no scan creates: one without
    id, one created at the zero time, one created a second before it. *)
Definition sampleEntryNoId : BackupItem :=
  {| ID := "";
     Filename := "20250918-000201_aaaaaaaaaaaa.json";
     ContentHash := "aaaaaaaaaaaa";
     FileFingerprint := "1111111111111111";
     Size := 3;
     CreatedAt := 63893750521000000000;
     Remark := "";
     IsAuto := true;
     SourcePath := "/home/u/.codex/auth.json";
     LastModified := 63893750520000000000 |}.

Definition sampleEntryZeroTime : BackupItem :=
  {| ID := "0b2f6c1e-0007";
     Filename := "00010101-000000_bbbbbbbbbbbb.json";
     ContentHash := "bbbbbbbbbbbb";
     FileFingerprint := "2222222222222222";
     Size := 3;
     CreatedAt := 0;
     Remark := "";
     IsAuto := true;
     SourcePath := "/home/u/.codex/auth.json";
     LastModified := 0 |}.

Definition sampleEntryYearZero : BackupItem :=
  {| ID := "0b2f6c1e-0008";
     Filename := "00001231-235959_cccccccccccc.json";
     ContentHash := "cccccccccccc";
     FileFingerprint := "3333333333333333";
     Size := 3;
     CreatedAt := -1000000000;
     Remark := "";
     IsAuto := true;
     SourcePath := "/home/u/.codex/auth.json";
     LastModified := -1000000000 |}.

(** The target file rewritten once more, and what a third scan takes
    from its environment, in the same second as the second one. *)
Definition sampleFileThird : File :=
  {| file_ModTime := 63893750461000000000; file_Inode := 42; file_Dev := 7;
     file_data := bytes_of "token-gamma" |}.

Definition sampleEnv3 : ScanEnv :=
  {| env_remarkNow := {| instant := 63893750461000000000; stamp := "20250918-000101" |};
     env_now := {| instant := 63893750461000000000; stamp := "20250918-000101" |};
     env_uuid := "0b2f6c1e-0003" |}.

(** *** File names and labels tried in order *)

(** The [k]-th name [EnsureUniqueFilename] tries: the name itself, then
    the name with [-1], [-2], ... before its [.json]. *)
Definition fileCandidate (base : string) (k : Z) : string :=
  if decide (k = 0) then base
  else TrimSuffix base ".json" +:+ "-" +:+ FormatInt k +:+ ".json".

(** The entry a scan builds for the file [f] of the target path, under
    the file name and the label it has chosen. *)
Definition newEntry (s : Service) (isAuto : bool) (env : ScanEnv) (f : File)
    (filename label : string) : BackupItem :=
  {| ID := env_uuid env;
     Filename := filename;
     ContentHash := contentHashOf f;
     FileFingerprint := fingerprintOf (statOf f);
     Size := Z.of_nat (List.length (file_data f));
     CreatedAt := instant (env_now env);
     Remark := label;
     IsAuto := isAuto;
     SourcePath := Config.TargetPath (cfg s);
     LastModified := file_ModTime f |}.

(** The files after a scan has stored [item] for the target file [f]. *)
Definition withBackup (s : Service) (item : BackupItem) (f : File) (d : FS) : FS :=
  set_index
    (Some (withEntry item (fingerprintOf (statOf f)) (loaded (store s) d)))
    (set_backups (<[Filename item := file_data f]> (backups d)) d).

(** The label [prepareRemark] starts from when none was supplied. *)
Definition baseLabel (isAuto : bool) (now : Clock) : string :=
  (if isAuto then "auto-" else "manual-") +:+ stamp now.

(** Every entry records the digest and the size of the bytes it
    captured, and no two entries share a digest. *)
Definition DigestInv (s : Service) (w : World) (h : gmap string (list byte)) : Prop :=
  NoDup (ContentHash <$> Items (loaded (store s) (fs w)))
  /\ forall E, E ∈ Items (loaded (store s) (fs w)) ->
       exists data, h !! ID E = Some data
         /\ ContentHash E = EncodeToString (Sha256.Sum256 data)
         /\ Size E = Z.of_nat (List.length data).

(** ** store.go: lookup by content digest *)

Definition Store_FindByContentHash (s : Store) (hash : string)
  : M (option BackupItem) :=
  idx <-- Snapshot s ;;
  ret (findByContentHash (Items idx) hash).


Fixpoint allChars (p : ascii -> bool) (s : string) : bool :=
  match s with
  | EmptyString => true
  | String c r => p c && allChars p r
  end.

(** The bytes a path element may hold: no slash, no backslash (byte 92)
    and no NUL. *)
Definition isNameChar (c : ascii) : bool :=
  negb (Ascii.eqb c "/") && negb (Ascii.eqb c "092") && negb (Ascii.eqb c "000").

(** A single path element: neither empty nor [.] nor [..].
    [filepath.Join] appends such a name to the directory as it is, so
    that [os.Stat] on the joined path asks for the file of that name in
    the directory. *)
Definition pathElement (name : string) : bool :=
  negb (String.eqb name "") && negb (String.eqb name ".")
  && negb (String.eqb name "..") && allChars isNameChar name.

(** A plain file name: a path element short enough for the numbered
    candidates made from it to stay within the 255 bytes of a file
    name. *)
Definition plainName (name : string) : bool :=
  pathElement name && (String.length name <=? 200)%nat.


(** ** api/handlers.go: the status of a failed request *)

Definition StatusConflict : Z := 409.
Definition StatusNotFound : Z := 404.
Definition StatusInternalServerError : Z := 500.

Section Api.

(** The text of an error, [err.Error()]; the texts of the errors of the
    operating system are not modelled. *)
Variable Error : error -> string.

Definition mapServiceError (err : error) : Z * string :=
  if errors_Is err ErrRemarkExists then (StatusConflict, "备注已存在")
  else if errors_Is err ErrBackupNotFound then (StatusNotFound, "备份不存在")
  else (StatusInternalServerError, Error err).

End Api.

(** The errors that are neither of the two that [mapServiceError] tells
    apart. *)
Definition isOtherError (e : error) : bool :=
  negb (errors_Is e ErrRemarkExists) && negb (errors_Is e ErrBackupNotFound).

(** ** config.go and util.ExpandPath *)

(** The file [config.json]; [int] has sixty-four bits. *)
Module FileConfig.
Record t := mk {
  CodexDir : string;
  CodexFile : string;
  DataDir : string;
  HTTPPort : string;
  ScanInterval : Z;
  AutoOpenBrowser : option bool
}.
End FileConfig.

Definition defaultFileConfig : FileConfig.t :=
  FileConfig.mk "~/.codex" "auth.json" "./data" "8080" 60 None.

(** The fields of [core.Config] besides the four paths that [Config]
    holds; a [time.Duration] is a number of nanoseconds in sixty-four
    bits. *)
Module Settings.
Record t := mk {
  ScanInterval : Z;
  Port : string;
  AutoOpenBrowser : bool
}.
End Settings.

(** [time.Second]. *)
Definition Second : Z := 1000000000.

Section Paths.

(** What the environment answers: [os.UserHomeDir()], [filepath.Join]
    and [filepath.Abs] (which reads the working directory). *)
Variable UserHomeDir : result string.
Variable Join : string -> string -> string.
Variable Abs : string -> result string.

Definition ExpandPath (p : string) : result string :=
  if decide (p = "") then Err (ErrNew "path is empty")
  else
    let expanded :=
      if String.prefix "~" p then
        match UserHomeDir with
        | Err e => Err (ErrWrap "get user home" e)
        | Ok home =>
            if decide (p = "~") then Ok home
            else if String.prefix "~/" p
                 then Ok (Join home (String.substring 2 (String.length p - 2) p))
                 else Err (ErrNew ("unsupported path expansion: " +:+ p))
        end
      else Ok p in
    match expanded with
    | Err e => Err e
    | Ok p' =>
        match Abs p' with
        | Err e => Err (ErrWrap "abs path" e)
        | Ok abs => Ok abs
        end
    end.

Definition buildConfig (raw : FileConfig.t) : result (Config.t * Settings.t) :=
  match ExpandPath (FileConfig.CodexDir raw) with
  | Err e => Err (ErrWrap "解析 codex_dir" e)
  | Ok codexDir =>
  match ExpandPath (FileConfig.DataDir raw) with
  | Err e => Err (ErrWrap "解析 data_dir" e)
  | Ok dataDir =>
      let scanInterval :=
        if FileConfig.ScanInterval raw <=? 0 then 60 else FileConfig.ScanInterval raw in
      let autoOpen :=
        match FileConfig.AutoOpenBrowser raw with Some b => b | None => true end in
      Ok (Config.mk (Join codexDir (FileConfig.CodexFile raw)) dataDir
            (Join dataDir "backups") (Join dataDir "index.json"),
          Settings.mk (wrap64 (scanInterval * Second))
            (if decide (FileConfig.HTTPPort raw = "") then "8080"
             else FileConfig.HTTPPort raw)
            autoOpen)
  end end.

End Paths.

(** ** service.go: the status of the target file *)

Module StatusInfo.
Record t := mk {
  Exists : bool;
  Size : Z;
  ModTime : string;
  Fingerprint : string;
  ContentHash : string;
  ContentHashShort : string;
  LatestFingerprint : string;
  TargetPath : string;
  ScanIntervalSeconds : Z;
  AutoOpenBrowser : bool
}.
End StatusInfo.

Section Status.

(** [t.Format(time.RFC3339)], in the local zone. *)
Variable RFC3339 : Time -> string.

Definition Status (s : Service) (st : Settings.t) : M StatusInfo.t :=
  fun w =>
  match Snapshot (store s) w with
  | (Err e, w1) => (Err e, w1)
  | (Ok idx, w1) =>
  let latest := LatestFingerprint idx in
  let path := Config.TargetPath (cfg s) in
  let seconds := Z.quot (Settings.ScanInterval st) Second in
  let auto := Settings.AutoOpenBrowser st in
  match ComputeFingerprint w1 with
  | (Err e, w2) =>
      if IsNotExist e
      then (Ok (StatusInfo.mk false 0 "" "" "" "" latest path seconds auto), w2)
      else (Err (ErrWrap "fingerprint" e), w2)
  | (Ok fingerprintRes, w2) =>
  match ComputeContentHash w2 with
  | (Err e, w3) => (Err (ErrWrap "content hash" e), w3)
  | (Ok (contentHash, _), w3) =>
      (Ok (StatusInfo.mk true
             (FileStat.Size (Stat fingerprintRes))
             (RFC3339 (FileStat.ModTime (Stat fingerprintRes)))
             (Fingerprint fingerprintRes)
             contentHash (ShortHash contentHash)
             latest path seconds auto),
       w3)
  end end end.

End Status.

(** The text [ComputeFingerprint] hashes: ["size|mtime|inode|dev"]. *)
Definition fingerprintSeed (st : FileStat.t) : string :=
  FormatInt (FileStat.Size st) +:+ "|" +:+ FormatInt (UnixNano (FileStat.ModTime st))
  +:+ "|" +:+ FormatInt (FileStat.Inode st) +:+ "|" +:+ FormatInt (FileStat.Dev st).

Definition notBar (c : ascii) : bool := negb (Ascii.eqb c "|").

(** * Properties *)

(** ** Sample evaluations of the library models *)

Example sha256_constants :
  List.firstn 2 Sha256.K = [0x428a2f98; 0x71374491]
  /\ List.last Sha256.K 0 = 0xc67178f2
  /\ List.firstn 2 Sha256.H0 = [0x6a09e667; 0xbb67ae85]
  /\ List.last Sha256.H0 0 = 0x5be0cd19.
Proof. vm_compute. auto. Qed.

Example sha256_abc :
  EncodeToString (Sha256.Sum256 (bytes_of "abc"))
  = "ba7816bf8f01cfea414140de5dae2223b00361a396177a9cb410ff61f20015ad".
Proof. vm_compute. reflexivity. Qed.

Example sha256_empty :
  EncodeToString (Sha256.Sum256 [])
  = "e3b0c44298fc1c149afbf4c8996fb92427ae41e4649b934ca495991b7852b855".
Proof. vm_compute. reflexivity. Qed.

Example sha256_two_blocks :
  EncodeToString (Sha256.Sum256 (List.repeat "a"%byte 100))
  = "2816597888e4a0d3a36b82b83316ab32680eb8f00f8cd3b904d681246d285a0e".
Proof. vm_compute. reflexivity. Qed.

Example FormatInt_samples :
  FormatInt 0 = "0" /\ FormatInt 42 = "42" /\ FormatInt (-7) = "-7".
Proof. vm_compute. auto. Qed.

Example TrimSpace_samples :
  TrimSpace "  my label " = "my label"
  /\ TrimSpace (String "009" (String "010" " ")) = ""
  /\ TrimSpace (String "194" (String "160" "x")) = "x"
  /\ TrimSpace "" = "".
Proof. vm_compute. auto. Qed.

Example TrimSuffix_samples :
  TrimSuffix "20250917-153012_a1b2c3.json" ".json" = "20250917-153012_a1b2c3"
  /\ TrimSuffix "abc" ".json" = "abc".
Proof. vm_compute. auto. Qed.

(** ** System calls and the failure schedule *)

Lemma isIOError_not_conflict e :
  isIOError e = true -> errors_Is e ErrRemarkExists = false.
Proof.
  induction e; simpl; try discriminate; auto.
Qed.

Lemma isIOError_not_notfound e :
  isIOError e = true -> errors_Is e ErrBackupNotFound = false.
Proof.
  induction e; simpl; try discriminate; auto.
Qed.

Lemma fault_nil w : faults w = [] -> fault w = (false, w).
Proof. unfold fault. intros ->. reflexivity. Qed.

Lemma fault_fs w : fs (snd (fault w)) = fs w.
Proof. unfold fault. destruct (faults w); reflexivity. Qed.

Lemma outcome_ret {A} (a : A) d (post : A -> FS -> Prop) exc :
  post a d -> outcome (ret a) d post exc.
Proof. intros H w <-. exact H. Qed.

Lemma outcome_fail {A} e d (post : A -> FS -> Prop) (exc : error -> FS -> Prop) :
  exc e d -> outcome (@fail A e) d post exc.
Proof. intros H w <-. exact H. Qed.

Lemma outcome_bind {A B} (m : M A) (k : A -> M B) d
    (mid : A -> FS -> Prop) (post : B -> FS -> Prop) exc :
  outcome m d mid exc ->
  (forall a d', mid a d' -> outcome (k a) d' post exc) ->
  outcome (bind m k) d post exc.
Proof.
  intros Hm Hk w Hw. unfold bind. specialize (Hm w Hw).
  destruct (m w) as [[a|e] w']; [|exact Hm].
  exact (Hk a (fs w') Hm w' eq_refl).
Qed.

Lemma outcome_weaken {A} (m : M A) d (post post' : A -> FS -> Prop)
    (exc exc' : error -> FS -> Prop) :
  outcome m d post exc ->
  (forall a d', post a d' -> post' a d') ->
  (forall e d', exc e d' -> exc' e d') ->
  outcome m d post' exc'.
Proof.
  intros Hm Hp He w Hw. specialize (Hm w Hw).
  destruct (m w) as [[a|e] w']; auto.
Qed.

Lemma outcome_wrapping {A} msg (m : M A) d (post : A -> FS -> Prop) :
  outcome m d post (ioFailure d) ->
  outcome (wrapping msg m) d post (ioFailure d).
Proof.
  intros Hm w Hw. unfold wrapping. specialize (Hm w Hw).
  destruct (m w) as [[a|e] w']; [exact Hm|].
  destruct Hm as [Hio ->]. split; [exact Hio|reflexivity].
Qed.

Lemma outcome_syscall op d :
  outcome (syscall (ErrOS op)) d (fun _ d' => d' = d) (ioFailure d).
Proof.
  intros w Hw. unfold syscall.
  pose proof (fault_fs w) as Hf. destruct (fault w) as [[] w']; simpl in Hf.
  - split; [reflexivity|congruence].
  - congruence.
Qed.

Lemma outcome_MkdirAll d :
  outcome MkdirAll d (fun _ d' => d' = d) (ioFailure d).
Proof. apply outcome_syscall. Qed.

Lemma outcome_writeTemp chmod d :
  outcome (writeTemp chmod) d (fun _ d' => d' = d) (ioFailure d).
Proof.
  unfold writeTemp.
  repeat (eapply outcome_bind;
          [apply outcome_wrapping; first [apply outcome_MkdirAll | apply outcome_syscall]
          | cbn beta; intros _ ? ->]).
  eapply outcome_bind.
  - destruct chmod.
    + apply outcome_wrapping, outcome_syscall.
    + apply outcome_ret. reflexivity.
  - cbn beta. intros _ ? ->. apply outcome_wrapping, outcome_syscall.
Qed.

Lemma outcome_rename commit d :
  outcome (rename commit) d (fun _ d' => d' = commit d) (ioFailure d).
Proof.
  intros w Hw. unfold rename.
  pose proof (fault_fs w) as Hf. destruct (fault w) as [[] w']; simpl in Hf.
  - split; [reflexivity|congruence].
  - simpl. congruence.
Qed.

Lemma outcome_AtomicWriteJSON idx d :
  outcome (AtomicWriteJSON idx) d
    (fun _ d' => d' = set_index (Some idx) d) (ioFailure d).
Proof.
  unfold AtomicWriteJSON. eapply outcome_bind; [apply outcome_writeTemp|].
  cbn beta. intros _ ? ->. apply outcome_rename.
Qed.

Lemma outcome_loadIndexUnlocked s d :
  outcome (loadIndexUnlocked s) d
    (fun idx d' => idx = loaded s d /\ d' = d) (ioFailure d).
Proof.
  unfold loadIndexUnlocked. eapply outcome_bind.
  - apply outcome_wrapping.
    instantiate (1 := fun o d' => o = index d /\ d' = d).
    intros w Hw. unfold ReadFileIfExists_index.
    pose proof (fault_fs w) as Hf. destruct (fault w) as [[] w']; simpl in Hf.
    + split; [reflexivity|congruence].
    + split; congruence.
  - cbn beta. intros o ? [-> ->]. apply outcome_ret. split; reflexivity.
Qed.

Lemma outcome_WithFileLock {A} (fn : M A) d (post : A -> FS -> Prop)
    (exc : error -> FS -> Prop) :
  (forall e, isIOError e = true -> exc e d) ->
  outcome fn d post exc ->
  outcome (WithFileLock fn) d post exc.
Proof.
  intros Hexc Hfn. unfold WithFileLock.
  repeat (eapply outcome_bind;
          [eapply outcome_weaken;
           [apply outcome_wrapping; first [apply outcome_MkdirAll | apply outcome_syscall]
           | intros ? ? Hp; exact Hp
           | intros e ? [Hio ->]; exact (Hexc e Hio)]
          | cbn beta; intros _ ? ->]).
  exact Hfn.
Qed.

(** Every way [update] can end: the mutator's error or a failed system
    call, with the files as they were; or the mutated index, with
    defaults filled in, written to the index file and nothing else
    changed. *)
Lemma outcome_update {X} s (mutator : Mutator X) d :
  outcome (update s mutator) d
    (fun r d' =>
       exists idx', mutator (loaded s d) = (fst r, idx', None)
         /\ snd r = ensureDefaults (targetPath s) idx'
         /\ d' = set_index (Some (snd r)) d)
    (fun e d' =>
       d' = d /\
       (isIOError e = true \/ exists x idx', mutator (loaded s d) = (x, idx', Some e))).
Proof.
  unfold update. apply outcome_WithFileLock.
  { intros e He. split; [reflexivity|left; exact He]. }
  eapply outcome_bind.
  - eapply outcome_weaken; [apply outcome_loadIndexUnlocked| |].
    + intros a d' H. exact H.
    + intros e d' [Hio ->]. split; [reflexivity|left; exact Hio].
  - cbn beta. intros idx ? [-> ->].
    destruct (mutator (loaded s d)) as [[x idx'] [e|]] eqn:Hm.
    + apply outcome_fail. split; [reflexivity|]. right. eauto.
    + eapply outcome_bind.
      * eapply outcome_weaken; [apply outcome_AtomicWriteJSON| |].
        -- intros a d' H. exact H.
        -- intros e d' [Hio ->]. split; [reflexivity|left; exact Hio].
      * cbn beta. intros _ ? ->. apply outcome_ret. simpl. eauto.
Qed.

(** ** Runs in which no system call fails *)

Lemma syscall_nil e w : faults w = [] -> syscall e w = (Ok tt, w).
Proof. intros H. unfold syscall. rewrite (fault_nil w H). reflexivity. Qed.

Lemma MkdirAll_nil w : faults w = [] -> MkdirAll w = (Ok tt, w).
Proof. apply syscall_nil. Qed.

Lemma writeTemp_nil chmod w : faults w = [] -> writeTemp chmod w = (Ok tt, w).
Proof.
  intros H. unfold writeTemp, bind, wrapping, MkdirAll.
  rewrite !(syscall_nil _ w H). destruct chmod; unfold ret;
    rewrite ?(syscall_nil _ w H); reflexivity.
Qed.

Lemma rename_nil commit w :
  faults w = [] -> rename commit w = (Ok tt, on_fs commit w).
Proof. intros H. unfold rename. rewrite (fault_nil w H). reflexivity. Qed.

Lemma AtomicWriteJSON_nil idx w :
  faults w = [] ->
  AtomicWriteJSON idx w = (Ok tt, on_fs (set_index (Some idx)) w).
Proof.
  intros H. unfold AtomicWriteJSON, bind. rewrite (writeTemp_nil _ w H).
  apply rename_nil, H.
Qed.

Lemma AtomicWriteFile_target_nil meta data w :
  faults w = [] ->
  AtomicWriteFile_target meta data w
  = (Ok tt, on_fs (set_target (Some (mkFile meta data))) w).
Proof.
  intros H. unfold AtomicWriteFile_target, bind. rewrite (writeTemp_nil _ w H).
  apply rename_nil, H.
Qed.

Lemma AtomicWriteFile_backup_nil name data w :
  faults w = [] ->
  AtomicWriteFile_backup name data w
  = (Ok tt, on_fs (fun d => set_backups (<[name := data]> (backups d)) d) w).
Proof.
  intros H. unfold AtomicWriteFile_backup, bind. rewrite (writeTemp_nil _ w H).
  apply rename_nil, H.
Qed.

Lemma loadIndexUnlocked_nil s w :
  faults w = [] -> loadIndexUnlocked s w = (Ok (loaded s (fs w)), w).
Proof.
  intros H. unfold loadIndexUnlocked, bind, wrapping, ReadFileIfExists_index.
  rewrite (fault_nil w H). reflexivity.
Qed.

Lemma WithFileLock_nil {A} (fn : M A) w :
  faults w = [] -> WithFileLock fn w = fn w.
Proof.
  intros H. unfold WithFileLock, bind, wrapping, MkdirAll.
  rewrite !(syscall_nil _ w H). reflexivity.
Qed.

Lemma update_nil {X} s (mutator : Mutator X) w :
  faults w = [] ->
  update s mutator w =
  match mutator (loaded s (fs w)) with
  | (_, _, Some e) => (Err e, w)
  | (x, idx', None) =>
      (Ok (x, ensureDefaults (targetPath s) idx'),
       on_fs (set_index (Some (ensureDefaults (targetPath s) idx'))) w)
  end.
Proof.
  intros H. unfold update. rewrite (WithFileLock_nil _ w H). unfold bind.
  rewrite (loadIndexUnlocked_nil s w H).
  destruct (mutator (loaded s (fs w))) as [[x idx'] [e|]]; [reflexivity|].
  rewrite (AtomicWriteJSON_nil _ w H). reflexivity.
Qed.

Lemma Stat_target_nil w :
  faults w = [] ->
  Stat_target w =
  match target (fs w) with
  | None => (Err ErrNotExist, w)
  | Some f =>
      (Ok (FileStat.mk (Z.of_nat (List.length (file_data f)))
             (file_ModTime f) (file_Inode f) (file_Dev f)), w)
  end.
Proof. intros H. unfold Stat_target. rewrite (fault_nil w H). reflexivity. Qed.

Lemma ComputeFingerprint_nil w :
  faults w = [] ->
  ComputeFingerprint w =
  match target (fs w) with
  | None => (Err ErrNotExist, w)
  | Some f => (Ok {| Stat := statOf f; Fingerprint := fingerprintOf (statOf f) |}, w)
  end.
Proof.
  intros H. unfold ComputeFingerprint, bind. rewrite (Stat_target_nil w H).
  destruct (target (fs w)); reflexivity.
Qed.

(** ** The content hasher *)

Lemma teeReadAll_blocks (chunks : list (list byte)) sum buf :
  teeReadAll (List.map ReadBytes chunks) sum buf
  = Some (buf ++ List.concat chunks,
          {| written := written sum ++ List.concat chunks |}).
Proof.
  revert sum buf. induction chunks as [|p chunks IH]; intros sum buf; simpl.
  - rewrite !app_nil_r. destruct sum; reflexivity.
  - rewrite IH. simpl. rewrite <- !app_assoc. reflexivity.
Qed.

Lemma teeReadAll_inv steps : forall sum buf data sum',
  teeReadAll steps sum buf = Some (data, sum') ->
  exists chunks, steps = List.map ReadBytes chunks
    /\ data = buf ++ List.concat chunks
    /\ written sum' = written sum ++ List.concat chunks.
Proof.
  induction steps as [|[p|] steps IH]; intros sum buf data sum' H; simpl in H.
  - injection H as <- <-. exists []. simpl. rewrite !app_nil_r. auto.
  - destruct (IH _ _ _ _ H) as (chunks & -> & -> & Hw).
    exists (p :: chunks). simpl in *. rewrite Hw, <- !app_assoc. auto.
  - discriminate.
Qed.

Lemma blocksOf_concat n : (0 < n)%nat -> forall fuel data,
  (List.length data <= fuel)%nat -> List.concat (blocksOf fuel n data) = data.
Proof.
  intros Hn. induction fuel as [|fuel IH]; intros data Hlen.
  - destruct data; [reflexivity|simpl in Hlen; lia].
  - destruct data as [|b data]; [reflexivity|].
    cbn [blocksOf List.concat]. rewrite IH.
    + apply List.firstn_skipn.
    + rewrite List.length_skipn. simpl in *. lia.
Qed.

Lemma hashStream_blocks (chunks : list (list byte)) :
  hashStream (List.map ReadBytes chunks)
  = Ok (EncodeToString (Sha256.Sum256 (List.concat chunks)), List.concat chunks).
Proof. unfold hashStream. rewrite teeReadAll_blocks. reflexivity. Qed.

Lemma ComputeContentHash_nil w :
  faults w = [] ->
  ComputeContentHash w =
  match target (fs w) with
  | None => (Err ErrNotExist, w)
  | Some f =>
      (Ok (EncodeToString (Sha256.Sum256 (file_data f)), file_data f), w)
  end.
Proof.
  intros H. unfold ComputeContentHash, bind, Open_target.
  rewrite (fault_nil w H). destruct (target (fs w)) as [f|]; [|reflexivity].
  rewrite (fault_nil w H), hashStream_blocks, blocksOf_concat by lia.
  reflexivity.
Qed.

Lemma outcome_Stat_target d :
  outcome Stat_target d
    (fun st d' => exists f, target d = Some f /\ st = statOf f /\ d' = d)
    (fun e d' => d' = d /\
       (isIOError e = true \/ (e = ErrNotExist /\ target d = None))).
Proof.
  intros w Hw. unfold Stat_target.
  pose proof (fault_fs w) as Hf. destruct (fault w) as [[] w']; simpl in Hf.
  - split; [congruence|left; reflexivity].
  - rewrite Hf, Hw. destruct (target d) as [f|] eqn:Ht.
    + exists f. rewrite <- Hw, <- Hf. auto.
    + split; [congruence|right; auto].
Qed.

Lemma outcome_ComputeFingerprint d :
  outcome ComputeFingerprint d
    (fun res d' => exists f, target d = Some f
       /\ res = {| Stat := statOf f; Fingerprint := fingerprintOf (statOf f) |}
       /\ d' = d)
    (fun e d' => d' = d /\
       (isIOError e = true \/ (e = ErrNotExist /\ target d = None))).
Proof.
  unfold ComputeFingerprint. eapply outcome_bind; [apply outcome_Stat_target|].
  cbn beta. intros st ? (f & Ht & -> & ->). apply outcome_ret. eauto.
Qed.

Lemma outcome_ComputeContentHash d :
  outcome ComputeContentHash d
    (fun r d' => exists f, target d = Some f
       /\ r = (EncodeToString (Sha256.Sum256 (file_data f)), file_data f)
       /\ d' = d)
    (fun e d' => d' = d /\
       (isIOError e = true \/ (e = ErrNotExist /\ target d = None))).
Proof.
  intros w Hw. unfold ComputeContentHash, bind, Open_target.
  pose proof (fault_fs w) as Hf. destruct (fault w) as [[] w1]; simpl in Hf.
  - split; [congruence|left; reflexivity].
  - rewrite Hf, Hw. destruct (target d) as [f|] eqn:Ht.
    + pose proof (fault_fs w1) as Hf1.
      destruct (fault w1) as [[] w2]; simpl in Hf1.
      * simpl. split; [congruence|left; reflexivity].
      * rewrite hashStream_blocks, blocksOf_concat by lia.
        exists f. repeat split; congruence.
    + split; [congruence|right; auto].
Qed.

(** C9. [ComputeContentHash] reads the file once: every block a [Read]
    delivers goes both to the hasher and to the returned buffer. Whenever
    it returns, the returned bytes are the blocks read, in order, and the
    returned digest is the hex encoding of the SHA-256 of exactly those
    bytes; it does return whenever no read fails, whatever the sizes of the
    blocks; and "sha256" is the algorithm name the index declares by
    default. *)
Theorem content_hash_matches_returned_bytes :
  (forall steps hash data,
      hashStream steps = Ok (hash, data) ->
      exists chunks, steps = List.map ReadBytes chunks
        /\ data = List.concat chunks
        /\ hash = EncodeToString (Sha256.Sum256 data))
  /\ (forall chunks,
        hashStream (List.map ReadBytes chunks)
        = Ok (EncodeToString (Sha256.Sum256 (List.concat chunks)),
              List.concat chunks))
  /\ (forall w f, faults w = [] -> target (fs w) = Some f ->
        ComputeContentHash w
        = (Ok (EncodeToString (Sha256.Sum256 (file_data f)), file_data f), w))
  /\ (forall target, HashAlgo (ensureDefaults target zeroIndex) = "sha256").
Proof.
  split; [|split; [|split]].
  - intros steps hash data H. unfold hashStream in H.
    destruct (teeReadAll steps sha256_New []) as [[data' sum]|] eqn:Ht;
      [|discriminate].
    injection H as <- <-.
    destruct (teeReadAll_inv _ _ _ _ _ Ht) as (chunks & -> & -> & Hw).
    exists chunks. simpl in *. unfold Hasher_Sum. rewrite Hw. auto.
  - apply hashStream_blocks.
  - intros w f Hn Ht. rewrite (ComputeContentHash_nil w Hn), Ht. reflexivity.
  - reflexivity.
Qed.

(** ** The update path of the store *)

Lemma update_mutator_error {X} (s : Store) (mutator : Mutator X)
    (w : World) (x : X) (idx' : IndexData) (e : error) :
  mutator (loaded s (fs w)) = (x, idx', Some e) ->
  fs (snd (update s mutator w)) = fs w
  /\ (exists e', fst (update s mutator w) = Err e'
        /\ (e' = e \/ isIOError e' = true))
  /\ (faults w = [] -> update s mutator w = (Err e, w)).
Proof.
  intros Hm.
  pose proof (outcome_update s mutator (fs w) w eq_refl) as H.
  assert (Hfs : fs (snd (update s mutator w)) = fs w
          /\ exists e', fst (update s mutator w) = Err e'
               /\ (e' = e \/ isIOError e' = true)).
  { destruct (update s mutator w) as [[r|e'] w']; simpl.
    - destruct H as (idx'' & Hm' & _). rewrite Hm in Hm'. discriminate.
    - destruct H as [-> [Hio|(x' & idx'' & Hm')]].
      + split; [reflexivity|]. exists e'. auto.
      + rewrite Hm in Hm'. injection Hm' as _ _ ->.
        split; [reflexivity|]. exists e'. auto. }
  destruct Hfs as [Hfs He]. split; [exact Hfs|]. split; [exact He|].
  intros Hn. rewrite (update_nil s mutator w Hn), Hm. reflexivity.
Qed.

(** C6. When the mutator handed to [update] returns an error, nothing is
    written: the files, and with them the index file, are exactly as
    before the call; the call returns an error, which is the mutator's
    error unless a system call failed first; and when no system call
    fails the call returns the mutator's error itself. *)
Theorem update_mutator_error_aborts {X} (s : Store) (mutator : Mutator X)
    (w : World) (x : X) (idx' : IndexData) (e : error) :
  mutator (loaded s (fs w)) = (x, idx', Some e) ->
  fs (snd (update s mutator w)) = fs w
  /\ index (fs (snd (update s mutator w))) = index (fs w)
  /\ (exists e', fst (update s mutator w) = Err e'
        /\ (e' = e \/ isIOError e' = true))
  /\ (faults w = [] -> update s mutator w = (Err e, w)).
Proof.
  intros Hm.
  destruct (update_mutator_error s mutator w x idx' e Hm) as (Hfs & He & Hn).
  split; [exact Hfs|]. split; [rewrite Hfs; reflexivity|]. split; assumption.
Qed.

(** ** Scans that end before the content is compared *)

Lemma isIOError_IsNotExist e : isIOError e = true -> IsNotExist e = false.
Proof. destruct e; simpl; congruence. Qed.

Lemma endsNotCreated_intro reason w r w' :
  fs w' = fs w ->
  (r = Ok (notCreated reason) \/ exists e, r = Err e /\ isIOError e = true) ->
  (faults w = [] -> r = Ok (notCreated reason)) ->
  endsNotCreated reason w (Some (r, w')).
Proof.
  intros Hfs Hr Hn. exists r, w'. split; [reflexivity|].
  split; [exact Hfs|]. split; [rewrite Hfs; reflexivity|]. split.
  - destruct Hr as [->|Hr]; [left|right; exact Hr].
    exists (notCreated reason). repeat split.
  - intros Hf. rewrite (Hn Hf). exists (notCreated reason). repeat split.
Qed.

(** C4. A scan that finds no target file ends with "target missing", and
    a scan whose fast signature equals the recorded latest one ends with
    "unchanged" (in the words of service.go, two different texts): the
    result reports nothing created, no entry, and that reason; in both
    cases the persisted index, like every other file, is exactly as
    before. *)
Theorem scan_missing_or_unchanged (fuel : nat) (s : Service) (isAuto : bool)
    (remark : option string) (env : ScanEnv) (w : World) :
  (target (fs w) = None ->
   endsNotCreated reasonTargetMissing w (Scan fuel s isAuto remark env w))
  /\ (forall f, target (fs w) = Some f ->
        LatestFingerprint (loaded (store s) (fs w)) = fingerprintOf (statOf f) ->
        endsNotCreated reasonUnchanged w (Scan fuel s isAuto remark env w))
  /\ reasonTargetMissing = "目标文件不存在"
  /\ reasonUnchanged = "文件未变更"
  /\ reasonTargetMissing <> reasonUnchanged.
Proof.
  split; [|split; [|split; [reflexivity|split; [reflexivity|]];
                    unfold reasonTargetMissing, reasonUnchanged; discriminate]].
  - intros Ht. unfold Scan, Snapshot.
    pose proof (outcome_loadIndexUnlocked (store s) (fs w) w eq_refl) as H1.
    pose proof (loadIndexUnlocked_nil (store s) w) as N1.
    destruct (loadIndexUnlocked (store s) w) as [[idx|e] w1].
    2:{ destruct H1 as [Hio Hfs].
        apply endsNotCreated_intro; [exact Hfs|right; eauto|].
        intros Hn. specialize (N1 Hn). discriminate. }
    destruct H1 as [-> Hfs].
    pose proof (outcome_ComputeFingerprint (fs w1) w1 eq_refl) as H2.
    pose proof (ComputeFingerprint_nil w1) as N2.
    destruct (ComputeFingerprint w1) as [[res|e] w2].
    { destruct H2 as (f & Hf & _). rewrite Hfs, Ht in Hf. discriminate. }
    destruct H2 as [Hfs2 [Hio|[-> _]]].
    + rewrite (isIOError_IsNotExist e Hio).
      apply endsNotCreated_intro; [congruence|right; eauto|].
      intros Hn. specialize (N1 Hn). assert (w1 = w) as -> by congruence.
      specialize (N2 Hn). rewrite Ht in N2.
      assert (e = ErrNotExist) as -> by congruence. discriminate Hio.
    + simpl. apply endsNotCreated_intro; [congruence|left; reflexivity|reflexivity].
  - intros f Ht Hfp. unfold Scan, Snapshot.
    pose proof (outcome_loadIndexUnlocked (store s) (fs w) w eq_refl) as H1.
    pose proof (loadIndexUnlocked_nil (store s) w) as N1.
    destruct (loadIndexUnlocked (store s) w) as [[idx|e] w1].
    2:{ destruct H1 as [Hio Hfs].
        apply endsNotCreated_intro; [exact Hfs|right; eauto|].
        intros Hn. specialize (N1 Hn). discriminate. }
    destruct H1 as [-> Hfs].
    pose proof (outcome_ComputeFingerprint (fs w1) w1 eq_refl) as H2.
    pose proof (ComputeFingerprint_nil w1) as N2.
    destruct (ComputeFingerprint w1) as [[res|e] w2].
    + destruct H2 as (f' & Hf & -> & Hfs2). rewrite Hfs, Ht in Hf.
      injection Hf as <-. cbn [Fingerprint].
      destruct (decide (LatestFingerprint (loaded (store s) (fs w))
                        = fingerprintOf (statOf f))) as [_|Hne];
        [|contradiction].
      apply endsNotCreated_intro; [congruence|left; reflexivity|reflexivity].
    + destruct H2 as [Hfs2 [Hio|[-> Hnone]]].
      * rewrite (isIOError_IsNotExist e Hio).
        apply endsNotCreated_intro; [congruence|right; eauto|].
        intros Hn. specialize (N1 Hn). assert (w1 = w) as -> by congruence.
        specialize (N2 Hn). rewrite Ht in N2. discriminate.
      * rewrite Hfs, Ht in Hnone. discriminate.
Qed.

(** ** Scans that find the content already backed up *)

Lemma ensureDefaults_idem t idx :
  ensureDefaults t (ensureDefaults t idx) = ensureDefaults t idx.
Proof.
  unfold ensureDefaults; simpl. f_equal.
  - destruct (decide (TargetPath idx = "")) as [H|H]; simpl.
    + destruct (decide (t = "")); reflexivity.
    + destruct (decide (TargetPath idx = "")); [contradiction|reflexivity].
  - destruct (decide (HashAlgo idx = "")) as [H|H]; simpl; [reflexivity|].
    destruct (decide (HashAlgo idx = "")); [contradiction|reflexivity].
Qed.

Lemma ensureDefaults_set_LatestFingerprint t fp idx :
  ensureDefaults t (set_LatestFingerprint fp (ensureDefaults t idx))
  = set_LatestFingerprint fp (ensureDefaults t idx).
Proof.
  transitivity (set_LatestFingerprint fp (ensureDefaults t (ensureDefaults t idx))).
  - reflexivity.
  - rewrite ensureDefaults_idem. reflexivity.
Qed.

Lemma findByContentHash_Some items hash :
  (exists E, E ∈ items /\ ContentHash E = hash) <->
  (exists E, findByContentHash items hash = Some E).
Proof.
  induction items as [|it items IH]; simpl.
  - split; intros [E H]; [destruct H as [H _]; inversion H|discriminate].
  - destruct (decide (ContentHash it = hash)) as [Heq|Hne].
    + split; intros _; [eauto|]. exists it. split; [left|exact Heq].
    + rewrite <- IH. split; intros (E & Hin & HE).
      * inversion Hin; subst; [contradiction|eauto].
      * exists E. split; [right; exact Hin|exact HE].
Qed.

Lemma outcome_UpdateLatestFingerprint s fp d :
  outcome (UpdateLatestFingerprint s fp) d
    (fun idx' d' =>
       idx' = set_LatestFingerprint fp (loaded s d)
       /\ d' = set_index (Some idx') d)
    (ioFailure d).
Proof.
  unfold UpdateLatestFingerprint. eapply outcome_bind.
  - eapply outcome_weaken; [apply outcome_update|intros a d' H; exact H|].
    intros e d' [-> [Hio|(x & idx' & Hm)]]; [split; auto|discriminate Hm].
  - cbn beta. intros [x idx'] d' (idx1 & Hm & Hs & Hd). simpl in *.
    injection Hm as _ <-. apply outcome_ret.
    unfold loaded in *. rewrite ensureDefaults_set_LatestFingerprint in Hs.
    subst idx'. split; [reflexivity|exact Hd].
Qed.

Lemma UpdateLatestFingerprint_nil s fp w :
  faults w = [] ->
  UpdateLatestFingerprint s fp w
  = (Ok (set_LatestFingerprint fp (loaded s (fs w))),
     on_fs (set_index (Some (set_LatestFingerprint fp (loaded s (fs w))))) w).
Proof.
  intros H. unfold UpdateLatestFingerprint, bind. rewrite (update_nil _ _ w H).
  unfold ret, loaded. simpl. rewrite ensureDefaults_set_LatestFingerprint.
  reflexivity.
Qed.

(** Every way a scan of content that is already backed up can end, in
    terms of the value [Scan] builds. *)
Lemma Scan_on_known_digest (fuel : nat) (s : Service) (isAuto : bool)
    (remark : option string) (env : ScanEnv) (w : World) (f : File)
    (E : BackupItem) :
  let idx := loaded (store s) (fs w) in
  let fingerprint := fingerprintOf (statOf f) in
  target (fs w) = Some f ->
  LatestFingerprint idx <> fingerprint ->
  E ∈ Items idx ->
  ContentHash E = EncodeToString (Sha256.Sum256 (file_data f)) ->
  exists r w',
    Scan fuel s isAuto remark env w = Some (r, w')
    /\ target (fs w') = target (fs w)
    /\ backups (fs w') = backups (fs w)
    /\ Items (loaded (store s) (fs w')) = Items idx
    /\ Remarks (loaded (store s) (fs w')) = Remarks idx
    /\ ((r = Ok (notCreated reasonDuplicateContent)
         /\ index (fs w') = Some (set_LatestFingerprint fingerprint idx)
         /\ LatestFingerprint (loaded (store s) (fs w')) = fingerprint)
        \/ (exists e, r = Err e /\ isIOError e = true /\ fs w' = fs w))
    /\ (faults w = [] -> r = Ok (notCreated reasonDuplicateContent)).
Proof.
  intros idx fingerprint Ht Hfp HE Hhash.
  assert (Hfind : exists E', findByContentHash (Items idx)
             (EncodeToString (Sha256.Sum256 (file_data f))) = Some E').
  { apply findByContentHash_Some. eauto. }
  destruct Hfind as [E' Hfind].
  assert (Hio : forall e w', isIOError e = true -> fs w' = fs w ->
            (faults w = [] -> False) ->
            exists r w'0, Some (Err e, w') = Some (r, w'0)
    /\ target (fs w'0) = target (fs w)
    /\ backups (fs w'0) = backups (fs w)
    /\ Items (loaded (store s) (fs w'0)) = Items idx
    /\ Remarks (loaded (store s) (fs w'0)) = Remarks idx
    /\ ((r = Ok (notCreated reasonDuplicateContent)
         /\ index (fs w'0) = Some (set_LatestFingerprint fingerprint idx)
         /\ LatestFingerprint (loaded (store s) (fs w'0)) = fingerprint)
        \/ (exists e, r = Err e /\ isIOError e = true /\ fs w'0 = fs w))
    /\ (faults w = [] -> r = Ok (notCreated reasonDuplicateContent))).
  { intros e w' He Hfs Hn. exists (Err e), w'. rewrite Hfs.
    split; [reflexivity|]. do 4 (split; [reflexivity|]).
    split; [right; eauto|]. intros H. destruct (Hn H). }
  unfold Scan, Snapshot.
  pose proof (outcome_loadIndexUnlocked (store s) (fs w) w eq_refl) as H1.
  pose proof (loadIndexUnlocked_nil (store s) w) as N1.
  destruct (loadIndexUnlocked (store s) w) as [[idx0|e] w1].
  2:{ destruct H1 as [He Hfs]. apply Hio; auto.
      intros Hn. specialize (N1 Hn). discriminate. }
  destruct H1 as [-> Hfs1].
  pose proof (outcome_ComputeFingerprint (fs w1) w1 eq_refl) as H2.
  pose proof (ComputeFingerprint_nil w1) as N2.
  destruct (ComputeFingerprint w1) as [[res|e] w2].
  2:{ destruct H2 as [Hfs2 [He|[-> Hnone]]].
      - rewrite (isIOError_IsNotExist e He). apply Hio; [exact He|congruence|].
        intros Hn. specialize (N1 Hn). assert (w1 = w) as -> by congruence.
        specialize (N2 Hn). rewrite Ht in N2. discriminate.
      - rewrite Hfs1, Ht in Hnone. discriminate. }
  destruct H2 as (f' & Hf & -> & Hfs2). rewrite Hfs1, Ht in Hf.
  injection Hf as <-. cbn [Fingerprint].
  fold idx. fold fingerprint.
  destruct (decide (LatestFingerprint idx = fingerprint)) as [Heq|_];
    [contradiction|].
  pose proof (outcome_ComputeContentHash (fs w2) w2 eq_refl) as H3.
  pose proof (ComputeContentHash_nil w2) as N3.
  destruct (ComputeContentHash w2) as [[[hash data]|e] w3].
  2:{ destruct H3 as [Hfs3 [He|[-> Hnone]]].
      - apply Hio; [exact He|congruence|].
        intros Hn. specialize (N1 Hn). assert (w1 = w) as -> by congruence.
        specialize (N2 Hn). rewrite Ht in N2. assert (w2 = w) as -> by congruence.
        specialize (N3 Hn). rewrite Ht in N3. discriminate.
      - rewrite Hfs2, Hfs1, Ht in Hnone. discriminate. }
  destruct H3 as (f' & Hf & Hr & Hfs3). rewrite Hfs2, Hfs1, Ht in Hf.
  injection Hf as <-. injection Hr as -> ->.
  rewrite Hfind.
  pose proof (outcome_UpdateLatestFingerprint (store s) fingerprint (fs w3) w3 eq_refl)
    as H4.
  pose proof (UpdateLatestFingerprint_nil (store s) fingerprint w3) as N4.
  assert (Hfs : fs w3 = fs w) by congruence.
  destruct (UpdateLatestFingerprint (store s) fingerprint w3) as [[idx'|e] w4].
  2:{ destruct H4 as [He Hfs4]. apply Hio; [exact He|congruence|].
      intros Hn. specialize (N1 Hn). assert (w1 = w) as -> by congruence.
      specialize (N2 Hn). rewrite Ht in N2. assert (w2 = w) as -> by congruence.
      specialize (N3 Hn). rewrite Ht in N3. assert (w3 = w) as -> by congruence.
      specialize (N4 Hn). discriminate. }
  destruct H4 as [-> Hfs4]. rewrite Hfs in Hfs4. fold idx in Hfs4.
  exists (Ok (notCreated reasonDuplicateContent)), w4.
  split; [reflexivity|]. rewrite Hfs4.
  assert (Hl : loaded (store s) (set_index (Some (set_LatestFingerprint fingerprint idx)) (fs w))
               = set_LatestFingerprint fingerprint idx).
  { unfold loaded at 1. simpl. apply ensureDefaults_set_LatestFingerprint. }
  rewrite Hl. simpl.
  do 4 (split; [reflexivity|]). split; [left; auto|]. reflexivity.
Qed.

(** C1. When the target file exists, its fast signature is not the
    recorded latest one, and an entry of the snapshot already carries the
    digest of its content, the scan returns a result that reports nothing
    created, no entry, and the reason service.go gives for duplicate
    content (a text of its own, different from the two other reasons);
    the index file then holds the same entries and labels with the latest
    signature set to the one just observed. Whatever happens, no entry is
    added and no file other than the index changes. *)
Theorem scan_duplicate_content (fuel : nat) (s : Service) (isAuto : bool)
    (remark : option string) (env : ScanEnv) (w : World) (f : File)
    (E : BackupItem) :
  let idx := loaded (store s) (fs w) in
  let fingerprint := fingerprintOf (statOf f) in
  target (fs w) = Some f ->
  LatestFingerprint idx <> fingerprint ->
  E ∈ Items idx ->
  ContentHash E = EncodeToString (Sha256.Sum256 (file_data f)) ->
  exists r w',
    Scan fuel s isAuto remark env w = Some (r, w')
    /\ target (fs w') = target (fs w)
    /\ backups (fs w') = backups (fs w)
    /\ Items (loaded (store s) (fs w')) = Items idx
    /\ Remarks (loaded (store s) (fs w')) = Remarks idx
    /\ (((exists sr, r = Ok sr
            /\ Created sr = false /\ Item sr = None
            /\ Reason sr = reasonDuplicateContent)
         /\ index (fs w') = Some (set_LatestFingerprint fingerprint idx)
         /\ LatestFingerprint (loaded (store s) (fs w')) = fingerprint)
        \/ (exists e, r = Err e /\ isIOError e = true /\ fs w' = fs w))
    /\ (faults w = [] ->
        exists sr, r = Ok sr
          /\ Created sr = false /\ Item sr = None
          /\ Reason sr = reasonDuplicateContent)
    /\ reasonDuplicateContent = "内容已存在备份"
    /\ reasonDuplicateContent <> reasonUnchanged
    /\ reasonDuplicateContent <> reasonTargetMissing.
Proof.
  intros idx fingerprint Ht Hfp HE Hhash.
  destruct (Scan_on_known_digest fuel s isAuto remark env w f E Ht Hfp HE Hhash)
    as (r & w' & Hscan & Htgt & Hb & Hitems & Hrem & Hcase & Hnil).
  assert (Hrep : exists sr, Ok (notCreated reasonDuplicateContent) = Ok sr
                   /\ Created sr = false /\ Item sr = None
                   /\ Reason sr = reasonDuplicateContent).
  { exists (notCreated reasonDuplicateContent). repeat split. }
  exists r, w'. split; [exact Hscan|]. split; [exact Htgt|]. split; [exact Hb|].
  split; [exact Hitems|]. split; [exact Hrem|]. split.
  - destruct Hcase as [(-> & Hidx & Hl)|He]; [left|right; exact He].
    split; [exact Hrep|]. split; [exact Hidx|exact Hl].
  - split; [intros Hn; rewrite (Hnil Hn); exact Hrep|].
    split; [reflexivity|].
    split; unfold reasonDuplicateContent, reasonUnchanged, reasonTargetMissing;
      discriminate.
Qed.

(** ** The loop of [DeleteBackup] *)

Lemma deleteLoop_items id items : forall acc,
  acc_items (List.fold_left (deleteStep id) items acc)
  = acc_items acc ++ filter (fun it => ID it <> id) items.
Proof.
  induction items as [|it items IH]; intros acc; simpl.
  - rewrite app_nil_r. reflexivity.
  - rewrite IH. unfold deleteStep. destruct (decide (ID it = id)) as [Heq|Hne].
    + rewrite filter_cons_False by (intros H; exact (H Heq)). reflexivity.
    + rewrite filter_cons_True by exact Hne. simpl. rewrite <- app_assoc.
      reflexivity.
Qed.

Lemma deleteLoop_found id items : forall acc,
  acc_found (List.fold_left (deleteStep id) items acc) = true <->
  acc_found acc = true \/ exists it, it ∈ items /\ ID it = id.
Proof.
  induction items as [|it items IH]; intros acc; simpl.
  - split; [auto|]. intros [H|(it & H & _)]; [exact H|inversion H].
  - rewrite IH. unfold deleteStep. destruct (decide (ID it = id)) as [Heq|Hne]; simpl.
    + split; intros _; [|auto]. right. exists it. split; [left|exact Heq].
    + split; (intros [H|(it' & Hin & Hid)]; [auto|right]).
      * exists it'. split; [right; exact Hin|exact Hid].
      * inversion Hin; subst; [contradiction|eauto].
Qed.

Lemma deleteLoop_removed id items : forall acc,
  (exists it, it ∈ items /\ ID it = id) ->
  acc_removed (List.fold_left (deleteStep id) items acc) ∈ items
  /\ ID (acc_removed (List.fold_left (deleteStep id) items acc)) = id.
Proof.
  induction items as [|it items IH]; intros acc (it' & Hin & Hid).
  - inversion Hin.
  - simpl. destruct (decide (Exists (fun x => ID x = id) items)) as [Hex|Hno'].
    + apply Exists_exists in Hex.
      destruct (IH (deleteStep id acc it) Hex) as [H1 H2].
      split; [right; exact H1|exact H2].
    + assert (Hno : ~ exists x, x ∈ items /\ ID x = id).
      { intros H. apply Hno', Exists_exists, H. }
      clear Hno'.
      assert (Hit : ID it = id).
      { inversion Hin; subst; [reflexivity|]. exfalso. apply Hno.
        exists it'. split; [assumption|reflexivity]. }
      assert (Hrest : forall acc',
        acc_removed (List.fold_left (deleteStep id) items acc') = acc_removed acc').
      { clear IH Hin. revert Hno. induction items as [|x items IH']; intros Hno acc'.
        - reflexivity.
        - simpl. rewrite IH'.
          + unfold deleteStep. destruct (decide (ID x = id)) as [Hx|Hx]; [|reflexivity].
            exfalso. apply Hno. exists x. split; [left|exact Hx].
          + intros (y & Hy & Hyid). apply Hno. exists y. split; [right; exact Hy|exact Hyid]. }
      rewrite Hrest. unfold deleteStep. destruct (decide (ID it = id)); [|contradiction].
      simpl. split; [left|exact Hit].
Qed.

(** What the loop keeps in [latest]: nothing yet, or one of the entries
    kept so far whose creation time none of them exceeds. *)
Lemma deleteLoop_latest id items : forall acc,
  (forall it, it ∈ items -> CreatedAt it <> 0) ->
  ((acc_items acc = [] /\ acc_latest acc = zeroItem)
   \/ (acc_latest acc ∈ acc_items acc /\ CreatedAt (acc_latest acc) <> 0
       /\ forall it, it ∈ acc_items acc -> CreatedAt it <= CreatedAt (acc_latest acc))) ->
  let acc' := List.fold_left (deleteStep id) items acc in
  (acc_items acc' = [] /\ acc_latest acc' = zeroItem)
  \/ (acc_latest acc' ∈ acc_items acc' /\ CreatedAt (acc_latest acc') <> 0
      /\ forall it, it ∈ acc_items acc' -> CreatedAt it <= CreatedAt (acc_latest acc')).
Proof.
  induction items as [|x items IH]; intros acc Hwf Hacc; simpl.
  - exact Hacc.
  - apply IH.
    + intros it Hin. apply Hwf. right. exact Hin.
    + assert (Hx : CreatedAt x <> 0) by (apply Hwf; left).
      unfold deleteStep. destruct (decide (ID x = id)); simpl; [exact Hacc|].
      right. destruct Hacc as [[Hnil Hz]|(Hin & Hnz & Hmax)].
      * rewrite Hnil, Hz. simpl. split; [left|]. split; [exact Hx|].
        intros it Hit. apply list_elem_of_singleton in Hit. subst. lia.
      * unfold IsZero, After.
        destruct (CreatedAt (acc_latest acc) =? 0) eqn:E0; [lia|]. simpl.
        destruct (CreatedAt (acc_latest acc) <? CreatedAt x) eqn:E1.
        -- split; [apply elem_of_app; right; left|]. split; [exact Hx|].
           intros it Hit. apply elem_of_app in Hit. destruct Hit as [Hit|Hit].
           ++ specialize (Hmax it Hit). lia.
           ++ apply list_elem_of_singleton in Hit. subst. lia.
        -- split; [apply elem_of_app; left; exact Hin|]. split; [exact Hnz|].
           intros it Hit. apply elem_of_app in Hit. destruct Hit as [Hit|Hit].
           ++ exact (Hmax it Hit).
           ++ apply list_elem_of_singleton in Hit. subst. lia.
Qed.

(** ** The label invariant *)

Lemma ids_elem_eq (l : list BackupItem) a b :
  NoDup (ID <$> l) -> a ∈ l -> b ∈ l -> ID a = ID b -> a = b.
Proof.
  induction l as [|x l IH]; intros Hnd Ha Hb Hid.
  - inversion Ha.
  - rewrite fmap_cons in Hnd. apply NoDup_cons in Hnd as [Hx Hnd].
    inversion Ha as [|? ? ? Ha']; inversion Hb as [|? ? ? Hb']; subst.
    + reflexivity.
    + exfalso. apply Hx. rewrite Hid. apply list_elem_of_fmap_2. exact Hb'.
    + exfalso. apply Hx. rewrite <- Hid. apply list_elem_of_fmap_2. exact Ha'.
    + apply IH; assumption.
Qed.

Lemma StoreInv_ext a b :
  Items a = Items b -> Remarks a = Remarks b -> StoreInv a -> StoreInv b.
Proof.
  unfold StoreInv, IdsUnique, LabelIndexExact. intros -> ->. auto.
Qed.

Lemma StoreInv_ensureDefaults t idx :
  StoreInv idx -> StoreInv (ensureDefaults t idx).
Proof. apply StoreInv_ext; reflexivity. Qed.

Lemma StoreInv_same_label idx a b :
  StoreInv idx -> a ∈ Items idx -> b ∈ Items idx ->
  Remark a <> "" -> Remark a = Remark b -> a = b.
Proof.
  intros [Hids Hex] Ha Hb Hne Hlab.
  apply (ids_elem_eq (Items idx)); try assumption.
  assert (H1 : Remarks idx !! Remark a = Some (ID a)).
  { apply Hex. split; [exact Hne|]. exists a. auto. }
  assert (H2 : Remarks idx !! Remark a = Some (ID b)).
  { apply Hex. split; [exact Hne|]. exists b. auto. }
  congruence.
Qed.

Lemma StoreInv_LabelsUnique idx : StoreInv idx -> LabelsUnique idx.
Proof.
  intros Hinv i j a b Hi Hj Hne Hlab.
  assert (a = b) as <-.
  { apply (StoreInv_same_label idx); try assumption.
    - eapply list_elem_of_lookup_2, Hi.
    - eapply list_elem_of_lookup_2, Hj. }
  destruct Hinv as [Hids _]. apply NoDup_fmap_1 in Hids.
  exact (NoDup_lookup _ _ _ _ Hids Hi Hj).
Qed.

Lemma StoreInv_zeroIndex : StoreInv zeroIndex.
Proof.
  split.
  - constructor.
  - intros r id. simpl. rewrite lookup_empty. split; [discriminate|].
    intros (_ & it & Hin & _). inversion Hin.
Qed.

Lemma StoreInv_no_empty_label idx id : StoreInv idx -> Remarks idx !! "" <> Some id.
Proof. intros [_ Hex] H. apply Hex in H. destruct H as [H _]. apply H. reflexivity. Qed.

Lemma addBackupMutator_inv item fp idx x idx' :
  StoreInv idx ->
  ID item ∉ (ID <$> Items idx) ->
  addBackupMutator item fp idx = (x, idx', None) ->
  StoreInv idx'.
Proof.
  intros [Hids Hex] Hfresh Hm. unfold addBackupMutator in Hm.
  unfold StoreInv, IdsUnique, LabelIndexExact in *.
  assert (Hids' : NoDup (ID <$> (Items idx ++ [item]))).
  { rewrite fmap_app. apply NoDup_app. split; [exact Hids|]. split.
    - intros y Hy Hy'. apply list_elem_of_singleton in Hy'. subst. exact (Hfresh Hy).
    - apply NoDup_singleton. }
  destruct (decide (Remark item <> "")) as [Hne|He].
  - assert (Hnone : Remarks idx !! Remark item = None).
    { destruct (Remarks idx !! Remark item) as [existing|] eqn:El; [|reflexivity].
      exfalso. destruct (decide (existing <> ID item)) as [Hd|Hd]; [discriminate|].
      apply dec_stable in Hd. subst existing.
      apply Hex in El. destruct El as (_ & it & Hin & _ & Hid).
      apply Hfresh. rewrite <- Hid. apply list_elem_of_fmap_2. exact Hin. }
    rewrite Hnone in Hm. injection Hm as _ <-. split; [exact Hids'|].
    intros r id. simpl.
    destruct (decide (r = Remark item)) as [->|Hr].
    + rewrite lookup_insert_eq. split.
      * intros [= <-]. split; [exact Hne|]. exists item.
        split; [apply elem_of_app; right; left|auto].
      * intros (_ & it & Hin & Hlab & Hid). apply elem_of_app in Hin.
        destruct Hin as [Hin|Hin].
        -- exfalso. assert (Remarks idx !! Remark item = Some (ID it)) as H.
           { apply Hex. split; [exact Hne|]. exists it. auto. }
           congruence.
        -- apply list_elem_of_singleton in Hin. subst. reflexivity.
    + rewrite lookup_insert_ne by congruence. rewrite Hex. split.
      * intros (Hr0 & it & Hin & Hlab & Hid). split; [exact Hr0|].
        exists it. split; [apply elem_of_app; left; exact Hin|auto].
      * intros (Hr0 & it & Hin & Hlab & Hid). split; [exact Hr0|].
        apply elem_of_app in Hin. destruct Hin as [Hin|Hin]; [eauto|].
        apply list_elem_of_singleton in Hin. subst. contradiction.
  - apply dec_stable in He. injection Hm as _ <-. split; [exact Hids'|].
    intros r id. simpl. rewrite Hex. split.
    + intros (Hr0 & it & Hin & Hlab & Hid). split; [exact Hr0|].
      exists it. split; [apply elem_of_app; left; exact Hin|auto].
    + intros (Hr0 & it & Hin & Hlab & Hid). split; [exact Hr0|].
      apply elem_of_app in Hin. destruct Hin as [Hin|Hin]; [eauto|].
      apply list_elem_of_singleton in Hin. subst. congruence.
Qed.

Lemma findIndex_Some id items i :
  findIndex id items = Some i ->
  exists it, items !! i = Some it /\ ID it = id.
Proof.
  revert i. induction items as [|x items IH]; intros i H; simpl in H.
  - discriminate.
  - destruct (decide (ID x = id)) as [Hx|Hx].
    + injection H as <-. exists x. auto.
    + destruct (findIndex id items) as [k|] eqn:Ek; [|discriminate].
      injection H as <-. exact (IH k eq_refl).
Qed.

Lemma findIndex_None id items :
  findIndex id items = None -> forall it, it ∈ items -> ID it <> id.
Proof.
  induction items as [|x items IH]; intros H it Hin; simpl in H.
  - inversion Hin.
  - destruct (decide (ID x = id)) as [Hx|Hx]; [discriminate|].
    destruct (findIndex id items) as [k|] eqn:Ek; [discriminate|].
    inversion Hin; subst; [exact Hx|]. apply IH; [reflexivity|assumption].
Qed.

Lemma elem_of_insert_inv (l : list BackupItem) i x y :
  y ∈ <[i := x]> l -> y = x \/ exists j, j <> i /\ l !! j = Some y.
Proof.
  intros H. apply list_elem_of_lookup in H as [j Hj].
  destruct (decide (i = j)) as [->|Hne].
  - destruct (decide (j < length l)%nat) as [Hlt|Hge].
    + rewrite list_lookup_insert_eq in Hj by exact Hlt. left. congruence.
    + rewrite list_insert_ge in Hj by lia.
      apply lookup_lt_Some in Hj. contradiction.
  - rewrite list_lookup_insert_ne in Hj by exact Hne. right. eauto.
Qed.
Lemma updateRemarkMutator_inv id newRemark idx x idx' :
  StoreInv idx ->
  updateRemarkMutator id newRemark idx = (x, idx', None) ->
  StoreInv idx'.
Proof.
  intros Hinv Hm. unfold updateRemarkMutator in Hm.
  destruct (findIndex id (Items idx)) as [i|] eqn:Ei; [|discriminate].
  destruct (findIndex_Some _ _ _ Ei) as (item & Hi & Hid).
  rewrite Hi in Hm.
  destruct (decide (Remark item = newRemark)) as [Hsame|Hdiff].
  { injection Hm as _ <-. exact Hinv. }
  match type of Hm with (if ?t then _ else _) = _ => destruct t eqn:Htaken end;
    [discriminate|].
  injection Hm as _ <-.
  pose proof (StoreInv_LabelsUnique idx Hinv) as Huniq.
  pose proof (fun id0 => StoreInv_no_empty_label idx id0 Hinv) as Hnoempty.
  destruct Hinv as [Hids Hex]. unfold StoreInv, IdsUnique, LabelIndexExact in *.
  assert (Hlt : (i < length (Items idx))%nat) by (eapply lookup_lt_Some, Hi).
  set (item' := set_Remark newRemark item).
  assert (Hother : forall j y, j <> i -> Items idx !! j = Some y ->
            ID y <> id /\ (Remark item <> "" -> Remark y <> Remark item)).
  { intros j y Hj Hy. split.
    - intros Hyid. apply Hj.
      apply (NoDup_lookup (ID <$> Items idx) j i id Hids);
        rewrite list_lookup_fmap; [rewrite Hy|rewrite Hi]; simpl; congruence.
    - intros Hne Hlab. apply Hj. symmetry.
      apply (Huniq i j item y Hi Hy Hne). congruence. }
  assert (Hfree : newRemark <> "" -> forall j y, j <> i ->
            Items idx !! j = Some y -> Remark y <> newRemark).
  { intros Hn j y Hj Hy Hlab.
    assert (Remarks idx !! newRemark = Some (ID y)) as Hl.
    { apply Hex. split; [exact Hn|]. exists y.
      split; [eapply list_elem_of_lookup_2, Hy|auto]. }
    destruct (decide (newRemark <> "")) as [_|]; [|contradiction].
    rewrite Hl in Htaken. apply bool_decide_eq_false in Htaken.
    apply dec_stable in Htaken. destruct (Hother j y Hj Hy) as [Hyid _].
    contradiction. }
  split.
  - simpl. rewrite list_fmap_insert. simpl. rewrite list_insert_id; [exact Hids|].
    rewrite list_lookup_fmap, Hi. reflexivity.
  - intros r id0. simpl.
    assert (Hitems : (exists it, it ∈ <[i:=item']> (Items idx) /\ Remark it = r /\ ID it = id0)
              <-> (r = newRemark /\ id0 = id)
                  \/ (exists j y, j <> i /\ Items idx !! j = Some y /\ Remark y = r /\ ID y = id0)).
    { split.
      - intros (it & Hin & Hlab & Hitid).
        apply elem_of_insert_inv in Hin as [->|(j & Hj & Hy)].
        + left. unfold item' in *. simpl in *.
          split; [symmetry; exact Hlab|rewrite <- Hitid; exact Hid].
        + right. eauto 10.
      - intros [[-> ->]|(j & y & Hj & Hy & Hlab & Hyid)].
        + exists item'. split; [apply list_elem_of_insert; exact Hlt|].
          unfold item'. simpl. auto.
        + exists y. split; [|auto]. eapply list_elem_of_lookup_2.
          rewrite list_lookup_insert_ne by (intros Heq; apply Hj; symmetry; exact Heq).
          exact Hy. }
    rewrite Hitems. clear Hitems.
    assert (Hold : forall r0, r0 <> Remark item ->
              (Remarks idx !! r0 = Some id0 <->
               r0 <> "" /\ exists j y, j <> i /\ Items idx !! j = Some y
                                       /\ Remark y = r0 /\ ID y = id0)).
    { intros r0 Hr0. rewrite Hex. split.
      - intros (Hne & it & Hin & Hlab & Hitid). split; [exact Hne|].
        apply list_elem_of_lookup in Hin as [j Hj]. exists j, it.
        split; [|auto]. intros ->. congruence.
      - intros (Hne & j & y & Hj & Hy & Hlab & Hyid). split; [exact Hne|].
        exists y. split; [eapply list_elem_of_lookup_2, Hy|auto]. }
    set (m1 := if decide (Remark item <> "")
               then delete (Remark item) (Remarks idx) else Remarks idx).
    assert (Hm1 : forall r0, m1 !! r0 = Some id0 <->
              r0 <> "" /\ exists j y, j <> i /\ Items idx !! j = Some y
                                      /\ Remark y = r0 /\ ID y = id0).
    { intros r0. unfold m1. destruct (decide (Remark item <> "")) as [Ho|Ho].
      - destruct (decide (r0 = Remark item)) as [->|Hr0].
        + rewrite lookup_delete_eq. split; [discriminate|].
          intros (_ & j & y & Hj & Hy & Hlab & _).
          destruct (Hother j y Hj Hy) as [_ H]. exfalso. exact (H Ho Hlab).
        + rewrite lookup_delete_ne by congruence. apply Hold, Hr0.
      - apply dec_stable in Ho. destruct (decide (r0 = "")) as [->|Hr0].
        + split; [intros H; destruct (Hnoempty _ H)|intros [H _]; contradiction].
        + apply Hold. congruence. }
    destruct (decide (newRemark <> "")) as [Hn|Hn].
    + destruct (decide (r = newRemark)) as [->|Hr].
      * rewrite lookup_insert_eq. split.
        -- intros [= <-]. split; [exact Hn|left; auto].
        -- intros (_ & [[_ ->]|(j & y & Hj & Hy & Hlab & _)]); [reflexivity|].
          exfalso. exact (Hfree Hn j y Hj Hy Hlab).
      * rewrite lookup_insert_ne by congruence. rewrite Hm1. split.
        -- intros (H1 & H2). split; [exact H1|right; exact H2].
        -- intros (H1 & [[-> _]|H2]); [contradiction|]. split; assumption.
    + apply dec_stable in Hn. rewrite Hm1. split.
      * intros (H1 & H2). split; [exact H1|right; exact H2].
      * intros (H1 & [[-> _]|H2]); [contradiction|]. split; assumption.
Qed.
Lemma NoDup_fmap_filter (P : BackupItem -> Prop) `{forall x, Decision (P x)}
    (l : list BackupItem) :
  NoDup (ID <$> l) -> NoDup (ID <$> filter P l).
Proof.
  induction l as [|x l IH]; intros Hnd; [exact Hnd|].
  rewrite fmap_cons in Hnd. apply NoDup_cons in Hnd as [Hx Hnd].
  destruct (decide (P x)) as [Hp|Hp].
  - rewrite filter_cons_True by exact Hp. rewrite fmap_cons. apply NoDup_cons.
    split; [|exact (IH Hnd)]. intros Hin. apply Hx.
    apply list_elem_of_fmap in Hin as (y & Hy & Hiny).
    apply list_elem_of_filter in Hiny as [_ Hiny].
    rewrite Hy. apply list_elem_of_fmap_2. exact Hiny.
  - rewrite filter_cons_False by exact Hp. exact (IH Hnd).
Qed.

Lemma deleteBackupMutator_Some id idx x idx' :
  deleteBackupMutator id idx = (x, idx', None) ->
  x ∈ Items idx /\ ID x = id
  /\ Items idx' = filter (fun it => ID it <> id) (Items idx)
  /\ Remarks idx' = (if decide (Remark x <> "")
                     then delete (Remark x) (Remarks idx) else Remarks idx)
  /\ LatestFingerprint idx'
     = (if decide (ID (acc_latest (deleteLoop id (Items idx))) <> "")
        then FileFingerprint (acc_latest (deleteLoop id (Items idx))) else "").
Proof.
  unfold deleteBackupMutator. intros Hm.
  destruct (acc_found (deleteLoop id (Items idx))) eqn:Hfound; simpl in Hm;
    [|discriminate].
  injection Hm as <- <-.
  apply deleteLoop_found in Hfound. simpl in Hfound.
  destruct Hfound as [Hf|Hex]; [discriminate|].
  unfold deleteLoop.
  destruct (deleteLoop_removed id (Items idx)
              {| acc_found := false; acc_items := []; acc_latest := zeroItem;
                 acc_removed := zeroItem |} Hex) as [Hin Hid].
  split; [exact Hin|]. split; [exact Hid|]. simpl.
  split; [|split; reflexivity].
  rewrite deleteLoop_items. reflexivity.
Qed.

Lemma deleteBackupMutator_inv id idx x idx' :
  StoreInv idx ->
  deleteBackupMutator id idx = (x, idx', None) ->
  StoreInv idx'.
Proof.
  intros Hinv Hm.
  destruct (deleteBackupMutator_Some _ _ _ _ Hm) as (Hin & Hid & Hitems & Hrem & _).
  pose proof (StoreInv_same_label idx) as Hsame. specialize (fun a b => Hsame a b Hinv).
  pose proof (fun id0 => StoreInv_no_empty_label idx id0 Hinv) as Hnoempty.
  destruct Hinv as [Hids Hex]. unfold StoreInv, IdsUnique, LabelIndexExact in *.
  rewrite Hitems, Hrem. split; [apply NoDup_fmap_filter; exact Hids|].
  intros r id0.
  assert (Hkeep : forall it, it ∈ Items idx -> Remark it = r -> r <> "" ->
            r <> Remark x -> ID it <> id).
  { intros it Hit Hlab Hr Hrx Hitid. apply Hrx. rewrite <- Hlab. f_equal.
    apply (ids_elem_eq (Items idx)); try assumption. congruence. }
  assert (Hrest : r <> Remark x ->
            (Remarks idx !! r = Some id0 <->
             r <> "" /\ exists it, it ∈ filter (fun it => ID it <> id) (Items idx)
                                  /\ Remark it = r /\ ID it = id0)).
  { intros Hrx. rewrite Hex. split.
    - intros (Hr & it & Hit & Hlab & Hitid). split; [exact Hr|]. exists it.
      split; [|auto]. apply list_elem_of_filter. split; [|exact Hit].
      exact (Hkeep it Hit Hlab Hr Hrx).
    - intros (Hr & it & Hit & Hlab & Hitid). split; [exact Hr|]. exists it.
      apply list_elem_of_filter in Hit as [_ Hit]. auto. }
  destruct (decide (Remark x <> "")) as [Ho|Ho].
  - destruct (decide (r = Remark x)) as [->|Hrx].
    + rewrite lookup_delete_eq. split; [discriminate|].
      intros (_ & it & Hit & Hlab & _).
      apply list_elem_of_filter in Hit as [Hne Hit]. exfalso. apply Hne.
      rewrite (Hsame it x Hit Hin); [exact Hid| |exact Hlab]. congruence.
    + rewrite lookup_delete_ne by congruence. exact (Hrest Hrx).
  - apply dec_stable in Ho. destruct (decide (r = "")) as [->|Hr].
    + split; [intros H; destruct (Hnoempty _ H)|intros [H _]; contradiction].
    + apply Hrest. congruence.
Qed.

Lemma snd_bind_ret {A B} (m : M A) (f : A -> B) w :
  snd (bind m (fun r => ret (f r)) w) = snd (m w).
Proof. unfold bind, ret. destruct (m w) as [[a|e] w']; reflexivity. Qed.

Lemma loaded_set_index s idx d :
  loaded s (set_index (Some (ensureDefaults (targetPath s) idx)) d)
  = ensureDefaults (targetPath s) idx.
Proof. unfold loaded. simpl. apply ensureDefaults_idem. Qed.

Lemma update_inv {X} s (mutator : Mutator X) w :
  StoreInv (loaded s (fs w)) ->
  (forall x idx', mutator (loaded s (fs w)) = (x, idx', None) -> StoreInv idx') ->
  StoreInv (loaded s (fs (snd (update s mutator w)))).
Proof.
  intros Hinv Hmut.
  pose proof (outcome_update s mutator (fs w) w eq_refl) as H.
  destruct (update s mutator w) as [[[x idx1]|e] w']; simpl in *.
  - destruct H as (idx' & Hm & -> & ->). rewrite loaded_set_index.
    apply StoreInv_ensureDefaults. exact (Hmut _ _ Hm).
  - destruct H as [-> _]. exact Hinv.
Qed.

Lemma runOp_inv s op w :
  StoreInv (loaded s (fs w)) -> freshId s op w ->
  StoreInv (loaded s (fs (runOp s op w))).
Proof.
  intros Hinv Hfresh. destruct op as [item fp|fp|id r|id]; simpl in *.
  - unfold AddBackup. rewrite snd_bind_ret. apply update_inv; [exact Hinv|].
    intros x idx'. apply addBackupMutator_inv; assumption.
  - unfold UpdateLatestFingerprint. rewrite snd_bind_ret.
    apply update_inv; [exact Hinv|]. intros x idx' [= _ <-].
    revert Hinv. apply StoreInv_ext; reflexivity.
  - unfold Store_UpdateRemark. rewrite snd_bind_ret.
    apply update_inv; [exact Hinv|]. intros x idx'.
    apply updateRemarkMutator_inv. exact Hinv.
  - unfold Store_DeleteBackup. rewrite snd_bind_ret.
    apply update_inv; [exact Hinv|]. intros x idx'.
    apply deleteBackupMutator_inv. exact Hinv.
Qed.




(** ** Deleting an entry *)

Lemma deleteBackupMutator_found id idx :
  (exists it, it ∈ Items idx /\ ID it = id) ->
  exists x idx', deleteBackupMutator id idx = (x, idx', None).
Proof.
  intros Hex. unfold deleteBackupMutator.
  assert (acc_found (deleteLoop id (Items idx)) = true) as ->.
  { unfold deleteLoop. apply deleteLoop_found. right. exact Hex. }
  simpl. eauto.
Qed.

Lemma deleteBackupMutator_missing id idx :
  (forall it, it ∈ Items idx -> ID it <> id) ->
  exists x, deleteBackupMutator id idx = (x, idx, Some ErrBackupNotFound).
Proof.
  intros Hno. unfold deleteBackupMutator.
  destruct (acc_found (deleteLoop id (Items idx))) eqn:Hf.
  - unfold deleteLoop in Hf. apply deleteLoop_found in Hf. simpl in Hf.
    destruct Hf as [Hf|(it & Hin & Hid)]; [discriminate|].
    destruct (Hno it Hin Hid).
  - simpl. eauto.
Qed.

Lemma deleteLoop_newest id items :
  (forall it, it ∈ items -> CreatedAt it <> 0) ->
  let rest := filter (fun it => ID it <> id) items in
  let latest := acc_latest (deleteLoop id items) in
  (rest = [] /\ latest = zeroItem)
  \/ (latest ∈ rest /\ forall it, it ∈ rest -> CreatedAt it <= CreatedAt latest).
Proof.
  intros Hwf.
  pose proof (deleteLoop_latest id items
                {| acc_found := false; acc_items := []; acc_latest := zeroItem;
                   acc_removed := zeroItem |} Hwf
                (or_introl (conj eq_refl eq_refl))) as Hl.
  cbv zeta in Hl. rewrite !deleteLoop_items in Hl. simpl in Hl.
  unfold deleteLoop. destruct Hl as [Hl|(H1 & _ & H2)]; [left; exact Hl|right; auto].
Qed.

(** The index a deletion writes, when every entry has an id and a
    creation time. *)
Lemma deleteBackupMutator_effect id idx x idx' :
  (forall it, it ∈ Items idx -> ID it <> "" /\ CreatedAt it <> 0) ->
  deleteBackupMutator id idx = (x, idx', None) ->
  forall idx'', Items idx'' = Items idx' -> Remarks idx'' = Remarks idx' ->
    LatestFingerprint idx'' = LatestFingerprint idx' ->
  x ∈ Items idx /\ ID x = id
  /\ Items idx'' = filter (fun it => ID it <> id) (Items idx)
  /\ (Remark x <> "" -> Remarks idx'' = delete (Remark x) (Remarks idx))
  /\ (Remark x = "" -> Remarks idx'' = Remarks idx)
  /\ (Items idx'' = [] -> LatestFingerprint idx'' = "")
  /\ (Items idx'' <> [] ->
      exists newest, newest ∈ Items idx''
        /\ (forall it, it ∈ Items idx'' -> CreatedAt it <= CreatedAt newest)
        /\ LatestFingerprint idx'' = FileFingerprint newest).
Proof.
  intros Hwf Hm idx'' HI HR HL. rewrite HI, HR, HL.
  destruct (deleteBackupMutator_Some _ _ _ _ Hm)
    as (Hin & Hid & Hitems & Hrem & Hfp).
  split; [exact Hin|]. split; [exact Hid|]. split; [exact Hitems|].
  split. { intros Hne. rewrite Hrem. destruct (decide (Remark x <> "")); [reflexivity|contradiction]. }
  split. { intros He. rewrite Hrem. destruct (decide (Remark x <> "")); [contradiction|reflexivity]. }
  pose proof (deleteLoop_newest id (Items idx)
                (fun it Hit => proj2 (Hwf it Hit))) as Hl.
  cbv zeta in Hl. rewrite <- Hitems in Hl. rewrite Hfp.
  destruct Hl as [[Hnil Hz]|(Hlin & Hmax)].
  + rewrite Hz. simpl. split; [reflexivity|]. intros H. contradiction.
  + assert (Hidl : ID (acc_latest (deleteLoop id (Items idx))) <> "").
    { apply Hwf. rewrite Hitems in Hlin.
      apply list_elem_of_filter in Hlin as [_ Hlin]. exact Hlin. }
    destruct (decide (ID (acc_latest (deleteLoop id (Items idx))) <> ""));
      [|contradiction].
    split.
    * intros Hnil. rewrite Hnil in Hlin. inversion Hlin.
    * intros _. exists (acc_latest (deleteLoop id (Items idx))). auto.
Qed.

(** C5, counterexample. [DeleteBackup] takes an empty id of the newest
    remaining entry for "no entry remains", and a zero creation time of
    the newest entry seen so far for "none seen yet". With an entry
    without id left, the latest signature is cleared although that entry
    has a signature; with an entry of the zero time followed by one
    created a second earlier, the latest signature becomes that of the
    earlier entry. *)
Lemma delete_with_odd_entries_misses_newest :
  let s := store sampleService in
  let noId :=
    runOp s (OpDeleteBackup "0b2f6c1e-0001")
      (runOp s (OpAddBackup sampleEntry1 "2eb735e5ddcdaf13")
         (runOp s (OpAddBackup sampleEntryNoId "1111111111111111") sampleWorld0)) in
  let zeroTime :=
    runOp s (OpDeleteBackup "0b2f6c1e-0001")
      (runOp s (OpAddBackup sampleEntry1 "2eb735e5ddcdaf13")
         (runOp s (OpAddBackup sampleEntryYearZero "3333333333333333")
            (runOp s (OpAddBackup sampleEntryZeroTime "2222222222222222")
               sampleWorld0))) in
  (Items (loaded s (fs noId)) = [sampleEntryNoId]
   /\ FileFingerprint sampleEntryNoId <> ""
   /\ LatestFingerprint (loaded s (fs noId)) = "")
  /\ (Items (loaded s (fs zeroTime)) = [sampleEntryZeroTime; sampleEntryYearZero]
      /\ CreatedAt sampleEntryYearZero < CreatedAt sampleEntryZeroTime
      /\ LatestFingerprint (loaded s (fs zeroTime)) = FileFingerprint sampleEntryYearZero
      /\ FileFingerprint sampleEntryYearZero <> FileFingerprint sampleEntryZeroTime).
Proof.
  cbv zeta. split.
  - split; [vm_compute; reflexivity|]. split; [discriminate|vm_compute; reflexivity].
  - split; [vm_compute; reflexivity|]. split; [reflexivity|].
    split; [vm_compute; reflexivity|discriminate].
Qed.

(** C5, as amended. In an index whose entries all have a non-empty id and
    a creation time other than the zero time, deleting an id that an entry
    carries either fails on a system call, and then no file has changed,
    or (always so when no system call fails) returns the removed entry
    and writes an index without the entries of that id and without the
    label of the removed entry, whose latest signature is the fast
    signature of a remaining entry whose creation time no remaining entry
    exceeds, or is empty when no entry remains. Deleting an id that no
    entry carries changes no file and fails, with [ErrBackupNotFound]
    unless a system call failed first. *)
Theorem delete_entry_recomputes_latest (s : Store) (w : World) (id : string) :
  let idx := loaded s (fs w) in
  (forall it, it ∈ Items idx -> ID it <> "" /\ CreatedAt it <> 0) ->
  ((exists it, it ∈ Items idx /\ ID it = id) ->
   exists r w', Store_DeleteBackup s id w = (r, w')
     /\ ((exists e, r = Err e /\ isIOError e = true
            /\ fs w' = fs w /\ faults w <> [])
         \/ exists removed idx',
              r = Ok removed
              /\ fs w' = set_index (Some idx') (fs w)
              /\ (faults w = [] -> w' = on_fs (set_index (Some idx')) w)
              /\ removed ∈ Items idx /\ ID removed = id
              /\ Items idx' = filter (fun it => ID it <> id) (Items idx)
              /\ (Remark removed <> "" ->
                  Remarks idx' = delete (Remark removed) (Remarks idx))
              /\ (Remark removed = "" -> Remarks idx' = Remarks idx)
              /\ (Items idx' = [] -> LatestFingerprint idx' = "")
              /\ (Items idx' <> [] ->
                  exists newest, newest ∈ Items idx'
                    /\ (forall it, it ∈ Items idx' -> CreatedAt it <= CreatedAt newest)
                    /\ LatestFingerprint idx' = FileFingerprint newest)))
  /\ ((forall it, it ∈ Items idx -> ID it <> id) ->
      fs (snd (Store_DeleteBackup s id w)) = fs w
      /\ (exists e, fst (Store_DeleteBackup s id w) = Err e
            /\ (e = ErrBackupNotFound \/ isIOError e = true))
      /\ (faults w = [] ->
          Store_DeleteBackup s id w = (Err ErrBackupNotFound, w))).
Proof.
  intros idx Hwf. split.
  - intros Hex.
    destruct (deleteBackupMutator_found id idx Hex) as (x & idx1 & Hm).
    destruct (decide (faults w = [])) as [Hn|Hn].
    + exists (Ok x), (on_fs (set_index (Some (ensureDefaults (targetPath s) idx1))) w).
      split.
      { unfold Store_DeleteBackup, bind. rewrite (update_nil _ _ w Hn).
        fold idx. rewrite Hm. reflexivity. }
      right. exists x, (ensureDefaults (targetPath s) idx1).
      split; [reflexivity|]. split; [reflexivity|]. split; [reflexivity|].
      apply (deleteBackupMutator_effect id idx x idx1 Hwf Hm); reflexivity.
    + pose proof (outcome_update s (deleteBackupMutator id) (fs w) w eq_refl) as Ho.
      unfold Store_DeleteBackup, bind.
      destruct (update s (deleteBackupMutator id) w) as [[[x' idx2]|e] w'].
      * destruct Ho as (idx' & Hm' & Hsnd & Hfs). cbn [fst snd] in *.
        fold idx in Hm'. rewrite Hm in Hm'. injection Hm' as <- <-.
        exists (Ok x), w'. split; [reflexivity|]. right.
        exists x, idx2. split; [reflexivity|]. split; [exact Hfs|].
        split; [intros H; destruct (Hn H)|].
        subst idx2.
        apply (deleteBackupMutator_effect id idx x idx1 Hwf Hm); reflexivity.
      * destruct Ho as (Hfs & [Hio|(x' & idx' & Hm')]).
        -- exists (Err e), w'. split; [reflexivity|]. left. exists e. auto.
        -- fold idx in Hm'. rewrite Hm in Hm'. discriminate.
  - intros Hno. destruct (deleteBackupMutator_missing id idx Hno) as (x & Hm).
    unfold Store_DeleteBackup.
    destruct (update_mutator_error s (deleteBackupMutator id) w x idx
                ErrBackupNotFound Hm) as (Hfs & (e' & He' & Hk) & Hnil).
    split; [|split].
    + rewrite snd_bind_ret. exact Hfs.
    + exists e'. unfold bind. destruct (update s (deleteBackupMutator id) w) as [[r|e] w'];
        simpl in *; [congruence|]. split; [congruence|exact Hk].
    + intros Hn. unfold bind. rewrite (Hnil Hn). reflexivity.
Qed.

(** ** The paths of a scan *)

Lemma Scan_paths fuel s isAuto remark env w :
  ScanPath fuel s isAuto remark env w (Scan fuel s isAuto remark env w).
Proof.
  destruct (decide (faults w = [])) as [Hn|Hn].
  - unfold Scan, Snapshot.
    rewrite (loadIndexUnlocked_nil _ w Hn), (ComputeFingerprint_nil w Hn).
    destruct (target (fs w)) as [f|] eqn:Ht.
    2:{ simpl. apply path_missing; auto. }
    cbn [Fingerprint].
    destruct (decide (LatestFingerprint (loaded (store s) (fs w))
                      = fingerprintOf (statOf f))) as [Heq|Hne].
    { eapply path_unchanged; eauto. }
    rewrite (ComputeContentHash_nil w Hn), Ht.
    fold (contentHashOf f).
    destruct (findByContentHash (Items (loaded (store s) (fs w))) (contentHashOf f))
      as [E|] eqn:Hfind.
    + rewrite (UpdateLatestFingerprint_nil _ _ w Hn).
      eapply path_duplicate; eauto.
    + apply (path_new fuel s isAuto remark env w f w); auto.
  - assert (Hv : forall (P : Prop), faults w = [] -> P) by (intros P H; destruct (Hn H)).
    unfold Scan, Snapshot.
    pose proof (outcome_loadIndexUnlocked (store s) (fs w) w eq_refl) as H1.
    destruct (loadIndexUnlocked (store s) w) as [[idx0|e] w1].
    2:{ destruct H1 as [He Hfs]. apply path_io; auto. }
    destruct H1 as [-> Hfs1].
    pose proof (outcome_ComputeFingerprint (fs w1) w1 eq_refl) as H2.
    destruct (ComputeFingerprint w1) as [[res|e] w2].
    2:{ destruct H2 as [Hfs2 [He|[-> Hnone]]].
        - rewrite (isIOError_IsNotExist e He). apply path_io; [exact He|congruence|exact Hn].
        - simpl. apply path_missing; [congruence|congruence|apply Hv]. }
    destruct H2 as (f & Ht & -> & Hfs2). rewrite Hfs1 in Ht. cbn [Fingerprint].
    destruct (decide (LatestFingerprint (loaded (store s) (fs w))
                      = fingerprintOf (statOf f))) as [Heq|Hne].
    { eapply path_unchanged; eauto; [congruence|apply Hv]. }
    pose proof (outcome_ComputeContentHash (fs w2) w2 eq_refl) as H3.
    destruct (ComputeContentHash w2) as [[[hash data]|e] w3].
    2:{ destruct H3 as [Hfs3 [He|[-> Hnone]]].
        - apply path_io; [exact He|congruence|exact Hn].
        - rewrite Hfs2, Hfs1, Ht in Hnone. discriminate. }
    destruct H3 as (f' & Hf & Hr & Hfs3). rewrite Hfs2, Hfs1, Ht in Hf.
    injection Hf as <-. injection Hr as -> ->. fold (contentHashOf f).
    assert (Hfs : fs w3 = fs w) by congruence.
    destruct (findByContentHash (Items (loaded (store s) (fs w))) (contentHashOf f))
      as [E|] eqn:Hfind.
    + pose proof (outcome_UpdateLatestFingerprint (store s) (fingerprintOf (statOf f))
                    (fs w3) w3 eq_refl) as H4.
      destruct (UpdateLatestFingerprint (store s) (fingerprintOf (statOf f)) w3)
        as [[idx'|e] w4].
      * destruct H4 as [-> Hfs4]. rewrite Hfs in Hfs4.
        eapply path_duplicate; eauto.
      * destruct H4 as [He Hfs4]. apply path_io; [exact He|congruence|exact Hn].
    + apply (path_new fuel s isAuto remark env w f w3); auto. apply Hv.
Qed.

(** ** Committing an entry *)

Lemma addBackupMutator_cases item fp idx :
  (takenByOther idx (ID item) (Remark item)
   /\ addBackupMutator item fp idx = (tt, idx, Some ErrRemarkExists))
  \/ (~ takenByOther idx (ID item) (Remark item)
      /\ addBackupMutator item fp idx = (tt, withEntry item fp idx, None)).
Proof.
  unfold addBackupMutator, withEntry, takenByOther.
  destruct (decide (Remark item <> "")) as [Hne|He].
  - destruct (Remarks idx !! Remark item) as [existing|] eqn:El.
    + destruct (decide (existing <> ID item)) as [Hd|Hd].
      * left. split; [|reflexivity]. split; [exact Hne|]. eauto.
      * right. split; [|reflexivity]. intros (_ & ex & Hl & Hx).
        injection Hl as <-. contradiction.
    + right. split; [|reflexivity]. intros (_ & ex & Hl & _). discriminate.
  - right. split; [|reflexivity]. intros (H & _). contradiction.
Qed.

Lemma ensureDefaults_withEntry t item fp idx :
  ensureDefaults t (withEntry item fp (ensureDefaults t idx))
  = withEntry item fp (ensureDefaults t idx).
Proof.
  unfold withEntry. destruct (decide (Remark item <> ""));
    (transitivity (set_LatestFingerprint fp
       (set_Items (Items idx ++ [item])
          (set_Remarks
             (if decide (Remark item <> "")
              then <[Remark item := ID item]> (Remarks idx) else Remarks idx)
             (ensureDefaults t (ensureDefaults t idx)))));
     [destruct (decide (Remark item <> "")); try contradiction; reflexivity
     |rewrite ensureDefaults_idem;
      destruct (decide (Remark item <> "")); try contradiction; reflexivity]).
Qed.

Lemma outcome_AddBackup s item fp d :
  outcome (AddBackup s item fp) d
    (fun idx' d' =>
       ~ takenByOther (loaded s d) (ID item) (Remark item)
       /\ idx' = withEntry item fp (loaded s d)
       /\ d' = set_index (Some idx') d)
    (fun e d' =>
       d' = d /\
       (isIOError e = true
        \/ (e = ErrRemarkExists /\ takenByOther (loaded s d) (ID item) (Remark item)))).
Proof.
  unfold AddBackup. eapply outcome_bind.
  - eapply outcome_weaken; [apply outcome_update|intros a d' H; exact H|].
    intros e d' [-> [Hio|(x & idx' & Hm)]]; (split; [reflexivity|]); [left; exact Hio|].
    right.
    destruct (addBackupMutator_cases item fp (loaded s d)) as [[Ht Hc]|[_ Hc]];
      rewrite Hc in Hm; [|discriminate].
    injection Hm as _ _ <-. auto.
  - cbn beta. intros [x idx'] d' (idx1 & Hm & Hs & Hd). simpl in *.
    apply outcome_ret.
    destruct (addBackupMutator_cases item fp (loaded s d)) as [[_ Hc]|[Hfree Hc]];
      rewrite Hc in Hm; [discriminate|].
    injection Hm as _ <-. unfold loaded in Hs. rewrite ensureDefaults_withEntry in Hs.
    subst idx'. auto.
Qed.

Lemma AddBackup_nil_taken s item fp w :
  faults w = [] ->
  takenByOther (loaded s (fs w)) (ID item) (Remark item) ->
  AddBackup s item fp w = (Err ErrRemarkExists, w).
Proof.
  intros Hn Ht. unfold AddBackup, bind. rewrite (update_nil _ _ w Hn).
  destruct (addBackupMutator_cases item fp (loaded s (fs w))) as [[_ Hc]|[Hf _]];
    [|contradiction].
  rewrite Hc. reflexivity.
Qed.

Lemma AddBackup_nil_free s item fp w :
  faults w = [] ->
  ~ takenByOther (loaded s (fs w)) (ID item) (Remark item) ->
  AddBackup s item fp w
  = (Ok (withEntry item fp (loaded s (fs w))),
     on_fs (set_index (Some (withEntry item fp (loaded s (fs w))))) w).
Proof.
  intros Hn Hf. unfold AddBackup, bind. rewrite (update_nil _ _ w Hn).
  destruct (addBackupMutator_cases item fp (loaded s (fs w))) as [[Ht _]|[_ Hc]];
    [contradiction|].
  rewrite Hc. unfold ret, loaded. simpl. rewrite ensureDefaults_withEntry.
  reflexivity.
Qed.
Lemma string_length_append (s1 s2 : string) :
  String.length (s1 +:+ s2) = (String.length s1 + String.length s2)%nat.
Proof.
  induction s1 as [|a s1 IH]; simpl; [reflexivity|rewrite IH; reflexivity].
Qed.

Lemma FormatInt_inj z1 z2 : FormatInt z1 = FormatInt z2 -> z1 = z2.
Proof.
  unfold FormatInt. intros H. apply DecimalZ.to_int_inj.
  pose proof (NilEmpty.isi (Z.to_int z1)) as H1.
  pose proof (NilEmpty.isi (Z.to_int z2)) as H2.
  congruence.
Qed.

Lemma retryLabel_inj base i j : retryLabel base i = retryLabel base j -> i = j.
Proof.
  unfold retryLabel. intros H.
  destruct (decide (i = 0)) as [->|Hi]; destruct (decide (j = 0)) as [->|Hj];
    try reflexivity.
  - exfalso. apply (f_equal String.length) in H.
    rewrite string_length_append in H. simpl in H. lia.
  - exfalso. apply (f_equal String.length) in H.
    rewrite string_length_append in H. simpl in H. lia.
  - apply (inj (String.append base)) in H.
    apply (inj (String.append "-")) in H. apply FormatInt_inj, H.
Qed.

Lemma wrap64_small z : - 2 ^ 63 <= z < 2 ^ 63 -> wrap64 z = z.
Proof. intros H. unfold wrap64. rewrite Z.mod_small; lia. Qed.

Lemma set_Remark_same it : set_Remark (Remark it) it = it.
Proof. destruct it; reflexivity. Qed.

(** The step of the loop of [persistBackup] from attempt [k] to attempt
    [k + 1]. *)
Lemma persistLoop_next_label base item0 (k : Z) :
  0 <= k ->
  set_Remark (base +:+ "-" +:+ FormatInt (k + 1))
    (set_Remark (retryLabel base k) item0)
  = set_Remark (retryLabel base (k + 1)) item0.
Proof.
  intros Hk. unfold retryLabel at 2.
  destruct (decide (k + 1 = 0)); [lia|]. reflexivity.
Qed.

(** Every way the loop of [persistBackup] can end, whatever the
    schedule: the entry committed under one of its labels, or an error
    and the files as they were, the error being a failed system call or,
    on a manual trigger only, the label conflict. *)
Lemma persistLoop_outcome st base fp isAuto : forall fuel item c w r w',
  persistLoop fuel st base item c fp isAuto w = Some (r, w') ->
  match r with
  | None =>
      exists label,
        ~ takenByOther (loaded st (fs w)) (ID item) label
        /\ fs w' = set_index
                     (Some (withEntry (set_Remark label item) fp (loaded st (fs w))))
                     (fs w)
  | Some e =>
      fs w' = fs w
      /\ (isIOError e = true \/ (isAuto = false /\ e = ErrRemarkExists))
  end.
Proof.
  induction fuel as [|fuel IH]; intros item c w r w' H; simpl in H; [discriminate|].
  pose proof (outcome_AddBackup st item fp (fs w) w eq_refl) as Ha.
  destruct (AddBackup st item fp w) as [[idx'|e] w1].
  - injection H as <- <-. destruct Ha as (Hfree & -> & Hfs).
    exists (Remark item). rewrite set_Remark_same. auto.
  - destruct Ha as [Hfs [Hio|[-> Ht]]].
    + rewrite (isIOError_not_conflict e Hio) in H. simpl in H.
      injection H as <- <-. auto.
    + simpl in H. destruct isAuto.
      * apply IH in H. rewrite Hfs in H. destruct r as [e|].
        -- exact H.
        -- destruct H as (label & Hfree & Hw'). exists label. simpl in *. auto.
      * injection H as <- <-. auto.
Qed.
(** With no failing system call: the loop of [persistBackup], on an
    automatic trigger, passes over the labels that other entries hold and
    commits the entry under the first label that is free. *)
Lemma persistLoop_retries st base item0 fp : forall (m : nat) (k : Z) fuel w,
  faults w = [] ->
  0 <= k -> k + Z.of_nat m + 1 < 2 ^ 63 ->
  (m < fuel)%nat ->
  (forall i, k <= i < k + Z.of_nat m ->
     takenByOther (loaded st (fs w)) (ID item0) (retryLabel base i)) ->
  ~ takenByOther (loaded st (fs w)) (ID item0) (retryLabel base (k + Z.of_nat m)) ->
  persistLoop fuel st base (set_Remark (retryLabel base k) item0) (k + 1) fp true w
  = Some (None,
          on_fs (set_index
                   (Some (withEntry (set_Remark (retryLabel base (k + Z.of_nat m)) item0)
                            fp (loaded st (fs w))))) w).
Proof.
  induction m as [|m IH]; intros k fuel w Hn Hk Hb Hfuel Htaken Hfree;
    (destruct fuel as [|fuel]; [lia|]); simpl.
  - rewrite Z.add_0_r in *. rewrite AddBackup_nil_free by assumption. reflexivity.
  - rewrite AddBackup_nil_taken; [|exact Hn|apply Htaken; lia]. simpl.
    rewrite persistLoop_next_label by exact Hk.
    rewrite wrap64_small by lia.
    replace (k + Z.of_nat (S m)) with ((k + 1) + Z.of_nat m) in * by lia.
    apply IH; try assumption; try lia.
    intros i Hi. apply Htaken. lia.
Qed.

(** With no failing system call: as long as other entries hold the
    labels, the loop of [persistBackup] on an automatic trigger goes on. *)
Lemma persistLoop_still_retrying st base item0 fp : forall fuel (k : Z) w,
  faults w = [] ->
  0 <= k -> k + Z.of_nat fuel + 1 < 2 ^ 63 ->
  (forall i, k <= i < k + Z.of_nat fuel ->
     takenByOther (loaded st (fs w)) (ID item0) (retryLabel base i)) ->
  persistLoop fuel st base (set_Remark (retryLabel base k) item0) (k + 1) fp true w
  = None.
Proof.
  induction fuel as [|fuel IH]; intros k w Hn Hk Hb Htaken; simpl; [reflexivity|].
  rewrite AddBackup_nil_taken; [|exact Hn|apply Htaken; lia]. simpl.
  rewrite persistLoop_next_label by exact Hk.
  rewrite wrap64_small by lia.
  apply IH; try assumption; try lia.
  intros i Hi. apply Htaken. lia.
Qed.

(** On a manual trigger the conflict is returned at once. *)
Lemma persistLoop_manual_conflict st base item fp fuel c w :
  faults w = [] ->
  takenByOther (loaded st (fs w)) (ID item) (Remark item) ->
  persistLoop (S fuel) st base item c fp false w = Some (Some ErrRemarkExists, w).
Proof.
  intros Hn Ht. simpl. rewrite AddBackup_nil_taken by assumption. reflexivity.
Qed.
Lemma crowdedRemarks_lookup base n (i : nat) :
  (i < n)%nat ->
  exists k, crowdedRemarks base n !! retryLabel base (Z.of_nat i)
            = Some (ID (crowdEntry base k)).
Proof.
  induction n as [|n IH]; intros Hi; [lia|]. simpl.
  destruct (decide (retryLabel base (Z.of_nat n) = retryLabel base (Z.of_nat i)))
    as [Heq|Hne].
  - rewrite Heq, lookup_insert_eq. eauto.
  - rewrite lookup_insert_ne by exact Hne. apply IH.
    destruct (decide (i = n)) as [->|]; [contradiction|lia].
Qed.

Lemma crowdedIndex_taken st base n d id (i : Z) :
  index d = Some (crowdedIndex base n) ->
  base <> "" ->
  String.get 0 id <> Some "i"%char ->
  0 <= i < Z.of_nat n ->
  takenByOther (loaded st d) id (retryLabel base i).
Proof.
  intros Hd Hbase Hid Hi. unfold takenByOther, loaded. rewrite Hd. simpl. split.
  - unfold retryLabel. destruct (decide (i = 0)); [exact Hbase|].
    destruct base; [contradiction|discriminate].
  - destruct (crowdedRemarks_lookup base n (Z.to_nat i)) as [k Hk]; [lia|].
    rewrite Z2Nat.id in Hk by lia. eexists. split; [exact Hk|].
    intros <-. apply Hid. reflexivity.
Qed.

(** The labels the loop of [persistBackup] tries are pairwise different,
    so no more of them are in the label index than it has entries. *)
Lemma retry_labels_bound base (m : gmap string string) (n : nat) :
  (forall i : nat, (i < n)%nat -> is_Some (m !! retryLabel base (Z.of_nat i))) ->
  (n <= size m)%nat.
Proof.
  intros H.
  set (labels := (fun i : nat => retryLabel base (Z.of_nat i)) <$> seq 0 n).
  assert (Hnd : NoDup labels).
  { apply NoDup_fmap_2_strong; [|apply NoDup_seq].
    intros i j _ _ Heq. apply retryLabel_inj in Heq. lia. }
  assert (Hsub : (list_to_set labels : gset string) ⊆ dom m).
  { intros l Hl. apply elem_of_list_to_set in Hl.
    apply list_elem_of_fmap in Hl as (i & -> & Hi).
    apply elem_of_seq in Hi. apply elem_of_dom. apply H. lia. }
  apply subseteq_size in Hsub. rewrite size_list_to_set in Hsub by exact Hnd.
  rewrite size_dom in Hsub. unfold labels in Hsub.
  rewrite length_fmap, length_seq in Hsub. exact Hsub.
Qed.

(** With no other writer the loop of [persistBackup] ends: each attempt
    that ends in a conflict accounts for one more label of the index. *)
Lemma persistLoop_terminates st base item0 fp isAuto : forall fuel (k : nat) w,
  (forall i : nat, (i < k)%nat ->
     is_Some (Remarks (loaded st (fs w)) !! retryLabel base (Z.of_nat i))) ->
  (size (Remarks (loaded st (fs w))) < fuel + k)%nat ->
  Z.of_nat k + Z.of_nat fuel + 1 < 2 ^ 63 ->
  persistLoop fuel st base (set_Remark (retryLabel base (Z.of_nat k)) item0)
    (Z.of_nat k + 1) fp isAuto w <> None.
Proof.
  induction fuel as [|fuel IH]; intros k w Hseen Hsize Hb.
  - exfalso. apply retry_labels_bound in Hseen. lia.
  - simpl.
    pose proof (outcome_AddBackup st (set_Remark (retryLabel base (Z.of_nat k)) item0)
                  fp (fs w) w eq_refl) as Ha.
    destruct (AddBackup st (set_Remark (retryLabel base (Z.of_nat k)) item0) fp w)
      as [[idx'|e] w1]; [discriminate|].
    destruct (errors_Is e ErrRemarkExists && isAuto) eqn:Hretry; [|discriminate].
    destruct Ha as [Hfs [Hio|[-> Ht]]].
    { rewrite (isIOError_not_conflict e Hio) in Hretry. discriminate. }
    rewrite persistLoop_next_label by lia. rewrite wrap64_small by lia.
    replace (Z.of_nat k + 1) with (Z.of_nat (S k)) by lia.
    apply IH.
    + rewrite Hfs. intros i Hi. destruct (decide (i = k)) as [->|Hne].
      * destruct Ht as (_ & existing & Hl & _). cbn [Remark set_Remark] in Hl.
        rewrite Hl. eauto.
      * apply Hseen. lia.
    + rewrite Hfs. lia.
    + lia.
Qed.
(** ** Label conflicts *)

Lemma Scan_new_content fuel s isAuto remark env w f :
  faults w = [] ->
  target (fs w) = Some f ->
  LatestFingerprint (loaded (store s) (fs w)) <> fingerprintOf (statOf f) ->
  findByContentHash (Items (loaded (store s) (fs w))) (contentHashOf f) = None ->
  Scan fuel s isAuto remark env w
  = scanNewContent fuel s isAuto remark env (loaded (store s) (fs w))
      (fingerprintResOf f) (contentHashOf f) (file_data f) w.
Proof.
  intros Hn Ht Hfp Hfind. unfold Scan, Snapshot.
  rewrite (loadIndexUnlocked_nil _ w Hn), (ComputeFingerprint_nil w Hn), Ht.
  cbn [Fingerprint].
  destruct (decide (LatestFingerprint (loaded (store s) (fs w))
                    = fingerprintOf (statOf f))) as [Heq|_]; [contradiction|].
  rewrite (ComputeContentHash_nil w Hn), Ht. fold (contentHashOf f).
  rewrite Hfind. reflexivity.
Qed.

(** C3, counterexample. The label "x" is taken, a manual backup is asked
    for under that label while the target file is unchanged: the scan
    ends with "unchanged" and no label-conflict error. *)
Lemma manual_scan_taken_label_no_error :
  Remarks (loaded (store sampleService) (fs sampleWorld1)) !! "x" = Some "0b2f6c1e-0001"
  /\ Scan 4 sampleService false (Some "x") sampleEnv2 sampleWorld1
     = Some (Ok (notCreated reasonUnchanged), sampleWorld1).
Proof. vm_compute. split; reflexivity. Qed.

(** C3, as amended. A manual scan that reaches the label resolution (the
    target file is there, its signature is new, its content is new) with
    a supplied label that is taken fails with [ErrRemarkExists], and no
    file changes: no entry, no backup file, no renamed label. At commit
    time, a conflict on a manual trigger is returned as it is, and on an
    automatic trigger the commit is retried under [base-1], [base-2], ...
    and succeeds under the first of these that no other entry holds. *)
Theorem label_conflict_by_trigger (fuel : nat) (s : Service) (w : World) :
  (forall r env f,
      faults w = [] ->
      target (fs w) = Some f ->
      LatestFingerprint (loaded (store s) (fs w)) <> fingerprintOf (statOf f) ->
      findByContentHash (Items (loaded (store s) (fs w))) (contentHashOf f) = None ->
      TrimSpace r <> "" ->
      is_Some (Remarks (loaded (store s) (fs w)) !! TrimSpace r) ->
      Scan fuel s false (Some r) env w = Some (Err ErrRemarkExists, w))
  /\ (forall item fp,
        faults w = [] ->
        takenByOther (loaded (store s) (fs w)) (ID item) (Remark item) ->
        persistBackup (S fuel) s item fp false w = Some (Some ErrRemarkExists, w))
  /\ (forall item fp (m : nat),
        faults w = [] ->
        (m < fuel)%nat -> Z.of_nat m + 1 < 2 ^ 63 ->
        (forall i, 0 <= i < Z.of_nat m ->
           takenByOther (loaded (store s) (fs w)) (ID item)
             (retryLabel (Remark item) i)) ->
        ~ takenByOther (loaded (store s) (fs w)) (ID item)
            (retryLabel (Remark item) (Z.of_nat m)) ->
        persistBackup fuel s item fp true w
        = Some (None,
                on_fs (set_index
                         (Some (withEntry
                                  (set_Remark (retryLabel (Remark item) (Z.of_nat m)) item)
                                  fp (loaded (store s) (fs w))))) w)).
Proof.
  split; [|split].
  - intros r env f Hn Ht Hfp Hfind Hr [id Hl].
    rewrite (Scan_new_content fuel s false (Some r) env w f Hn Ht Hfp Hfind).
    unfold scanNewContent, prepareRemark.
    destruct (decide (TrimSpace r = "")) as [He|_]; [contradiction|].
    rewrite Hl. reflexivity.
  - intros item fp Hn Ht. unfold persistBackup.
    apply persistLoop_manual_conflict; assumption.
  - intros item fp m Hn Hm Hb Htaken Hfree. unfold persistBackup.
    pose proof (persistLoop_retries (store s) (Remark item) item fp m 0 fuel w
                  Hn (Z.le_refl 0)) as H.
    change (0 + 1) with 1 in H. rewrite !Z.add_0_l in H.
    replace (set_Remark (retryLabel (Remark item) 0) item) with item in H
      by (symmetry; apply set_Remark_same).
    apply H; assumption.
Qed.
Lemma persistBackup_still_retrying s item fp fuel w :
  faults w = [] ->
  Z.of_nat fuel + 1 < 2 ^ 63 ->
  (forall i, 0 <= i < Z.of_nat fuel ->
     takenByOther (loaded (store s) (fs w)) (ID item) (retryLabel (Remark item) i)) ->
  persistBackup fuel s item fp true w = None.
Proof.
  intros Hn Hb Htaken. unfold persistBackup.
  pose proof (persistLoop_still_retrying (store s) (Remark item) item fp fuel 0 w
                Hn (Z.le_refl 0)) as Hloop.
  change (0 + 1) with 1 in Hloop. rewrite !Z.add_0_l in Hloop.
  replace (set_Remark (retryLabel (Remark item) 0) item) with item in Hloop
    by (symmetry; apply set_Remark_same).
  apply Hloop; assumption.
Qed.

(** C7, counterexample. No retry count bounds the commit on an automatic
    trigger: for every candidate bound there is an index, holding the
    label of the entry and its renamings, on which [persistBackup] has not
    returned after that many attempts. (The bound is taken below [2^62];
    the counter of the loop is a 64-bit integer.) *)
Lemma persistBackup_has_no_retry_bound :
  ~ (exists bound : nat,
        Z.of_nat bound < 2 ^ 62
        /\ forall (s : Service) (item : BackupItem) (fp : string) (w : World),
             persistBackup bound s item fp true w <> None).
Proof.
  intros (bound & Hb & H).
  apply (H sampleService sampleAutoItem "" (crowdedWorld bound)).
  apply persistBackup_still_retrying; [reflexivity|lia|].
  intros i Hi. apply (crowdedIndex_taken _ _ bound); [reflexivity| | |exact Hi].
  - discriminate.
  - discriminate.
Qed.

(** C7, as amended. On an automatic trigger the commit has no retry
    count: [persistBackup] never returns the label conflict, only the
    error of a failed system call, in which case no file has changed; and
    with no other writer it does end, after at most one attempt more than
    the label index has entries. *)
Theorem auto_commit_retry_ends_without_bound (fuel : nat) (s : Service)
    (item : BackupItem) (fp : string) (w : World) :
  (forall e w',
      persistBackup fuel s item fp true w = Some (Some e, w') ->
      isIOError e = true /\ errors_Is e ErrRemarkExists = false /\ fs w' = fs w)
  /\ ((size (Remarks (loaded (store s) (fs w))) < fuel)%nat ->
      Z.of_nat fuel + 1 < 2 ^ 63 ->
      persistBackup fuel s item fp true w <> None).
Proof.
  split.
  - intros e w' H. unfold persistBackup in H.
    apply persistLoop_outcome in H. destruct H as [Hfs [Hio|[Hf _]]];
      [|discriminate].
    split; [exact Hio|]. split; [apply isIOError_not_conflict, Hio|exact Hfs].
  - intros Hsize Hb. unfold persistBackup.
    pose proof (persistLoop_terminates (store s) (Remark item) item fp true fuel 0 w)
      as H.
    change (Z.of_nat 0 + 1) with 1 in H.
    replace (set_Remark (retryLabel (Remark item) (Z.of_nat 0)) item) with item in H
      by (symmetry; apply set_Remark_same).
    apply H; [intros i Hi; lia|lia|lia].
Qed.
(** ** A supplied label that is blank *)

Lemma scanNewContent_blank fuel s isAuto r env idx fr hash data w3 :
  TrimSpace r = "" ->
  scanNewContent fuel s isAuto (Some r) env idx fr hash data w3
  = Some (Err errEmptyRemark, w3).
Proof.
  intros Hr. unfold scanNewContent, prepareRemark.
  destruct (decide (TrimSpace r = "")); [reflexivity|contradiction].
Qed.

Lemma loaded_set_LatestFingerprint s fp d :
  loaded s (set_index (Some (set_LatestFingerprint fp (loaded s d))) d)
  = set_LatestFingerprint fp (loaded s d).
Proof. unfold loaded at 1. simpl. apply ensureDefaults_set_LatestFingerprint. Qed.

(** C10, counterexample. A manual backup is asked for under the label
    " " while the target file is unchanged: the scan ends with "unchanged"
    and no error. *)
Lemma blank_label_scan_without_error :
  TrimSpace " " = ""
  /\ Scan 4 sampleService false (Some " ") sampleEnv2 sampleWorld1
     = Some (Ok (notCreated reasonUnchanged), sampleWorld1).
Proof. vm_compute. split; reflexivity. Qed.

(** C10, as amended. A scan given a label that is empty or all white
    space returns whatever the fuel, never creates an entry, neither under
    an empty label nor under a synthesized one, and never writes a backup
    file; and when it reaches the label resolution (the target file is
    there, its signature is new, its content is new) it fails with the
    error of [prepareRemark] and changes nothing. *)
Theorem blank_label_never_creates (fuel : nat) (s : Service) (isAuto : bool)
    (r : string) (env : ScanEnv) (w : World) :
  TrimSpace r = "" ->
  (exists res w',
      Scan fuel s isAuto (Some r) env w = Some (res, w')
      /\ target (fs w') = target (fs w)
      /\ backups (fs w') = backups (fs w)
      /\ Items (loaded (store s) (fs w')) = Items (loaded (store s) (fs w))
      /\ Remarks (loaded (store s) (fs w')) = Remarks (loaded (store s) (fs w))
      /\ (forall sr, res = Ok sr -> Created sr = false /\ Item sr = None))
  /\ (forall f,
        faults w = [] ->
        target (fs w) = Some f ->
        LatestFingerprint (loaded (store s) (fs w)) <> fingerprintOf (statOf f) ->
        findByContentHash (Items (loaded (store s) (fs w))) (contentHashOf f) = None ->
        Scan fuel s isAuto (Some r) env w = Some (Err errEmptyRemark, w)).
Proof.
  intros Hr. split.
  - pose proof (Scan_paths fuel s isAuto (Some r) env w) as P.
    inversion P as [e w' Hio Hfs Hnf Heq|w' Ht Hfs Hw Heq|f w' Ht Hfp Hfs Hw Heq
                   |f E w' Ht Hfp Hfind Hfs Heq|f w3 Ht Hfp Hfind Hfs Hw Heq].
    + exists (Err e), w'. rewrite Hfs.
      split; [reflexivity|]. do 4 (split; [reflexivity|]). discriminate.
    + exists (Ok (notCreated reasonTargetMissing)), w'. rewrite Hfs.
      split; [reflexivity|]. do 4 (split; [reflexivity|]).
      intros sr [= <-]. auto.
    + exists (Ok (notCreated reasonUnchanged)), w'. rewrite Hfs.
      split; [reflexivity|]. do 4 (split; [reflexivity|]).
      intros sr [= <-]. auto.
    + exists (Ok (notCreated reasonDuplicateContent)), w'. rewrite Hfs.
      rewrite loaded_set_LatestFingerprint.
      split; [reflexivity|]. do 4 (split; [reflexivity|]).
      intros sr [= <-]. auto.
    + exists (Err errEmptyRemark), w3. rewrite Hfs.
      split; [apply scanNewContent_blank, Hr|].
      do 4 (split; [reflexivity|]). discriminate.
  - intros f Hn Ht Hfp Hfind.
    rewrite (Scan_new_content fuel s isAuto (Some r) env w f Hn Ht Hfp Hfind).
    apply scanNewContent_blank, Hr.
Qed.
(** ** Backup files *)

Lemma ioFailure_unchanged d e d' : ioFailure d e d' -> unchanged d e d'.
Proof. intros [_ H]. exact H. Qed.

Lemma outcome_EnsureDir dir d :
  outcome (EnsureDir dir) d (fun _ d' => d' = d) (unchanged d).
Proof.
  unfold EnsureDir. destruct (decide (dir = "")).
  - apply outcome_fail. reflexivity.
  - eapply outcome_weaken; [apply outcome_MkdirAll|auto|apply ioFailure_unchanged].
Qed.

Lemma backupIsNotExist_spec name w :
  fs (snd (backupIsNotExist name w)) = fs w
  /\ (fst (backupIsNotExist name w) = true -> backups (fs w) !! name = None).
Proof.
  unfold backupIsNotExist. pose proof (fault_fs w) as Hf.
  destruct (fault w) as [[] w']; simpl in *.
  - split; [exact Hf|discriminate].
  - split; [exact Hf|]. rewrite Hf. intros H. apply bool_decide_eq_true in H. exact H.
Qed.

Lemma uniqueLoop_spec prefix : forall fuel counter w candidate w',
  uniqueLoop fuel prefix counter w = Some (candidate, w') ->
  fs w' = fs w /\ backups (fs w) !! candidate = None.
Proof.
  induction fuel as [|fuel IH]; intros counter w candidate w' H; simpl in H;
    [discriminate|].
  pose proof (backupIsNotExist_spec
                (prefix +:+ "-" +:+ FormatInt counter +:+ ".json") w) as [Hfs Hfree].
  destruct (backupIsNotExist (prefix +:+ "-" +:+ FormatInt counter +:+ ".json") w)
    as [[] w1]; simpl in *.
  - injection H as <- <-. auto.
  - apply IH in H. rewrite Hfs in H. exact H.
Qed.

Lemma EnsureUniqueFilename_spec fuel dir base w r w' :
  EnsureUniqueFilename fuel dir base w = Some (r, w') ->
  fs w' = fs w
  /\ forall filename, r = Ok filename -> backups (fs w) !! filename = None.
Proof.
  unfold EnsureUniqueFilename. intros H.
  pose proof (outcome_EnsureDir dir (fs w) w eq_refl) as Hd.
  destruct (EnsureDir dir w) as [[[]|e] w1].
  - pose proof (backupIsNotExist_spec base w1) as [Hfs Hfree].
    destruct (backupIsNotExist base w1) as [[] w2]; simpl in *.
    + injection H as <- <-. split; [congruence|]. intros fn [= <-].
      rewrite <- Hd. auto.
    + destruct (uniqueLoop fuel (TrimSuffix base ".json") 1 w2)
        as [[candidate w3]|] eqn:Hl; [|discriminate].
      injection H as <- <-. apply uniqueLoop_spec in Hl as [Hfs3 Hnone].
      split; [congruence|]. intros fn [= <-]. rewrite <- Hd, <- Hfs. exact Hnone.
  - injection H as <- <-. split; [exact Hd|]. discriminate.
Qed.

Lemma outcome_AtomicWriteFile_backup name data d :
  outcome (AtomicWriteFile_backup name data) d
    (fun _ d' => d' = set_backups (<[name := data]> (backups d)) d) (ioFailure d).
Proof.
  unfold AtomicWriteFile_backup. eapply outcome_bind; [apply outcome_writeTemp|].
  cbn beta. intros _ d1 Hd. subst d1.
  apply (outcome_rename (fun d0 => set_backups (<[name := data]> (backups d0)) d0) d).
Qed.

Lemma outcome_AtomicWriteFile_target meta data d :
  outcome (AtomicWriteFile_target meta data) d
    (fun _ d' => d' = set_target (Some (mkFile meta data)) d) (ioFailure d).
Proof.
  unfold AtomicWriteFile_target. eapply outcome_bind; [apply outcome_writeTemp|].
  cbn beta. intros _ ? ->. apply outcome_rename.
Qed.

Lemma outcome_WriteBackupFile dir name data d :
  outcome (WriteBackupFile dir name data) d
    (fun _ d' => d' = set_backups (<[name := data]> (backups d)) d) (unchanged d).
Proof.
  unfold WriteBackupFile. eapply outcome_bind; [apply outcome_EnsureDir|].
  cbn beta. intros _ d1 Hd. subst d1. eapply outcome_bind.
  - eapply outcome_weaken;
      [apply outcome_AtomicWriteFile_backup|intros a d' H; exact H
      |apply ioFailure_unchanged].
  - cbn beta. intros _ d1 Hd. subst d1. apply outcome_ret. reflexivity.
Qed.

Lemma Remove_backup_spec name w :
  fs (snd (Remove_backup name w)) = fs w
  \/ fs (snd (Remove_backup name w))
     = set_backups (delete name (backups (fs w))) (fs w).
Proof.
  unfold Remove_backup. pose proof (fault_fs w) as Hf.
  destruct (fault w) as [[] w']; simpl in *; [left; exact Hf|].
  destruct (backups (fs w') !! name); simpl; [right|left; exact Hf].
  rewrite Hf. reflexivity.
Qed.

Lemma outcome_ReadFile_backup name d :
  outcome (ReadFile_backup name) d
    (fun data d' => backups d !! name = Some data /\ d' = d) (unchanged d).
Proof.
  intros w Hw. unfold ReadFile_backup. pose proof (fault_fs w) as Hf.
  destruct (fault w) as [[] w']; simpl in Hf; [congruence|].
  rewrite Hf, Hw. destruct (backups d !! name) eqn:E; [|congruence].
  split; [reflexivity|congruence].
Qed.

Lemma findByID_Some id items it :
  findByID id items = Some it -> it ∈ items /\ ID it = id.
Proof.
  induction items as [|x items IH]; simpl; [discriminate|].
  destruct (decide (ID x = id)) as [Hx|Hx].
  - intros [= <-]. split; [left|exact Hx].
  - intros H. destruct (IH H) as [Hin Hid]. split; [right; exact Hin|exact Hid].
Qed.

Lemma outcome_FindByID s id d :
  outcome (FindByID s id) d
    (fun it d' => findByID id (Items (loaded s d)) = Some it /\ d' = d)
    (unchanged d).
Proof.
  unfold FindByID, Snapshot. eapply outcome_bind.
  - eapply outcome_weaken;
      [apply outcome_loadIndexUnlocked|intros a d' H; exact H
      |apply ioFailure_unchanged].
  - cbn beta. intros idx ? [-> ->].
    destruct (findByID id (Items (loaded s d))) eqn:E.
    + apply outcome_ret. auto.
    + apply outcome_fail. reflexivity.
Qed.
Lemma loaded_set_backups s b d : loaded s (set_backups b d) = loaded s d.
Proof. reflexivity. Qed.

Lemma loaded_set_target s t d : loaded s (set_target t d) = loaded s d.
Proof. reflexivity. Qed.

(** What the second half of a scan does to the files, whatever the
    schedule: it commits one entry, whose backup file is new and holds
    the bytes read; or it fails, the index is as before and no backup file
    that was there has changed. *)
Lemma scanNewContent_spec fuel s isAuto remark env fr hash data w3 res w' :
  scanNewContent fuel s isAuto remark env (loaded (store s) (fs w3)) fr hash data w3
  = Some (res, w') ->
  target (fs w') = target (fs w3)
  /\ backups (fs w3) ⊆ backups (fs w')
  /\ ((exists item label,
          res = Ok {| Created := true; Item := Some item; Reason := "" |}
          /\ ID item = env_uuid env
          /\ backups (fs w3) !! Filename item = None
          /\ backups (fs w') = <[Filename item := data]> (backups (fs w3))
          /\ index (fs w')
             = Some (withEntry (set_Remark label item) (Fingerprint fr)
                       (loaded (store s) (fs w3))))
      \/ ((exists e, res = Err e) /\ index (fs w') = index (fs w3))).
Proof.
  unfold scanNewContent. intros H. cbv zeta in H.
  destruct (prepareRemark fuel (loaded (store s) (fs w3)) isAuto remark
              (env_remarkNow env)) as [[finalRemark|e]|]; [| |discriminate].
  2:{ injection H as <- <-. split; [reflexivity|]. split; [reflexivity|].
      right. split; [eauto|reflexivity]. }
  destruct (EnsureUniqueFilename fuel (Config.BackupsDir (cfg s))
              (BuildBackupFilename (env_now env) hash) w3) as [[r4 w4]|] eqn:E4;
    [|discriminate].
  apply EnsureUniqueFilename_spec in E4 as [Hfs4 Hfree].
  destruct r4 as [filename|e].
  2:{ injection H as <- <-. rewrite Hfs4. split; [reflexivity|].
      split; [reflexivity|]. right. split; [eauto|reflexivity]. }
  specialize (Hfree filename eq_refl).
  pose proof (outcome_WriteBackupFile (Config.BackupsDir (cfg s)) filename data
                (fs w4) w4 eq_refl) as H5.
  destruct (WriteBackupFile (Config.BackupsDir (cfg s)) filename data w4)
    as [[fn|e] w5].
  2:{ injection H as <- <-. unfold unchanged in H5. rewrite H5, Hfs4.
      split; [reflexivity|]. split; [reflexivity|]. right. split; [eauto|].
      split; reflexivity. }
  rewrite Hfs4 in H5.
  match type of H with
  | context [persistBackup fuel s ?it ?fp isAuto w5] =>
      set (item := it) in *; destruct (persistBackup fuel s item fp isAuto w5)
        as [[[e|] w6]|] eqn:E6; [| |discriminate H]
  end.
  - (* the commit failed: the file just written is removed *)
    injection H as <- <-. unfold persistBackup in E6.
    apply persistLoop_outcome in E6 as [Hfs6 _].
    assert (Hdel : delete filename (<[filename := data]> (backups (fs w3)))
                   = backups (fs w3)).
    { rewrite delete_insert_eq. apply delete_id. exact Hfree. }
    destruct (Remove_backup_spec filename w6) as [Hr|Hr]; rewrite Hr, Hfs6, H5; simpl.
    + split; [reflexivity|]. split; [apply insert_subseteq; exact Hfree|].
      right. split; [eauto|reflexivity].
    + rewrite Hdel. split; [reflexivity|]. split; [reflexivity|].
      right. split; [eauto|reflexivity].
  - injection H as <- <-. unfold persistBackup in E6.
    apply persistLoop_outcome in E6 as (label & _ & Hfs6).
    rewrite H5 in Hfs6. rewrite loaded_set_backups in Hfs6. rewrite Hfs6. simpl.
    split; [reflexivity|]. split; [apply insert_subseteq; exact Hfree|].
    left. exists item, label. auto.
Qed.
Lemma loaded_withEntry s item fp d :
  loaded (store s) (set_index (Some (withEntry item fp (loaded (store s) d))) d)
  = withEntry item fp (loaded (store s) d).
Proof. unfold loaded at 1. simpl. apply ensureDefaults_withEntry. Qed.

Lemma Items_withEntry item fp idx : Items (withEntry item fp idx) = Items idx ++ [item].
Proof. reflexivity. Qed.

(** What a scan does to the files, whatever the schedule. *)
Lemma Scan_effect fuel s isAuto remark env w res w' :
  Scan fuel s isAuto remark env w = Some (res, w') ->
  target (fs w') = target (fs w)
  /\ backups (fs w) ⊆ backups (fs w')
  /\ ((exists item label f,
          res = Ok {| Created := true; Item := Some item; Reason := "" |}
          /\ target (fs w) = Some f
          /\ ID item = env_uuid env
          /\ backups (fs w) !! Filename item = None
          /\ backups (fs w') = <[Filename item := file_data f]> (backups (fs w))
          /\ Items (loaded (store s) (fs w'))
             = Items (loaded (store s) (fs w)) ++ [set_Remark label item])
      \/ ((forall sr, res = Ok sr -> Created sr = false)
          /\ Items (loaded (store s) (fs w')) = Items (loaded (store s) (fs w)))).
Proof.
  intros H. pose proof (Scan_paths fuel s isAuto remark env w) as P.
  rewrite H in P.
  inversion P as [e w1 Hio Hfs Hnf|w1 Ht Hfs Hw|f w1 Ht Hfp Hfs Hw
                 |f E w1 Ht Hfp Hfind Hfs|f w3 Ht Hfp Hfind Hfs Hw Heq]; subst.
  - rewrite Hfs. split; [reflexivity|]. split; [reflexivity|]. right.
    split; [discriminate|reflexivity].
  - rewrite Hfs. split; [reflexivity|]. split; [reflexivity|]. right.
    split; [intros sr [= <-]; reflexivity|reflexivity].
  - rewrite Hfs. split; [reflexivity|]. split; [reflexivity|]. right.
    split; [intros sr [= <-]; reflexivity|reflexivity].
  - rewrite Hfs, loaded_set_LatestFingerprint. split; [reflexivity|].
    split; [reflexivity|]. right.
    split; [intros sr [= <-]; reflexivity|reflexivity].
  - rewrite <- Hfs in Heq at 1. apply scanNewContent_spec in Heq.
    rewrite Hfs in Heq. destruct Heq as (Htgt & Hsub & Hcase).
    split; [exact Htgt|]. split; [exact Hsub|].
    destruct Hcase as [(item & label & -> & Hid & Hnone & Hb & Hidx)|[[e ->] Hidx]].
    + left. exists item, label, f. repeat (split; [assumption || reflexivity|]).
      assert (Hw' : fs w' = set_index
                (Some (withEntry (set_Remark label item) (fingerprintOf (statOf f))
                         (loaded (store s) (fs w))))
                (set_backups (backups (fs w')) (set_target (target (fs w')) (fs w)))).
      { destruct (fs w') as [t b i]. simpl in *. subst. reflexivity. }
      rewrite Hw'. clear Hw'.
      change (loaded (store s)
                (set_index (Some (withEntry (set_Remark label item)
                                    (fingerprintOf (statOf f)) (loaded (store s) (fs w))))
                   (set_backups (backups (fs w')) (set_target (target (fs w')) (fs w)))))
        with (loaded (store s)
                (set_index (Some (withEntry (set_Remark label item)
                                    (fingerprintOf (statOf f)) (loaded (store s) (fs w))))
                   (fs w))).
      rewrite loaded_withEntry. reflexivity.
    + right. split; [discriminate|]. unfold loaded. rewrite Hidx. reflexivity.
Qed.
(** ** Restoring, deleting, relabelling *)

(** Every way [RestoreBackup] can end, whatever the schedule. When it
    returns nil the target file holds the bytes of the backup file of the
    entry found under the id, whether or not the latest signature could
    be refreshed afterwards; when it returns an error no file has
    changed. The backup files and the entries are never touched. *)
Lemma RestoreBackup_spec s id meta w :
  let r := fst (RestoreBackup s id meta w) in
  let w' := snd (RestoreBackup s id meta w) in
  backups (fs w') = backups (fs w)
  /\ Items (loaded (store s) (fs w')) = Items (loaded (store s) (fs w))
  /\ match r with
     | None =>
         exists E data,
           findByID id (Items (loaded (store s) (fs w))) = Some E
           /\ backups (fs w) !! Filename E = Some data
           /\ target (fs w') = Some (mkFile meta data)
           /\ (index (fs w') = index (fs w)
               \/ index (fs w')
                  = Some (set_LatestFingerprint
                            (fingerprintOf (statOf (mkFile meta data)))
                            (loaded (store s) (fs w))))
     | Some e => fs w' = fs w
     end.
Proof.
  unfold RestoreBackup.
  pose proof (outcome_FindByID (store s) id (fs w) w eq_refl) as H1.
  destruct (FindByID (store s) id w) as [[E|e] w1]; simpl;
    [|unfold unchanged in H1; rewrite H1; auto].
  destruct H1 as [Hfind Hfs1].
  pose proof (outcome_ReadFile_backup (Filename E) (fs w1) w1 eq_refl) as H2.
  destruct (ReadFile_backup (Filename E) w1) as [[data|e] w2]; simpl;
    [|unfold unchanged in H2; rewrite H2, Hfs1; auto].
  destruct H2 as [Hdata Hfs2]. rewrite Hfs1 in Hdata.
  pose proof (outcome_MkdirAll (fs w2) w2 eq_refl) as H3.
  destruct (MkdirAll w2) as [[[]|e] w3]; simpl;
    [|destruct H3 as [_ H3]; rewrite H3, Hfs2, Hfs1; auto].
  pose proof (outcome_AtomicWriteFile_target meta data (fs w3) w3 eq_refl) as H4.
  destruct (AtomicWriteFile_target meta data w3) as [[[]|e] w4]; simpl;
    [|destruct H4 as [_ H4]; rewrite H4, H3, Hfs2, Hfs1; auto].
  rewrite H3, Hfs2, Hfs1 in H4.
  pose proof (outcome_ComputeFingerprint (fs w4) w4 eq_refl) as H5.
  destruct (ComputeFingerprint w4) as [[res|e] w5]; simpl.
  - destruct H5 as (f & Hf & -> & Hfs5). rewrite H4 in Hf. simpl in Hf.
    injection Hf as <-. cbn [Fingerprint].
    pose proof (outcome_UpdateLatestFingerprint (store s)
                  (fingerprintOf (statOf (mkFile meta data))) (fs w5) w5 eq_refl) as H6.
    destruct (UpdateLatestFingerprint (store s)
                (fingerprintOf (statOf (mkFile meta data))) w5) as [[idx'|e] w6]; simpl.
    + destruct H6 as [-> Hfs6]. rewrite Hfs6, Hfs5, H4.
      split; [reflexivity|]. split; [reflexivity|].
      exists E, data. split; [exact Hfind|]. split; [exact Hdata|].
      split; [reflexivity|]. right. reflexivity.
    + destruct H6 as [_ Hfs6]. rewrite Hfs6, Hfs5, H4. simpl.
      split; [reflexivity|]. split; [reflexivity|]. exists E, data. auto.
  - destruct H5 as [Hfs5 _]. rewrite Hfs5, H4. simpl.
    split; [reflexivity|]. split; [reflexivity|]. exists E, data. auto.
Qed.

Lemma Service_DeleteBackup_spec s id w :
  let r := fst (Service_DeleteBackup s id w) in
  let w' := snd (Service_DeleteBackup s id w) in
  target (fs w') = target (fs w)
  /\ match r with
     | Some e => fs w' = fs w
     | None =>
         exists removed,
           removed ∈ Items (loaded (store s) (fs w)) /\ ID removed = id
           /\ Items (loaded (store s) (fs w'))
              = filter (fun it => ID it <> id) (Items (loaded (store s) (fs w)))
           /\ (backups (fs w') = backups (fs w)
               \/ backups (fs w') = delete (Filename removed) (backups (fs w)))
     end.
Proof.
  unfold Service_DeleteBackup, Store_DeleteBackup.
  pose proof (outcome_update (store s) (deleteBackupMutator id) (fs w) w eq_refl) as H1.
  unfold bind, ret. destruct (update (store s) (deleteBackupMutator id) w)
    as [[[removed idx1]|e] w1]; cbn [fst snd].
  - destruct H1 as (idx' & Hm & Hs & Hfs1). cbn [fst snd] in *.
    destruct (deleteBackupMutator_Some _ _ _ _ Hm) as (Hin & Hid & Hitems & _).
    assert (Hl : Items (loaded (store s) (fs w1))
                 = filter (fun it => ID it <> id) (Items (loaded (store s) (fs w)))).
    { rewrite Hfs1, Hs, loaded_set_index. exact Hitems. }
    assert (Ht1 : target (fs w1) = target (fs w)) by (rewrite Hfs1; reflexivity).
    assert (Hb1 : backups (fs w1) = backups (fs w)) by (rewrite Hfs1; reflexivity).
    destruct (Remove_backup_spec (Filename removed) w1) as [Hr|Hr]; rewrite Hr.
    + split; [exact Ht1|]. exists removed. auto.
    + rewrite loaded_set_backups. split; [exact Ht1|]. exists removed.
      split; [exact Hin|]. split; [exact Hid|]. split; [exact Hl|].
      right. simpl. rewrite Hb1. reflexivity.
  - destruct H1 as [-> _]. auto.
Qed.

Lemma updateRemarkMutator_items id r idx x idx' :
  updateRemarkMutator id r idx = (x, idx', None) ->
  Filename <$> Items idx' = Filename <$> Items idx
  /\ forall E', E' ∈ Items idx' ->
       exists E, E ∈ Items idx /\ ID E' = ID E /\ Filename E' = Filename E.
Proof.
  unfold updateRemarkMutator. intros Hm.
  destruct (findIndex id (Items idx)) as [i|] eqn:Ei; [|discriminate].
  destruct (findIndex_Some _ _ _ Ei) as (item & Hi & Hid). rewrite Hi in Hm.
  destruct (decide (Remark item = r)).
  { injection Hm as _ <-. split; [reflexivity|]. intros E' HE'. eauto. }
  match type of Hm with (if ?t then _ else _) = _ => destruct t end; [discriminate|].
  injection Hm as _ <-. simpl. split.
  - rewrite list_fmap_insert. simpl. apply list_insert_id.
    rewrite list_lookup_fmap, Hi. reflexivity.
  - intros E' HE'. apply elem_of_insert_inv in HE' as [->|(j & _ & Hj)].
    + exists item. split; [eapply list_elem_of_lookup_2, Hi|]. auto.
    + exists E'. split; [eapply list_elem_of_lookup_2, Hj|]. auto.
Qed.

Lemma Service_UpdateRemark_spec s id r w :
  let w' := snd (Service_UpdateRemark s id r w) in
  target (fs w') = target (fs w)
  /\ backups (fs w') = backups (fs w)
  /\ Filename <$> Items (loaded (store s) (fs w'))
     = Filename <$> Items (loaded (store s) (fs w))
  /\ forall E', E' ∈ Items (loaded (store s) (fs w')) ->
       exists E, E ∈ Items (loaded (store s) (fs w))
                 /\ ID E' = ID E /\ Filename E' = Filename E.
Proof.
  unfold Service_UpdateRemark, Store_UpdateRemark. rewrite snd_bind_ret.
  pose proof (outcome_update (store s) (updateRemarkMutator id (TrimSpace r))
                (fs w) w eq_refl) as H1.
  destruct (update (store s) (updateRemarkMutator id (TrimSpace r)) w)
    as [[[x idx1]|e] w1]; cbn [fst snd].
  - destruct H1 as (idx' & Hm & Hs & Hfs1). cbn [fst snd] in *.
    apply updateRemarkMutator_items in Hm as [Hnames Hitems].
    rewrite Hfs1, Hs, loaded_set_index.
    split; [reflexivity|]. split; [reflexivity|]. split; assumption.
  - destruct H1 as [-> _]. split; [reflexivity|]. split; [reflexivity|].
    split; [reflexivity|]. eauto.
Qed.
(** ** Restore is exact *)

Lemma fmap_elem_eq {A B} (f : A -> B) (l : list A) a b :
  NoDup (f <$> l) -> a ∈ l -> b ∈ l -> f a = f b -> a = b.
Proof.
  induction l as [|x l IH]; intros Hnd Ha Hb Hf.
  - inversion Ha.
  - rewrite fmap_cons in Hnd. apply NoDup_cons in Hnd as [Hx Hnd].
    inversion Ha as [|? ? ? Ha']; inversion Hb as [|? ? ? Hb']; subst.
    + reflexivity.
    + exfalso. apply Hx. rewrite Hf. apply list_elem_of_fmap_2. exact Hb'.
    + exfalso. apply Hx. rewrite <- Hf. apply list_elem_of_fmap_2. exact Ha'.
    + apply IH; assumption.
Qed.

Lemma NoDup_fmap_filter_gen {A B} (f : A -> B) (P : A -> Prop)
    `{forall x, Decision (P x)} (l : list A) :
  NoDup (f <$> l) -> NoDup (f <$> filter P l).
Proof.
  induction l as [|x l IH]; intros Hnd; [exact Hnd|].
  rewrite fmap_cons in Hnd. apply NoDup_cons in Hnd as [Hx Hnd].
  destruct (decide (P x)) as [Hp|Hp].
  - rewrite filter_cons_True by exact Hp. rewrite fmap_cons. apply NoDup_cons.
    split; [|exact (IH Hnd)]. intros Hin. apply Hx.
    apply list_elem_of_fmap in Hin as (y & Hy & Hiny).
    apply list_elem_of_filter in Hiny as [_ Hiny].
    rewrite Hy. apply list_elem_of_fmap_2. exact Hiny.
  - rewrite filter_cons_False by exact Hp. exact (IH Hnd).
Qed.

Lemma BackupsInv_scan s w h fuel isAuto remark env res w' :
  BackupsInv s w h ->
  env_uuid env ∉ (ID <$> Items (loaded (store s) (fs w))) ->
  Scan fuel s isAuto remark env w = Some (res, w') ->
  BackupsInv s w' (captured env w res h).
Proof.
  intros [Hnd Hinv] Hfresh Hscan.
  destruct (Scan_effect _ _ _ _ _ _ _ _ Hscan) as (Htgt & Hsub & Hcase).
  destruct Hcase as [(item & label & f & -> & Ht & Hid & Hnone & Hb & Hitems)
                    |[Hnot Hitems]].
  - unfold captured. rewrite Ht. cbn [Created].
    assert (Hnew : forall E, E ∈ Items (loaded (store s) (fs w)) ->
              Filename E <> Filename item).
    { intros E HE Heq. destruct (Hinv E HE) as (data & _ & Hd). congruence. }
    split.
    + rewrite Hitems, fmap_app. apply NoDup_app. split; [exact Hnd|]. split.
      * intros y Hy Hy'. apply list_elem_of_singleton in Hy'. subst y.
        apply list_elem_of_fmap in Hy as (E & HE & HinE). simpl in HE.
        exact (Hnew E HinE (eq_sym HE)).
      * apply NoDup_singleton.
    + intros E HE. rewrite Hitems in HE. apply elem_of_app in HE as [HE|HE].
      * destruct (Hinv E HE) as (data & Hh & Hd). exists data. split.
        -- rewrite lookup_insert_ne; [exact Hh|]. intros Heq. apply Hfresh.
           rewrite Heq. apply list_elem_of_fmap_2. exact HE.
        -- rewrite Hb, lookup_insert_ne; [exact Hd|]. intros Heq.
           exact (Hnew E HE (eq_sym Heq)).
      * apply list_elem_of_singleton in HE. subst E. simpl.
        exists (file_data f). rewrite Hid, Hb, !lookup_insert_eq. auto.
  - assert (Hcap : captured env w res h = h).
    { unfold captured. destruct res as [sr|e]; [|reflexivity].
      rewrite (Hnot sr eq_refl). destruct (target (fs w)); reflexivity. }
    rewrite Hcap. split; [rewrite Hitems; exact Hnd|].
    intros E HE. rewrite Hitems in HE. destruct (Hinv E HE) as (data & Hh & Hd).
    exists data. split; [exact Hh|]. eapply lookup_weaken; eassumption.
Qed.

Lemma BackupsInv_restore s w h id meta :
  BackupsInv s w h -> BackupsInv s (snd (RestoreBackup s id meta w)) h.
Proof.
  intros [Hnd Hinv].
  destruct (RestoreBackup_spec s id meta w) as (Hb & Hitems & _).
  split; [rewrite Hitems; exact Hnd|]. intros E HE. rewrite Hitems in HE.
  rewrite Hb. exact (Hinv E HE).
Qed.

Lemma BackupsInv_delete s w h id :
  BackupsInv s w h -> BackupsInv s (snd (Service_DeleteBackup s id w)) h.
Proof.
  intros [Hnd Hinv].
  destruct (Service_DeleteBackup_spec s id w) as (_ & Hcase).
  destruct (fst (Service_DeleteBackup s id w)) as [e|].
  - unfold BackupsInv. rewrite Hcase. split; assumption.
  - destruct Hcase as (removed & Hin & Hid & Hitems & Hb). split.
    + rewrite Hitems. apply NoDup_fmap_filter_gen, Hnd.
    + intros E HE. rewrite Hitems in HE. apply list_elem_of_filter in HE as [Hne HE].
      destruct (Hinv E HE) as (data & Hh & Hd). exists data. split; [exact Hh|].
      destruct Hb as [->| ->]; [exact Hd|].
      rewrite lookup_delete_ne; [exact Hd|]. intros Heq. apply Hne.
      rewrite <- (fmap_elem_eq Filename _ removed E Hnd Hin HE Heq). exact Hid.
Qed.

Lemma BackupsInv_update_remark s w h id r :
  BackupsInv s w h -> BackupsInv s (snd (Service_UpdateRemark s id r w)) h.
Proof.
  intros [Hnd Hinv].
  destruct (Service_UpdateRemark_spec s id r w) as (_ & Hb & Hnames & Hitems).
  split; [rewrite Hnames; exact Hnd|]. intros E' HE'.
  destruct (Hitems E' HE') as (E & HE & Hid & Hfn).
  destruct (Hinv E HE) as (data & Hh & Hd). exists data.
  rewrite Hid, Hfn, Hb. auto.
Qed.

Lemma Run_inv s w h : Run s w h -> BackupsInv s w h.
Proof.
  induction 1 as [w Hnone|w h fuel isAuto remark env res w' _ IH Hfresh Hscan
                 |w h id meta _ IH|w h id _ IH|w h id r _ IH|w h f _ IH|w h fl _ IH].
  - unfold BackupsInv, loaded. rewrite Hnone. simpl. split; [constructor|].
    intros E HE. inversion HE.
  - eapply BackupsInv_scan; eassumption.
  - apply BackupsInv_restore, IH.
  - apply BackupsInv_delete, IH.
  - apply BackupsInv_update_remark, IH.
  - exact IH.
  - exact IH.
Qed.


(** ** The statements on the sample run *)

Lemma scan_duplicate_content_witness :
  exists sr w',
    Scan 4 sampleService false None sampleEnv2 sampleWorldTouched = Some (Ok sr, w')
    /\ Created sr = false
    /\ Reason sr = reasonDuplicateContent
    /\ Items (loaded (store sampleService) (fs w'))
       = Items (loaded (store sampleService) (fs sampleWorldTouched)).
Proof.
  destruct (scan_duplicate_content 4 sampleService false None sampleEnv2
              sampleWorldTouched sampleFileTouched sampleEntry1)
    as (r & w' & Hscan & _ & _ & Hitems & _ & _ & Hnil & _).
  - reflexivity.
  - vm_compute. discriminate.
  - vm_compute. left.
  - vm_compute. reflexivity.
  - destruct (Hnil eq_refl) as (sr & -> & Hc & _ & Hr).
    exists sr, w'. split; [exact Hscan|]. split; [exact Hc|]. split; [exact Hr|].
    exact Hitems.
Defined.


Lemma scan_missing_or_unchanged_witness :
  endsNotCreated reasonUnchanged sampleWorld1
    (Scan 4 sampleService false None sampleEnv2 sampleWorld1).
Proof.
  apply (proj1 (proj2 (scan_missing_or_unchanged 4 sampleService false None sampleEnv2
                         sampleWorld1)) sampleFile).
  - vm_compute. reflexivity.
  - vm_compute. reflexivity.
Defined.

Lemma update_mutator_error_aborts_witness :
  update (store sampleService) (addBackupMutator sampleClash "2bf9494936162405")
    sampleWorld1
  = (Err ErrRemarkExists, sampleWorld1).
Proof.
  destruct (update_mutator_error_aborts (store sampleService)
              (addBackupMutator sampleClash "2bf9494936162405") sampleWorld1 tt
              (loaded (store sampleService) (fs sampleWorld1)) ErrRemarkExists)
    as (_ & _ & _ & H).
  - vm_compute. reflexivity.
  - apply H. vm_compute. reflexivity.
Defined.

Lemma label_conflict_by_trigger_witness :
  Scan 4 sampleService false (Some " x ") sampleEnv2 sampleWorld2
  = Some (Err ErrRemarkExists, sampleWorld2).
Proof.
  apply (proj1 (label_conflict_by_trigger 4 sampleService sampleWorld2)
           " x " sampleEnv2 sampleFileChanged).
  - vm_compute. reflexivity.
  - vm_compute. reflexivity.
  - vm_compute. discriminate.
  - vm_compute. reflexivity.
  - vm_compute. discriminate.
  - vm_compute. eexists. reflexivity.
Defined.

Lemma auto_commit_retry_ends_without_bound_witness :
  persistBackup 5 sampleService sampleAutoItem "2bf9494936162405" true (crowdedWorld 3)
  <> None.
Proof.
  apply (proj2 (auto_commit_retry_ends_without_bound 5 sampleService sampleAutoItem
                  "2bf9494936162405" (crowdedWorld 3))).
  - vm_compute. lia.
  - vm_compute. reflexivity.
Defined.

Lemma blank_label_never_creates_witness :
  Scan 4 sampleService false (Some " ") sampleEnv2 sampleWorld2
  = Some (Err errEmptyRemark, sampleWorld2).
Proof.
  assert (Hr : TrimSpace " " = "") by (vm_compute; reflexivity).
  apply (proj2 (blank_label_never_creates 4 sampleService false " " sampleEnv2
                  sampleWorld2 Hr) sampleFileChanged).
  - vm_compute. reflexivity.
  - vm_compute. reflexivity.
  - vm_compute. discriminate.
  - vm_compute. reflexivity.
Defined.

Lemma delete_entry_recomputes_latest_witness :
  exists removed idx',
    Store_DeleteBackup (store sampleService) "0b2f6c1e-0002" sampleWorld3
    = (Ok removed, on_fs (set_index (Some idx')) sampleWorld3)
    /\ ID removed = "0b2f6c1e-0002"
    /\ Items idx' = [sampleEntry1]
    /\ LatestFingerprint idx' = FileFingerprint sampleEntry1.
Proof.
  destruct (delete_entry_recomputes_latest (store sampleService) sampleWorld3
              "0b2f6c1e-0002") as [Hfound _].
  - intros it Hit. vm_compute in Hit.
    apply elem_of_cons in Hit as [->|Hit];
      [|apply elem_of_cons in Hit as [->|Hit]; [|inversion Hit]];
      split; discriminate.
  - destruct Hfound as (r & w' & Hdel & [(e & _ & _ & _ & Hf)|Hok]).
    + exists sampleEntry2. split; [vm_compute; right; left|reflexivity].
    + destruct Hf. reflexivity.
    + destruct Hok as (removed & idx' & -> & _ & Hw & _ & Hid & Hitems & _ & _ & _ & Hnew).
      assert (Hl : Items idx' = [sampleEntry1]).
      { rewrite Hitems. vm_compute. reflexivity. }
      exists removed, idx'. rewrite Hdel, (Hw eq_refl).
      split; [reflexivity|]. split; [exact Hid|].
      split; [exact Hl|].
      destruct Hnew as (newest & Hin & _ & Hfp); [rewrite Hl; discriminate|].
      rewrite Hl in Hin. apply list_elem_of_singleton in Hin. subst newest.
      exact Hfp.
Defined.

Lemma sample_run : Run sampleService sampleWorld3 sampleCaptured.
Proof.
  apply (run_scan sampleService sampleWorld2
           (captured sampleEnv1 sampleWorld0 sampleResult1 ∅)
           4 true None sampleEnv2 sampleResult2 sampleWorld3).
  - apply (run_target sampleService sampleWorld1 _ (Some sampleFileChanged)).
    apply (run_scan sampleService sampleWorld0 ∅ 4 false (Some "x") sampleEnv1
             sampleResult1 sampleWorld1).
    + apply run_start. reflexivity.
    + vm_compute. apply not_elem_of_nil.
    + vm_compute. reflexivity.
  - vm_compute. intros H. apply list_elem_of_singleton in H. discriminate.
  - vm_compute. reflexivity.
Defined.


(** * Further properties of the code *)

(** ** Names tried in order *)

Lemma append_inj_r (t s1 s2 : string) : s1 +:+ t = s2 +:+ t -> s1 = s2.
Proof.
  revert s2. induction s1 as [|a s1 IH]; intros [|b s2] H.
  - reflexivity.
  - exfalso. apply (f_equal String.length) in H.
    rewrite !string_length_append in H. simpl in H. lia.
  - exfalso. apply (f_equal String.length) in H.
    rewrite !string_length_append in H. simpl in H. lia.
  - simpl in H. injection H as -> H. f_equal. apply IH, H.
Qed.

Lemma injective_keys_bound {V} (f : nat -> string) (m : gmap string V) (n : nat) :
  (forall i j : nat, f i = f j -> i = j) ->
  (forall i : nat, (i < n)%nat -> is_Some (m !! f i)) ->
  (n <= size m)%nat.
Proof.
  intros Hinj H.
  set (labels := f <$> seq 0 n).
  assert (Hnd : NoDup labels).
  { apply NoDup_fmap_2_strong; [|apply NoDup_seq]. intros i j _ _ Heq. apply Hinj, Heq. }
  assert (Hsub : (list_to_set labels : gset string) ⊆ dom m).
  { intros l Hl. apply elem_of_list_to_set in Hl.
    apply list_elem_of_fmap in Hl as (i & -> & Hi).
    apply elem_of_seq in Hi. apply elem_of_dom. apply H. lia. }
  apply subseteq_size in Hsub. rewrite size_list_to_set in Hsub by exact Hnd.
  rewrite size_dom in Hsub. unfold labels in Hsub.
  rewrite length_fmap, length_seq in Hsub. exact Hsub.
Qed.

Lemma substring_full (s : string) : substring 0 (String.length s) s = s.
Proof. induction s as [|a s IH]; simpl; [reflexivity|]. f_equal. exact IH. Qed.

Lemma substring_split (s : string) : forall n : nat,
  (n <= String.length s)%nat ->
  s = substring 0 n s +:+ substring n (String.length s - n) s.
Proof.
  induction s as [|a s IH]; intros n Hn.
  - simpl in Hn. assert (n = O) as -> by lia. reflexivity.
  - destruct n as [|n].
    + rewrite Nat.sub_0_r, substring_full. reflexivity.
    + simpl in Hn. simpl substring.
      change (String a s = String a (substring 0 n s +:+ substring n (String.length s - n) s)).
      f_equal. apply IH. lia.
Qed.

Lemma TrimSuffix_cases s suffix :
  TrimSuffix s suffix = s \/ s = TrimSuffix s suffix +:+ suffix.
Proof.
  unfold TrimSuffix.
  destruct ((String.length suffix <=? String.length s)%nat
            && String.eqb (substring (String.length s - String.length suffix)
                             (String.length suffix) s) suffix) eqn:E; [|left; reflexivity].
  right. apply andb_true_iff in E as [Hle Heq].
  apply Nat.leb_le in Hle. apply String.eqb_eq in Heq.
  pose proof (substring_split s (String.length s - String.length suffix)) as Hs.
  replace (String.length s - (String.length s - String.length suffix))%nat
    with (String.length suffix) in Hs by lia.
  rewrite Heq in Hs. apply Hs. lia.
Qed.

Lemma substring_append_r (s t : string) :
  substring (String.length s) (String.length t) (s +:+ t) = t.
Proof.
  induction s as [|a s IH]; [apply substring_full|exact IH].
Qed.

Lemma substring_append_l (s t : string) :
  substring 0 (String.length s) (s +:+ t) = s.
Proof.
  induction s as [|a s IH]; [destruct t; reflexivity|].
  change (String a (substring 0 (String.length s) (s +:+ t)) = String a s).
  f_equal. exact IH.
Qed.

Lemma TrimSuffix_append s suffix : TrimSuffix (s +:+ suffix) suffix = s.
Proof.
  unfold TrimSuffix. rewrite string_length_append.
  replace (String.length s + String.length suffix - String.length suffix)%nat
    with (String.length s) by lia.
  rewrite substring_append_r, substring_append_l, String.eqb_refl.
  replace (String.length suffix <=? String.length s + String.length suffix)%nat
    with true by (symmetry; apply Nat.leb_le; lia).
  reflexivity.
Qed.

Lemma TrimSuffix_length s suffix :
  (String.length s <= String.length (TrimSuffix s suffix) + String.length suffix)%nat.
Proof.
  destruct (TrimSuffix_cases s suffix) as [->|H]; [lia|].
  apply (f_equal String.length) in H. rewrite string_length_append in H. lia.
Qed.

Lemma fileCandidate_inj base (i j : Z) :
  fileCandidate base i = fileCandidate base j -> i = j.
Proof.
  unfold fileCandidate. intros H.
  pose proof (TrimSuffix_length base ".json") as Hlen. simpl in Hlen.
  destruct (decide (i = 0)) as [->|Hi]; destruct (decide (j = 0)) as [->|Hj];
    try reflexivity.
  - exfalso. apply (f_equal String.length) in H.
    rewrite !string_length_append in H. simpl in H. lia.
  - exfalso. apply (f_equal String.length) in H.
    rewrite !string_length_append in H. simpl in H. lia.
  - apply (inj (String.append (TrimSuffix base ".json"))) in H.
    apply (inj (String.append "-")) in H. apply append_inj_r in H.
    apply FormatInt_inj, H.
Qed.
Lemma backupIsNotExist_nil name w :
  faults w = [] ->
  backupIsNotExist name w = (bool_decide (backups (fs w) !! name = None), w).
Proof. intros H. unfold backupIsNotExist. rewrite (fault_nil w H). reflexivity. Qed.

(** With no failing system call the loop of [EnsureUniqueFilename]
    returns the first candidate that does not exist. *)
Lemma uniqueLoop_first_free base : forall (m : nat) fuel (k : Z) w,
  faults w = [] ->
  1 <= k -> k + Z.of_nat m + 1 < 2 ^ 63 ->
  (m < fuel)%nat ->
  (forall i, k <= i < k + Z.of_nat m ->
     is_Some (backups (fs w) !! fileCandidate base i)) ->
  backups (fs w) !! fileCandidate base (k + Z.of_nat m) = None ->
  uniqueLoop fuel (TrimSuffix base ".json") k w
  = Some (fileCandidate base (k + Z.of_nat m), w).
Proof.
  induction m as [|m IH]; intros fuel k w Hn Hk Hb Hfuel Htaken Hfree;
    (destruct fuel as [|fuel]; [lia|]); simpl; rewrite backupIsNotExist_nil by exact Hn.
  - rewrite Z.add_0_r in *. unfold fileCandidate in *.
    destruct (decide (k = 0)); [lia|]. rewrite Hfree.
    rewrite bool_decide_eq_true_2 by reflexivity. reflexivity.
  - destruct (Htaken k ltac:(lia)) as [x Hx]. unfold fileCandidate in Hx.
    destruct (decide (k = 0)); [lia|]. rewrite Hx.
    rewrite bool_decide_eq_false_2 by discriminate.
    rewrite wrap64_small by lia.
    replace (k + Z.of_nat (S m)) with ((k + 1) + Z.of_nat m) in * by lia.
    apply IH; try assumption; try lia.
    intros i Hi. apply Htaken. lia.
Qed.

(** Among the first [n + 1] candidates, [n] being the number of files,
    one does not exist: the first such. *)
Lemma first_free_exists {V} (f : nat -> string) (m : gmap string V) :
  (forall i j : nat, f i = f j -> i = j) ->
  exists k : nat, (k <= size m)%nat /\ m !! f k = None
    /\ forall i : nat, (i < k)%nat -> is_Some (m !! f i).
Proof.
  intros Hinj.
  assert (H : forall n : nat,
             (forall i : nat, (i < n)%nat -> is_Some (m !! f i))
             \/ exists k : nat, (k < n)%nat /\ m !! f k = None
                  /\ forall i : nat, (i < k)%nat -> is_Some (m !! f i)).
  { induction n as [|n [IH|IH]].
    - left. intros i Hi. lia.
    - destruct (m !! f n) eqn:E.
      + left. intros i Hi. destruct (decide (i = n)) as [->|]; [eauto|apply IH; lia].
      + right. exists n. split; [lia|]. split; [exact E|exact IH].
    - right. destruct IH as (k & Hk & Hnone & Hlt). exists k. split; [lia|]. auto. }
  destruct (H (S (size m))) as [Hall|(k & Hk & Hnone & Hlt)].
  - apply (injective_keys_bound f m _ Hinj) in Hall. lia.
  - exists k. split; [lia|]. auto.
Qed.

Lemma EnsureDir_nil dir w :
  faults w = [] -> dir <> "" -> EnsureDir dir w = (Ok tt, w).
Proof.
  intros Hn Hd. unfold EnsureDir. destruct (decide (dir = "")); [contradiction|].
  apply MkdirAll_nil, Hn.
Qed.

Lemma EnsureUniqueFilename_nil fuel dir base w :
  faults w = [] -> dir <> "" ->
  (size (backups (fs w)) < fuel)%nat -> Z.of_nat fuel + 1 < 2 ^ 63 ->
  exists k : nat,
    EnsureUniqueFilename fuel dir base w
    = Some (Ok (fileCandidate base (Z.of_nat k)), w)
    /\ backups (fs w) !! fileCandidate base (Z.of_nat k) = None
    /\ forall i : nat, (i < k)%nat ->
         is_Some (backups (fs w) !! fileCandidate base (Z.of_nat i)).
Proof.
  intros Hn Hd Hsize Hb.
  destruct (first_free_exists (fun i : nat => fileCandidate base (Z.of_nat i))
              (backups (fs w))) as (k & Hk & Hnone & Hlt).
  { intros i j H. apply fileCandidate_inj in H. lia. }
  exists k. split; [|auto].
  unfold EnsureUniqueFilename. rewrite EnsureDir_nil by assumption.
  rewrite backupIsNotExist_nil by exact Hn.
  destruct k as [|k].
  - change (fileCandidate base (Z.of_nat 0)) with base in *. rewrite Hnone.
    rewrite bool_decide_eq_true_2 by reflexivity. reflexivity.
  - destruct (Hlt O ltac:(lia)) as [x Hx].
    change (fileCandidate base (Z.of_nat 0)) with base in Hx. rewrite Hx.
    rewrite bool_decide_eq_false_2 by discriminate.
    rewrite (uniqueLoop_first_free base k fuel 1 w); try assumption; try lia.
    + replace (1 + Z.of_nat k) with (Z.of_nat (S k)) by lia. reflexivity.
    + intros i Hi. replace i with (Z.of_nat (Z.to_nat i)) by lia. apply Hlt. lia.
    + replace (1 + Z.of_nat k) with (Z.of_nat (S k)) by lia. exact Hnone.
Qed.

(** ** Synthesized labels *)

Lemma prepareLoop_first_free base (remarks : gmap string string) :
  forall (m : nat) fuel (k : Z),
  1 <= k -> k + Z.of_nat m + 1 < 2 ^ 63 ->
  (m < fuel)%nat ->
  (forall i, k <= i < k + Z.of_nat m -> is_Some (remarks !! retryLabel base i)) ->
  remarks !! retryLabel base (k + Z.of_nat m) = None ->
  prepareLoop fuel remarks base k = Some (retryLabel base (k + Z.of_nat m)).
Proof.
  induction m as [|m IH]; intros fuel k Hk Hb Hfuel Htaken Hfree;
    (destruct fuel as [|fuel]; [lia|]); simpl.
  - rewrite Z.add_0_r in *. unfold retryLabel in *.
    destruct (decide (k = 0)); [lia|]. rewrite Hfree. reflexivity.
  - destruct (Htaken k ltac:(lia)) as [x Hx]. unfold retryLabel in Hx.
    destruct (decide (k = 0)); [lia|]. rewrite Hx.
    rewrite wrap64_small by lia.
    replace (k + Z.of_nat (S m)) with ((k + 1) + Z.of_nat m) in * by lia.
    apply IH; try assumption; try lia.
    intros i Hi. apply Htaken. lia.
Qed.

Lemma prepareRemark_nil_label fuel idx (isAuto : bool) now :
  (size (Remarks idx) < fuel)%nat -> Z.of_nat fuel + 1 < 2 ^ 63 ->
  let base := (if isAuto then "auto-" else "manual-") +:+ stamp now in
  exists k : nat,
    prepareRemark fuel idx isAuto None now = Some (Ok (retryLabel base (Z.of_nat k)))
    /\ Remarks idx !! retryLabel base (Z.of_nat k) = None
    /\ forall i : nat, (i < k)%nat ->
         is_Some (Remarks idx !! retryLabel base (Z.of_nat i)).
Proof.
  intros Hsize Hb base.
  destruct (first_free_exists (fun i : nat => retryLabel base (Z.of_nat i))
              (Remarks idx)) as (k & Hk & Hnone & Hlt).
  { intros i j H. apply retryLabel_inj in H. lia. }
  exists k. split; [|auto].
  unfold prepareRemark. fold base.
  destruct k as [|k].
  - change (retryLabel base (Z.of_nat 0)) with base in *. rewrite Hnone. reflexivity.
  - destruct (Hlt O ltac:(lia)) as [x Hx].
    change (retryLabel base (Z.of_nat 0)) with base in Hx. rewrite Hx.
    rewrite (prepareLoop_first_free base (Remarks idx) k fuel 1); try assumption; try lia.
    + replace (1 + Z.of_nat k) with (Z.of_nat (S k)) by lia. reflexivity.
    + intros i Hi. replace i with (Z.of_nat (Z.to_nat i)) by lia. apply Hlt. lia.
    + replace (1 + Z.of_nat k) with (Z.of_nat (S k)) by lia. exact Hnone.
Qed.

Lemma retryLabel_nonempty base k : base <> "" -> retryLabel base k <> "".
Proof.
  intros Hb. unfold retryLabel. destruct (decide (k = 0)); [exact Hb|].
  destruct base; [contradiction|discriminate].
Qed.

(** Whatever [prepareRemark] returns as the label is not empty and not in
    the label index of the snapshot. *)
Lemma prepareRemark_fresh fuel idx (isAuto : bool) req now r :
  prepareRemark fuel idx isAuto req now = Some (Ok r) ->
  r <> "" /\ Remarks idx !! r = None.
Proof.
  unfold prepareRemark. destruct req as [s|].
  - destruct (decide (TrimSpace s = "")) as [|Hne]; [discriminate|].
    destruct (Remarks idx !! TrimSpace s) eqn:E; [discriminate|].
    intros [= <-]. auto.
  - set (base := (if isAuto then "auto-" else "manual-") +:+ stamp now).
    assert (Hbase : base <> "") by (unfold base; destruct isAuto; discriminate).
    destruct (Remarks idx !! base) eqn:E.
    + destruct (prepareLoop fuel (Remarks idx) base 1) as [c|] eqn:El; [|discriminate].
      intros [= <-]. clear E. revert El. generalize 1. 
      induction fuel as [|fuel IH]; intros z El; simpl in El; [discriminate|].
      destruct (Remarks idx !! (base +:+ "-" +:+ FormatInt z)) eqn:Ez.
      * apply IH in El. exact El.
      * injection El as <-. split; [|exact Ez]. destruct base; [contradiction|discriminate].
    + intros [= <-]. auto.
Qed.

(** ** A scan that stores a backup *)

Lemma not_in_index_free idx id label :
  Remarks idx !! label = None -> ~ takenByOther idx id label.
Proof. intros H (_ & existing & Hl & _). congruence. Qed.

(** When the label of the entry is free, the loop of [persistBackup]
    commits the entry as it is at the first attempt, or a system call
    fails. *)
Lemma persistLoop_free st base fp isAuto fuel item c w r w' :
  ~ takenByOther (loaded st (fs w)) (ID item) (Remark item) ->
  persistLoop fuel st base item c fp isAuto w = Some (r, w') ->
  match r with
  | None => fs w' = set_index (Some (withEntry item fp (loaded st (fs w)))) (fs w)
  | Some e => fs w' = fs w /\ isIOError e = true
  end.
Proof.
  intros Hfree H. destruct fuel as [|fuel]; simpl in H; [discriminate|].
  pose proof (outcome_AddBackup st item fp (fs w) w eq_refl) as Ha.
  destruct (AddBackup st item fp w) as [[idx'|e] w1].
  - injection H as <- <-. destruct Ha as (_ & -> & Hfs). exact Hfs.
  - destruct Ha as [Hfs [Hio|[_ Ht]]]; [|contradiction].
    rewrite (isIOError_not_conflict e Hio) in H. simpl in H.
    injection H as <- <-. auto.
Qed.

Lemma WriteBackupFile_nil dir name data w :
  faults w = [] -> dir <> "" ->
  WriteBackupFile dir name data w
  = (Ok name, on_fs (fun d => set_backups (<[name := data]> (backups d)) d) w).
Proof.
  intros Hn Hd. unfold WriteBackupFile, bind.
  rewrite EnsureDir_nil by assumption.
  rewrite AtomicWriteFile_backup_nil by exact Hn. reflexivity.
Qed.

(** Every scan that reports a new backup, whatever the schedule: the
    target file was there, its signature and its content were new to the
    index, and the entry returned is the entry stored, with the bytes of
    the file in a backup file that did not exist before. *)
Lemma Scan_created fuel s isAuto remark env w sr w' :
  Scan fuel s isAuto remark env w = Some (Ok sr, w') ->
  Created sr = true ->
  exists f filename label,
    target (fs w) = Some f
    /\ LatestFingerprint (loaded (store s) (fs w)) <> fingerprintOf (statOf f)
    /\ findByContentHash (Items (loaded (store s) (fs w))) (contentHashOf f) = None
    /\ prepareRemark fuel (loaded (store s) (fs w)) isAuto remark (env_remarkNow env)
       = Some (Ok label)
    /\ backups (fs w) !! filename = None
    /\ sr = {| Created := true;
               Item := Some (newEntry s isAuto env f filename label);
               Reason := "" |}
    /\ fs w' = withBackup s (newEntry s isAuto env f filename label) f (fs w).
Proof.
  intros H Hc. pose proof (Scan_paths fuel s isAuto remark env w) as P.
  rewrite H in P.
  inversion P as [e w1 Hio Hfs Hnf|w1 Ht Hfs Hw|f w1 Ht Hfp Hfs Hw
                 |f E w1 Ht Hfp Hfind Hfs|f w3 Ht Hfp Hfind Hfs Hw Heq]; subst;
    try discriminate Hc.
  exists f. unfold scanNewContent in Heq. cbv zeta in Heq.
  rewrite <- Hfs in Heq.
  destruct (prepareRemark fuel (loaded (store s) (fs w3)) isAuto remark
              (env_remarkNow env)) as [[label|e]|] eqn:Ep; [| |discriminate].
  2:{ discriminate. }
  destruct (EnsureUniqueFilename fuel (Config.BackupsDir (cfg s))
              (BuildBackupFilename (env_now env) (contentHashOf f)) w3)
    as [[r4 w4]|] eqn:E4; [|discriminate].
  apply EnsureUniqueFilename_spec in E4 as [Hfs4 Hfree].
  destruct r4 as [filename|e]; [|discriminate].
  specialize (Hfree filename eq_refl).
  pose proof (outcome_WriteBackupFile (Config.BackupsDir (cfg s)) filename (file_data f)
                (fs w4) w4 eq_refl) as H5.
  destruct (WriteBackupFile (Config.BackupsDir (cfg s)) filename (file_data f) w4)
    as [[fn|e] w5]; [|discriminate].
  rewrite Hfs4 in H5.
  change (FileStat.Size (Stat (fingerprintResOf f)))
    with (Z.of_nat (List.length (file_data f))) in Heq.
  change (FileStat.ModTime (Stat (fingerprintResOf f))) with (file_ModTime f) in Heq.
  change (Fingerprint (fingerprintResOf f)) with (fingerprintOf (statOf f)) in Heq.
  fold (newEntry s isAuto env f filename label) in Heq.
  destruct (persistBackup fuel s (newEntry s isAuto env f filename label)
              (fingerprintOf (statOf f)) isAuto w5) as [[[e|] w6]|] eqn:E6;
    [discriminate| |discriminate].
  injection Heq as <- <-. unfold persistBackup in E6.
  apply persistLoop_free in E6.
  2:{ apply not_in_index_free. rewrite H5, loaded_set_backups.
      apply prepareRemark_fresh in Ep. apply Ep. }
  exists filename, label. rewrite Hfs in *.
  split; [exact Ht|]. split; [exact Hfp|]. split; [exact Hfind|].
  split; [exact Ep|]. split; [exact Hfree|]. split; [reflexivity|].
  rewrite E6, H5. reflexivity.
Qed.

(** X1. With no failing system call, a scan of a target file whose
    signature and content are new to the index stores a backup: it
    returns the new entry, writes the bytes of the file under the first
    free candidate name, and commits the entry under the label asked for
    or under the first free synthesized label. The loops end within
    [fuel] steps as soon as [fuel] exceeds the number of labels and the
    number of backup files. *)
Theorem scan_stores_new_content (fuel : nat) (s : Service) (isAuto : bool)
    (remark : option string) (env : ScanEnv) (w : World) (f : File) :
  let idx := loaded (store s) (fs w) in
  faults w = [] ->
  target (fs w) = Some f ->
  LatestFingerprint idx <> fingerprintOf (statOf f) ->
  findByContentHash (Items idx) (contentHashOf f) = None ->
  Config.BackupsDir (cfg s) <> "" ->
  (forall r, remark = Some r ->
     TrimSpace r <> "" /\ Remarks idx !! TrimSpace r = None) ->
  (size (Remarks idx) < fuel)%nat ->
  (size (backups (fs w)) < fuel)%nat ->
  Z.of_nat fuel + 1 < 2 ^ 63 ->
  exists (k j : nat),
    let filename :=
      fileCandidate (BuildBackupFilename (env_now env) (contentHashOf f)) (Z.of_nat k) in
    let label :=
      match remark with
      | Some r => TrimSpace r
      | None => retryLabel (baseLabel isAuto (env_remarkNow env)) (Z.of_nat j)
      end in
    let item := newEntry s isAuto env f filename label in
    Scan fuel s isAuto remark env w
    = Some (Ok {| Created := true; Item := Some item; Reason := "" |},
            on_fs (withBackup s item f) w)
    /\ backups (fs w) !! filename = None
    /\ (forall i : nat, (i < k)%nat ->
          is_Some (backups (fs w) !!
                     fileCandidate (BuildBackupFilename (env_now env) (contentHashOf f))
                       (Z.of_nat i)))
    /\ label <> "" /\ Remarks idx !! label = None
    /\ (remark = None ->
        forall i : nat, (i < j)%nat ->
          is_Some (Remarks idx !!
                     retryLabel (baseLabel isAuto (env_remarkNow env)) (Z.of_nat i))).
Proof.
  intros idx Hn Ht Hfp Hfind Hdir Hreq Hsr Hsb Hb.
  destruct (EnsureUniqueFilename_nil fuel (Config.BackupsDir (cfg s))
              (BuildBackupFilename (env_now env) (contentHashOf f)) w Hn Hdir Hsb Hb)
    as (k & Hk & Hknone & Hklt).
  assert (Hp : exists j : nat,
             let label := match remark with
                          | Some r => TrimSpace r
                          | None => retryLabel (baseLabel isAuto (env_remarkNow env))
                                      (Z.of_nat j)
                          end in
             prepareRemark fuel idx isAuto remark (env_remarkNow env) = Some (Ok label)
             /\ (remark = None -> forall i : nat, (i < j)%nat ->
                   is_Some (Remarks idx !!
                              retryLabel (baseLabel isAuto (env_remarkNow env))
                                (Z.of_nat i)))).
  { destruct remark as [r|].
    - exists O. cbv zeta. destruct (Hreq r eq_refl) as [Hne Hnone]. split; [|discriminate].
      unfold prepareRemark. destruct (decide (TrimSpace r = "")); [contradiction|].
      rewrite Hnone. reflexivity.
    - destruct (prepareRemark_nil_label fuel idx isAuto (env_remarkNow env) Hsr Hb)
        as (j & Hj & _ & Hjlt).
      exists j. cbv zeta. split; [exact Hj|]. intros _. exact Hjlt. }
  destruct Hp as (j & Hj & Hjlt). cbv zeta in Hj.
  exists k, j. cbv zeta.
  set (filename := fileCandidate (BuildBackupFilename (env_now env) (contentHashOf f))
                     (Z.of_nat k)) in *.
  set (label := match remark with
                | Some r => TrimSpace r
                | None => retryLabel (baseLabel isAuto (env_remarkNow env)) (Z.of_nat j)
                end) in *.
  destruct (prepareRemark_fresh fuel idx isAuto remark (env_remarkNow env) label Hj)
    as [Hlne Hlnone].
  split; [|auto].
  rewrite (Scan_new_content fuel s isAuto remark env w f Hn Ht Hfp Hfind).
  unfold scanNewContent. cbv zeta. fold idx. rewrite Hj, Hk.
  rewrite WriteBackupFile_nil by assumption.
  change (FileStat.Size (Stat (fingerprintResOf f)))
    with (Z.of_nat (List.length (file_data f))).
  change (FileStat.ModTime (Stat (fingerprintResOf f))) with (file_ModTime f).
  change (Fingerprint (fingerprintResOf f)) with (fingerprintOf (statOf f)).
  fold (newEntry s isAuto env f filename label).
  unfold persistBackup. destruct fuel as [|fuel]; [lia|]. cbn [persistLoop].
  rewrite AddBackup_nil_free.
  - reflexivity.
  - exact Hn.
  - apply not_in_index_free. exact Hlnone.
Qed.

(** A label that passes the check of [prepareRemark]. *)
Lemma scan_stores_new_content_witness :
  exists item,
    Scan 4 sampleService false (Some " y ") sampleEnv2 sampleWorld2
    = Some (Ok {| Created := true; Item := Some item; Reason := "" |},
            on_fs (withBackup sampleService item sampleFileChanged) sampleWorld2)
    /\ Remark item = "y"
    /\ Filename item = "20250918-000101_38461323b18a.json".
Proof.
  destruct (scan_stores_new_content 4 sampleService false (Some " y ") sampleEnv2
              sampleWorld2 sampleFileChanged) as (k & j & H & Hnone & Hlt & _).
  - reflexivity.
  - reflexivity.
  - vm_compute. discriminate.
  - vm_compute. reflexivity.
  - discriminate.
  - intros r [= <-]. vm_compute. split; [discriminate|reflexivity].
  - vm_compute. lia.
  - vm_compute. lia.
  - vm_compute. reflexivity.
  - destruct k as [|k].
    + eexists. split; [exact H|]. split; vm_compute; reflexivity.
    + exfalso. destruct (Hlt O ltac:(lia)) as [x Hx]. vm_compute in Hx. discriminate.
Defined.

Lemma Scan_nil_unchanged fuel s isAuto remark env w f :
  faults w = [] ->
  target (fs w) = Some f ->
  LatestFingerprint (loaded (store s) (fs w)) = fingerprintOf (statOf f) ->
  Scan fuel s isAuto remark env w = Some (Ok (notCreated reasonUnchanged), w).
Proof.
  intros Hn Ht Hfp. unfold Scan, Snapshot.
  rewrite (loadIndexUnlocked_nil _ w Hn), (ComputeFingerprint_nil w Hn), Ht.
  cbn [Fingerprint].
  destruct (decide (LatestFingerprint (loaded (store s) (fs w))
                    = fingerprintOf (statOf f))) as [_|Hne]; [reflexivity|contradiction].
Qed.

Lemma loaded_withBackup s item f d :
  loaded (store s) (withBackup s item f d)
  = withEntry item (fingerprintOf (statOf f)) (loaded (store s) d).
Proof. unfold withBackup. apply (loaded_withEntry s item _ d). Qed.

(** The result of a scan that reports no new backup and no error, with
    the files it leaves. *)
Lemma Scan_not_created fuel s isAuto remark env w sr w' :
  Scan fuel s isAuto remark env w = Some (Ok sr, w') ->
  Created sr = false ->
  (sr = notCreated reasonTargetMissing /\ target (fs w) = None /\ fs w' = fs w)
  \/ (exists f, target (fs w) = Some f
        /\ ((sr = notCreated reasonUnchanged
             /\ LatestFingerprint (loaded (store s) (fs w)) = fingerprintOf (statOf f)
             /\ fs w' = fs w)
            \/ (sr = notCreated reasonDuplicateContent
                /\ (exists E, findByContentHash (Items (loaded (store s) (fs w)))
                                (contentHashOf f) = Some E)
                /\ fs w' = set_index
                             (Some (set_LatestFingerprint (fingerprintOf (statOf f))
                                      (loaded (store s) (fs w)))) (fs w)))).
Proof.
  intros H Hc. pose proof (Scan_paths fuel s isAuto remark env w) as P.
  rewrite H in P.
  inversion P as [e w1 Hio Hfs Hnf|w1 Ht Hfs Hw|f w1 Ht Hfp Hfs Hw
                 |f E w1 Ht Hfp Hfind Hfs|f w3 Ht Hfp Hfind Hfs Hw Heq]; subst.
  - left. auto.
  - right. exists f. split; [exact Ht|]. left. auto.
  - right. exists f. split; [exact Ht|]. right. split; [reflexivity|]. split; [eauto|exact Hfs].
  - exfalso. rewrite <- Hfs in Heq at 1. apply scanNewContent_spec in Heq.
    destruct Heq as (_ & _ & [(item & label & Hr & _)|[[e He] _]]).
    + injection Hr as ->. discriminate.
    + discriminate.
Qed.

(** X2. After a scan that found the target file, whatever it did with
    it and whatever failed on the way, a further scan of the untouched
    file reports "unchanged" and leaves everything as it is, whatever
    its trigger and label. *)
Theorem scan_again_reports_unchanged (fuel fuel' : nat) (s : Service)
    (isAuto isAuto' : bool) (remark remark' : option string) (env env' : ScanEnv)
    (w w' : World) (sr : ScanResult) :
  Scan fuel s isAuto remark env w = Some (Ok sr, w') ->
  Reason sr <> reasonTargetMissing ->
  faults w' = [] ->
  Scan fuel' s isAuto' remark' env' w' = Some (Ok (notCreated reasonUnchanged), w').
Proof.
  intros H Hr Hn. destruct (Created sr) eqn:Hc.
  - destruct (Scan_created _ _ _ _ _ _ _ _ H Hc)
      as (f & filename & label & Ht & _ & _ & _ & _ & _ & Hfs).
    apply (Scan_nil_unchanged fuel' s isAuto' remark' env' w' f Hn).
    + rewrite Hfs. exact Ht.
    + rewrite Hfs, loaded_withBackup. reflexivity.
  - destruct (Scan_not_created _ _ _ _ _ _ _ _ H Hc)
      as [(-> & _)|(f & Ht & [(_ & Hfp & Hfs)|(_ & _ & Hfs)])].
    + exfalso. apply Hr. reflexivity.
    + apply (Scan_nil_unchanged fuel' s isAuto' remark' env' w' f Hn).
      * rewrite Hfs. exact Ht.
      * rewrite Hfs. exact Hfp.
    + apply (Scan_nil_unchanged fuel' s isAuto' remark' env' w' f Hn).
      * rewrite Hfs. exact Ht.
      * rewrite Hfs, loaded_set_LatestFingerprint. reflexivity.
Qed.

(** The scheduler's scan right after the first manual backup of the
    sample run. *)
Lemma scan_again_reports_unchanged_witness :
  Scan 1 sampleService true None sampleEnv2 sampleWorld1
  = Some (Ok (notCreated reasonUnchanged), sampleWorld1).
Proof.
  apply (scan_again_reports_unchanged 4 1 sampleService false true (Some "x") None
           sampleEnv1 sampleEnv2 sampleWorld0 sampleWorld1
           {| Created := true; Item := Some sampleEntry1; Reason := "" |}).
  - vm_compute. reflexivity.
  - vm_compute. discriminate.
  - vm_compute. reflexivity.
Defined.

(** ** A scan that fails *)

Lemma uniqueLoop_nil_world prefix : forall fuel counter w candidate w',
  faults w = [] ->
  uniqueLoop fuel prefix counter w = Some (candidate, w') -> w' = w.
Proof.
  induction fuel as [|fuel IH]; intros counter w candidate w' Hn H; simpl in H;
    [discriminate|].
  rewrite backupIsNotExist_nil in H by exact Hn.
  destruct (bool_decide (backups (fs w) !! (prefix +:+ "-" +:+ FormatInt counter +:+ ".json")
                         = None)).
  - injection H as _ <-. reflexivity.
  - eapply IH; eassumption.
Qed.

Lemma EnsureUniqueFilename_nil_world fuel dir base w r w' :
  faults w = [] ->
  EnsureUniqueFilename fuel dir base w = Some (r, w') ->
  w' = w /\ (forall e, r = Err e -> dir = "").
Proof.
  intros Hn H. unfold EnsureUniqueFilename in H.
  destruct (decide (dir = "")) as [->|Hd].
  - simpl in H. injection H as <- <-. auto.
  - rewrite EnsureDir_nil in H by assumption.
    rewrite backupIsNotExist_nil in H by exact Hn.
    destruct (bool_decide (backups (fs w) !! base = None)).
    + injection H as <- <-. split; [reflexivity|discriminate].
    + destruct (uniqueLoop fuel (TrimSuffix base ".json") 1 w) as [[c w3]|] eqn:El;
        [|discriminate].
      injection H as <- <-. apply uniqueLoop_nil_world in El; [|exact Hn].
      split; [exact El|discriminate].
Qed.

(** The second half of a scan, when it fails: the index and the target
    file are as before; the backup directory is as before, or holds in
    addition the file that was written and could not be removed. With no
    failing system call nothing is written at all. *)
Lemma scanNewContent_error fuel s isAuto remark env fr hash data w3 e w' :
  scanNewContent fuel s isAuto remark env (loaded (store s) (fs w3)) fr hash data w3
  = Some (Err e, w') ->
  target (fs w') = target (fs w3)
  /\ index (fs w') = index (fs w3)
  /\ (backups (fs w') = backups (fs w3)
      \/ exists name, backups (fs w3) !! name = None
           /\ backups (fs w') = <[name := data]> (backups (fs w3)))
  /\ (faults w3 = [] -> w' = w3).
Proof.
  unfold scanNewContent. intros H. cbv zeta in H.
  destruct (prepareRemark fuel (loaded (store s) (fs w3)) isAuto remark
              (env_remarkNow env)) as [[finalRemark|e0]|] eqn:Ep; [| |discriminate].
  2:{ injection H as _ <-. auto. }
  destruct (EnsureUniqueFilename fuel (Config.BackupsDir (cfg s))
              (BuildBackupFilename (env_now env) hash) w3) as [[r4 w4]|] eqn:E4;
    [|discriminate].
  pose proof E4 as E4n.
  apply EnsureUniqueFilename_spec in E4 as [Hfs4 Hfree].
  destruct r4 as [filename|e4].
  2:{ injection H as _ <-. rewrite Hfs4. split; [reflexivity|]. split; [reflexivity|].
      split; [left; reflexivity|]. intros Hn.
      apply (EnsureUniqueFilename_nil_world _ _ _ _ _ _ Hn E4n). }
  specialize (Hfree filename eq_refl).
  pose proof (outcome_WriteBackupFile (Config.BackupsDir (cfg s)) filename data
                (fs w4) w4 eq_refl) as H5.
  destruct (WriteBackupFile (Config.BackupsDir (cfg s)) filename data w4)
    as [[fn|e5] w5] eqn:E5.
  2:{ injection H as _ <-. unfold unchanged in H5. rewrite H5, Hfs4.
      split; [reflexivity|]. split; [reflexivity|]. split; [left; reflexivity|].
      intros Hn. exfalso.
      destruct (EnsureUniqueFilename_nil_world _ _ _ _ _ _ Hn E4n) as [-> Hdir].
      destruct (decide (Config.BackupsDir (cfg s) = "")) as [Hd|Hd].
      - unfold EnsureUniqueFilename in E4n. rewrite Hd in E4n. simpl in E4n.
        discriminate.
      - rewrite WriteBackupFile_nil in E5 by assumption. discriminate. }
  rewrite Hfs4 in H5.
  match type of H with
  | context [persistBackup fuel s ?it ?fp isAuto w5] =>
      set (item := it) in *; destruct (persistBackup fuel s item fp isAuto w5)
        as [[[e6|] w6]|] eqn:E6; [|discriminate H|discriminate H]
  end.
  injection H as _ <-. unfold persistBackup in E6.
  pose proof E6 as E6n.
  apply persistLoop_outcome in E6 as [Hfs6 _].
  assert (Hdel : delete filename (<[filename := data]> (backups (fs w3)))
                 = backups (fs w3)).
  { rewrite delete_insert_eq. apply delete_id. exact Hfree. }
  split; [|split; [|split]].
  - destruct (Remove_backup_spec filename w6) as [Hr|Hr]; rewrite Hr, Hfs6, H5;
      reflexivity.
  - destruct (Remove_backup_spec filename w6) as [Hr|Hr]; rewrite Hr, Hfs6, H5;
      reflexivity.
  - destruct (Remove_backup_spec filename w6) as [Hr|Hr]; rewrite Hr, Hfs6, H5; simpl.
    + right. exists filename. auto.
    + left. exact Hdel.
  - intros Hn. exfalso.
    destruct (EnsureUniqueFilename_nil_world _ _ _ _ _ _ Hn E4n) as [-> _].
    destruct (decide (Config.BackupsDir (cfg s) = "")) as [Hd|Hd].
    { unfold EnsureUniqueFilename in E4n. rewrite Hd in E4n. simpl in E4n.
      discriminate. }
    rewrite WriteBackupFile_nil in E5 by assumption. injection E5 as _ <-.
    destruct fuel as [|fuel]; simpl in E6n; [discriminate|].
    rewrite AddBackup_nil_free in E6n; [discriminate|exact Hn|].
    apply not_in_index_free. apply prepareRemark_fresh in Ep. apply Ep.
Qed.

(** X3. A scan that returns an error has left the target file and the
    index file as they were and has changed no backup file that existed;
    at most the file it wrote itself stays behind, when the commit failed
    and the removal failed as well. With no failing system call a scan
    that returns an error has written nothing at all. *)
Theorem scan_error_keeps_files (fuel : nat) (s : Service) (isAuto : bool)
    (remark : option string) (env : ScanEnv) (w w' : World) (e : error) :
  Scan fuel s isAuto remark env w = Some (Err e, w') ->
  target (fs w') = target (fs w)
  /\ index (fs w') = index (fs w)
  /\ (backups (fs w') = backups (fs w)
      \/ exists f name, target (fs w) = Some f
           /\ backups (fs w) !! name = None
           /\ backups (fs w') = <[name := file_data f]> (backups (fs w)))
  /\ (faults w = [] -> w' = w).
Proof.
  intros H. pose proof (Scan_paths fuel s isAuto remark env w) as P.
  rewrite H in P.
  inversion P as [e1 w1 Hio Hfs Hnf|w1 Ht Hfs Hw|f w1 Ht Hfp Hfs Hw
                 |f E w1 Ht Hfp Hfind Hfs|f w3 Ht Hfp Hfind Hfs Hw Heq]; subst.
  - rewrite Hfs. split; [reflexivity|]. split; [reflexivity|].
    split; [left; reflexivity|]. intros Hn. contradiction.
  - rewrite <- Hfs in Heq at 1. apply scanNewContent_error in Heq.
    rewrite Hfs in Heq. destruct Heq as (Htgt & Hidx & Hb & Hnil).
    split; [exact Htgt|]. split; [exact Hidx|]. split.
    + destruct Hb as [Hb|(name & Hnone & Hb)]; [left; exact Hb|].
      right. exists f, name. auto.
    + intros Hn. rewrite <- (Hw Hn). apply Hnil. rewrite (Hw Hn). exact Hn.
Qed.

(** The commit fails at the lock directory and the removal of the file
    just written fails too: the sample index is as it was. *)
Lemma scan_error_keeps_files_witness :
  exists e w',
    Scan 4 sampleService true None sampleEnv2
      (set_faults (replicate 14 false ++ [true; true]) sampleWorld2)
    = Some (Err e, w')
    /\ target (fs w') = target (fs sampleWorld2)
    /\ index (fs w') = index (fs sampleWorld2).
Proof.
  destruct (Scan 4 sampleService true None sampleEnv2
              (set_faults (replicate 14 false ++ [true; true]) sampleWorld2))
    as [[[sr|e] w']|] eqn:E;
    [vm_compute in E; discriminate E| |vm_compute in E; discriminate E].
  exists e, w'. split; [reflexivity|].
  destruct (scan_error_keeps_files 4 sampleService true None sampleEnv2
              (set_faults (replicate 14 false ++ [true; true]) sampleWorld2) w' e E)
    as (Ht & Hi & _).
  split; [exact Ht|exact Hi].
Defined.

(** ** What holds in every state the service reaches *)

Lemma loaded_index s d d' : index d = index d' -> loaded s d = loaded s d'.
Proof. unfold loaded. intros ->. reflexivity. Qed.

Lemma captured_not_created env w res h :
  (forall sr, res = Ok sr -> Created sr = false) -> captured env w res h = h.
Proof.
  intros Hnot. unfold captured. destruct res as [sr|e]; [|reflexivity].
  rewrite (Hnot sr eq_refl). destruct (target (fs w)); reflexivity.
Qed.

(** Relabelling an entry leaves the list of entries as it is or
    replaces one entry by itself under the new label. *)
Lemma updateRemarkMutator_entries id r idx x idx' :
  updateRemarkMutator id r idx = (x, idx', None) ->
  Items idx' = Items idx
  \/ exists i item, Items idx !! i = Some item /\ ID item = id
       /\ Items idx' = <[i := set_Remark r item]> (Items idx).
Proof.
  unfold updateRemarkMutator. intros Hm.
  destruct (findIndex id (Items idx)) as [i|] eqn:Ei; [|discriminate].
  destruct (findIndex_Some _ _ _ Ei) as (item & Hi & Hid). rewrite Hi in Hm.
  destruct (decide (Remark item = r)).
  { injection Hm as _ <-. left. reflexivity. }
  match type of Hm with (if ?t then _ else _) = _ => destruct t end; [discriminate|].
  injection Hm as _ <-. right. exists i, item. auto.
Qed.

Lemma Service_UpdateRemark_entries s id r w :
  let l := Items (loaded (store s) (fs w)) in
  let l' := Items (loaded (store s) (fs (snd (Service_UpdateRemark s id r w)))) in
  l' = l
  \/ exists i item, l !! i = Some item /\ ID item = id
       /\ l' = <[i := set_Remark (TrimSpace r) item]> l.
Proof.
  unfold Service_UpdateRemark, Store_UpdateRemark. rewrite snd_bind_ret.
  pose proof (outcome_update (store s) (updateRemarkMutator id (TrimSpace r))
                (fs w) w eq_refl) as H1.
  destruct (update (store s) (updateRemarkMutator id (TrimSpace r)) w)
    as [[[x idx1]|e] w1]; cbn [fst snd].
  - destruct H1 as (idx' & Hm & Hs & Hfs1). cbn [fst snd] in *.
    apply updateRemarkMutator_entries in Hm.
    rewrite Hfs1, Hs, loaded_set_index. exact Hm.
  - destruct H1 as [-> _]. left. reflexivity.
Qed.

Lemma DigestInv_scan s w h fuel isAuto remark env res w' :
  DigestInv s w h ->
  env_uuid env ∉ (ID <$> Items (loaded (store s) (fs w))) ->
  Scan fuel s isAuto remark env w = Some (res, w') ->
  DigestInv s w' (captured env w res h).
Proof.
  intros [Hnd Hinv] Hfresh Hscan.
  assert (Hcases : (exists sr, res = Ok sr /\ Created sr = true)
                   \/ (forall sr, res = Ok sr -> Created sr = false)).
  { destruct res as [sr|e]; [|right; discriminate].
    destruct (Created sr) eqn:Hc; [left; eauto|right]. intros ? [= <-]. exact Hc. }
  destruct Hcases as [(sr & -> & Hc)|Hnot].
  - destruct (Scan_created _ _ _ _ _ _ _ _ Hscan Hc)
      as (f & filename & label & Ht & _ & Hfind & _ & _ & -> & Hfs).
    unfold captured. rewrite Ht. cbn [Created].
    unfold DigestInv. rewrite Hfs, loaded_withBackup, Items_withEntry. split.
    + rewrite fmap_app. apply NoDup_app. split; [exact Hnd|]. split.
      * intros y Hy Hy'. apply list_elem_of_singleton in Hy'. subst y.
        apply list_elem_of_fmap in Hy as (E & HE & HinE). simpl in HE.
        assert (Hex : exists E0, findByContentHash (Items (loaded (store s) (fs w)))
                                   (contentHashOf f) = Some E0).
        { apply findByContentHash_Some. exists E. auto. }
        destruct Hex as [E0 HE0]. congruence.
      * apply NoDup_singleton.
    + intros E HE. apply elem_of_app in HE as [HE|HE].
      * destruct (Hinv E HE) as (data & Hh & Hd). exists data. split; [|exact Hd].
        rewrite lookup_insert_ne; [exact Hh|]. intros Heq. apply Hfresh.
        rewrite Heq. apply list_elem_of_fmap_2. exact HE.
      * apply list_elem_of_singleton in HE. subst E. cbn [ID newEntry].
        exists (file_data f). rewrite lookup_insert_eq. auto.
  - rewrite (captured_not_created env w res h Hnot).
    destruct (Scan_effect _ _ _ _ _ _ _ _ Hscan) as (_ & _ & Hcase).
    destruct Hcase as [(item & label & f & -> & _)|[_ Hitems]].
    + specialize (Hnot _ eq_refl). discriminate.
    + unfold DigestInv. rewrite Hitems. split; assumption.
Qed.

Lemma DigestInv_restore s w h id meta :
  DigestInv s w h -> DigestInv s (snd (RestoreBackup s id meta w)) h.
Proof.
  intros [Hnd Hinv].
  destruct (RestoreBackup_spec s id meta w) as (_ & Hitems & _).
  unfold DigestInv. rewrite Hitems. split; assumption.
Qed.

Lemma DigestInv_delete s w h id :
  DigestInv s w h -> DigestInv s (snd (Service_DeleteBackup s id w)) h.
Proof.
  intros [Hnd Hinv].
  destruct (Service_DeleteBackup_spec s id w) as (_ & Hcase).
  destruct (fst (Service_DeleteBackup s id w)) as [e|].
  - unfold DigestInv. rewrite Hcase. split; assumption.
  - destruct Hcase as (removed & Hin & Hid & Hitems & Hb).
    unfold DigestInv. rewrite Hitems. split.
    + apply NoDup_fmap_filter_gen, Hnd.
    + intros E HE. apply list_elem_of_filter in HE as [_ HE]. exact (Hinv E HE).
Qed.

Lemma DigestInv_update_remark s w h id r :
  DigestInv s w h -> DigestInv s (snd (Service_UpdateRemark s id r w)) h.
Proof.
  intros [Hnd Hinv].
  destruct (Service_UpdateRemark_entries s id r w) as [Hl|(i & item & Hi & Hid & Hl)];
    unfold DigestInv; cbv zeta in Hl; rewrite Hl.
  - split; assumption.
  - split.
    + rewrite list_fmap_insert. cbn [ContentHash set_Remark].
      rewrite list_insert_id; [exact Hnd|]. rewrite list_lookup_fmap, Hi. reflexivity.
    + intros E HE. apply elem_of_insert_inv in HE as [->|(j & _ & Hj)].
      * apply (Hinv item). eapply list_elem_of_lookup_2, Hi.
      * apply Hinv. eapply list_elem_of_lookup_2, Hj.
Qed.

Lemma Run_digests s w h : Run s w h -> DigestInv s w h.
Proof.
  induction 1 as [w Hnone|w h fuel isAuto remark env res w' _ IH Hfresh Hscan
                 |w h id meta _ IH|w h id _ IH|w h id r _ IH|w h f _ IH|w h fl _ IH].
  - unfold DigestInv, loaded. rewrite Hnone. simpl. split; [constructor|].
    intros E HE. inversion HE.
  - eapply DigestInv_scan; eassumption.
  - apply DigestInv_restore, IH.
  - apply DigestInv_delete, IH.
  - apply DigestInv_update_remark, IH.
  - exact IH.
  - exact IH.
Qed.

Lemma StoreInv_withEntry idx item fp :
  StoreInv idx ->
  ID item ∉ (ID <$> Items idx) ->
  ~ takenByOther idx (ID item) (Remark item) ->
  StoreInv (withEntry item fp idx).
Proof.
  intros Hinv Hfresh Hfree.
  destruct (addBackupMutator_cases item fp idx) as [[Ht _]|[_ Hm]]; [contradiction|].
  exact (addBackupMutator_inv item fp idx tt _ Hinv Hfresh Hm).
Qed.

Lemma Scan_error_index fuel s isAuto remark env w e w' :
  Scan fuel s isAuto remark env w = Some (Err e, w') ->
  index (fs w') = index (fs w).
Proof.
  intros H. pose proof (Scan_paths fuel s isAuto remark env w) as P.
  rewrite H in P.
  inversion P as [e1 w1 Hio Hfs Hnf|w1 Ht Hfs Hw|f w1 Ht Hfp Hfs Hw
                 |f E w1 Ht Hfp Hfind Hfs|f w3 Ht Hfp Hfind Hfs Hw Heq]; subst.
  - rewrite Hfs. reflexivity.
  - rewrite <- Hfs in Heq at 1. apply scanNewContent_error in Heq.
    rewrite Hfs in Heq. apply Heq.
Qed.

Lemma StoreInv_scan s w fuel isAuto remark env res w' :
  StoreInv (loaded (store s) (fs w)) ->
  env_uuid env ∉ (ID <$> Items (loaded (store s) (fs w))) ->
  Scan fuel s isAuto remark env w = Some (res, w') ->
  StoreInv (loaded (store s) (fs w')).
Proof.
  intros Hinv Hfresh Hscan. destruct res as [sr|e].
  - destruct (Created sr) eqn:Hc.
    + destruct (Scan_created _ _ _ _ _ _ _ _ Hscan Hc)
        as (f & filename & label & _ & _ & _ & Hp & _ & _ & Hfs).
      rewrite Hfs, loaded_withBackup. apply StoreInv_withEntry.
      * exact Hinv.
      * exact Hfresh.
      * apply not_in_index_free. apply prepareRemark_fresh in Hp. apply Hp.
    + destruct (Scan_not_created _ _ _ _ _ _ _ _ Hscan Hc)
        as [(_ & _ & Hfs)|(f & _ & [(_ & _ & Hfs)|(_ & _ & Hfs)])]; rewrite Hfs.
      * exact Hinv.
      * exact Hinv.
      * rewrite loaded_set_LatestFingerprint.
        eapply StoreInv_ext; [| |exact Hinv]; reflexivity.
  - rewrite (loaded_index _ _ _ (Scan_error_index _ _ _ _ _ _ _ _ Hscan)). exact Hinv.
Qed.

Lemma StoreInv_restore s w id meta :
  StoreInv (loaded (store s) (fs w)) ->
  StoreInv (loaded (store s) (fs (snd (RestoreBackup s id meta w)))).
Proof.
  intros Hinv. destruct (RestoreBackup_spec s id meta w) as (_ & _ & Hcase).
  destruct (fst (RestoreBackup s id meta w)) as [e|].
  - rewrite Hcase. exact Hinv.
  - destruct Hcase as (E & data & _ & _ & _ & [Hidx|Hidx]).
    + rewrite (loaded_index _ _ _ Hidx). exact Hinv.
    + unfold loaded at 1. rewrite Hidx. apply StoreInv_ensureDefaults.
      eapply StoreInv_ext; [| |exact Hinv]; reflexivity.
Qed.

Lemma Remove_backup_index name w : index (fs (snd (Remove_backup name w))) = index (fs w).
Proof. destruct (Remove_backup_spec name w) as [-> | ->]; reflexivity. Qed.

Lemma StoreInv_delete s w id :
  StoreInv (loaded (store s) (fs w)) ->
  StoreInv (loaded (store s) (fs (snd (Service_DeleteBackup s id w)))).
Proof.
  intros Hinv. pose proof (runOp_inv (store s) (OpDeleteBackup id) w Hinv I) as H.
  cbn [runOp] in H. unfold Service_DeleteBackup.
  destruct (Store_DeleteBackup (store s) id w) as [[item|e] w1]; cbn [snd] in *.
  - rewrite (loaded_index _ _ _ (Remove_backup_index (Filename item) w1)). exact H.
  - exact H.
Qed.

Lemma Run_StoreInv s w h : Run s w h -> StoreInv (loaded (store s) (fs w)).
Proof.
  induction 1 as [w Hnone|w h fuel isAuto remark env res w' _ IH Hfresh Hscan
                 |w h id meta _ IH|w h id _ IH|w h id r _ IH|w h f _ IH|w h fl _ IH].
  - unfold loaded. rewrite Hnone. apply StoreInv_ensureDefaults, StoreInv_zeroIndex.
  - eapply StoreInv_scan; eassumption.
  - apply StoreInv_restore, IH.
  - apply StoreInv_delete, IH.
  - exact (runOp_inv (store s) (OpUpdateRemark id (TrimSpace r)) w IH I).
  - exact IH.
  - exact IH.
Qed.

(** X4. In every state the service reaches, no two entries of the index
    share an id, a backup file name or a content digest. *)
Theorem run_entries_pairwise_distinct (s : Service) (w : World)
    (h : gmap string (list byte)) :
  Run s w h ->
  NoDup (ID <$> Items (loaded (store s) (fs w)))
  /\ NoDup (Filename <$> Items (loaded (store s) (fs w)))
  /\ NoDup (ContentHash <$> Items (loaded (store s) (fs w))).
Proof.
  intros HR. split; [apply (Run_StoreInv s w h HR)|].
  split; [apply (Run_inv s w h HR)|apply (Run_digests s w h HR)].
Qed.

Lemma run_entries_pairwise_distinct_witness :
  NoDup (ID <$> Items (loaded (store sampleService) (fs sampleWorld3)))
  /\ NoDup (Filename <$> Items (loaded (store sampleService) (fs sampleWorld3)))
  /\ NoDup (ContentHash <$> Items (loaded (store sampleService) (fs sampleWorld3))).
Proof.
  exact (run_entries_pairwise_distinct sampleService sampleWorld3 sampleCaptured
           sample_run).
Defined.



(** X6. In every state the service reaches (scans, restores, deletions
    and relabellings, under any schedule of failing system calls) the
    non-empty labels are pairwise different and the label index holds
    exactly the labels of the entries, each with the id of its entry. *)
Theorem run_label_invariant (s : Service) (w : World) (h : gmap string (list byte)) :
  Run s w h ->
  LabelsUnique (loaded (store s) (fs w)) /\ LabelIndexExact (loaded (store s) (fs w)).
Proof.
  intros HR. pose proof (Run_StoreInv s w h HR) as Hinv.
  split; [apply StoreInv_LabelsUnique, Hinv|apply Hinv].
Qed.

Lemma run_label_invariant_witness :
  LabelsUnique (loaded (store sampleService) (fs sampleWorld3))
  /\ LabelIndexExact (loaded (store sampleService) (fs sampleWorld3)).
Proof.
  exact (run_label_invariant sampleService sampleWorld3 sampleCaptured sample_run).
Defined.

(** ** Restoring, then scanning *)

Lemma ReadFile_backup_nil name w :
  faults w = [] ->
  ReadFile_backup name w
  = match backups (fs w) !! name with
    | None => (Err ErrNotExist, w)
    | Some data => (Ok data, w)
    end.
Proof. intros H. unfold ReadFile_backup. rewrite (fault_nil w H). reflexivity. Qed.

Lemma FindByID_nil s id w :
  faults w = [] ->
  FindByID s id w
  = match findByID id (Items (loaded s (fs w))) with
    | Some it => (Ok it, w)
    | None => (Err ErrBackupNotFound, w)
    end.
Proof.
  intros H. unfold FindByID, Snapshot, bind. rewrite (loadIndexUnlocked_nil s w H).
  destruct (findByID id (Items (loaded s (fs w)))); reflexivity.
Qed.

(** With no failing system call [RestoreBackup] writes the bytes of the
    backup file to the target path and records the signature of the file
    it has written as the latest one. *)
Lemma RestoreBackup_nil s id meta w E data :
  faults w = [] ->
  findByID id (Items (loaded (store s) (fs w))) = Some E ->
  backups (fs w) !! Filename E = Some data ->
  RestoreBackup s id meta w
  = (None,
     on_fs (fun d => set_index
                       (Some (set_LatestFingerprint
                                (fingerprintOf (statOf (mkFile meta data)))
                                (loaded (store s) d)))
                       (set_target (Some (mkFile meta data)) d)) w).
Proof.
  intros Hn Hfind Hdata. unfold RestoreBackup.
  rewrite (FindByID_nil _ _ _ Hn), Hfind.
  rewrite (ReadFile_backup_nil _ _ Hn), Hdata.
  rewrite (MkdirAll_nil _ Hn).
  rewrite (AtomicWriteFile_target_nil _ _ _ Hn).
  rewrite ComputeFingerprint_nil by exact Hn. cbn [fs on_fs target set_target].
  cbn [Fingerprint].
  rewrite UpdateLatestFingerprint_nil by exact Hn. reflexivity.
Qed.

(** A scan of a target file whose content some entry already records
    returns, whatever the fuel and the schedule, and stores nothing. *)
Lemma Scan_known_content fuel s isAuto remark env w f E :
  target (fs w) = Some f ->
  findByContentHash (Items (loaded (store s) (fs w))) (contentHashOf f) = Some E ->
  exists res w',
    Scan fuel s isAuto remark env w = Some (res, w')
    /\ ((exists sr, res = Ok sr /\ Created sr = false /\ Item sr = None
           /\ (Reason sr = reasonUnchanged \/ Reason sr = reasonDuplicateContent))
        \/ exists e, res = Err e /\ isIOError e = true)
    /\ Items (loaded (store s) (fs w')) = Items (loaded (store s) (fs w))
    /\ backups (fs w') = backups (fs w)
    /\ target (fs w') = target (fs w).
Proof.
  intros Htgt Hdup. pose proof (Scan_paths fuel s isAuto remark env w) as P.
  inversion P as [e1 w3 Hio Hfs Hnf Hout|w3 Ht Hfs Hw Hout|f1 w3 Ht Hfp Hfs Hw Hout
                 |f1 E1 w3 Ht Hfp Hfind1 Hfs Hout|f1 w3 Ht Hfp Hfind1 Hfs Hw Hout].
  - exists (Err e1), w3. split; [reflexivity|]. rewrite Hfs.
    split; [right; exists e1; auto|]. auto.
  - congruence.
  - exists (Ok (notCreated reasonUnchanged)), w3. split; [reflexivity|]. rewrite Hfs.
    split; [left; exists (notCreated reasonUnchanged); auto 6|]. auto.
  - exists (Ok (notCreated reasonDuplicateContent)), w3. split; [reflexivity|].
    rewrite Hfs, loaded_set_LatestFingerprint.
    split; [left; exists (notCreated reasonDuplicateContent); auto 6|]. auto.
  - exfalso. rewrite Htgt in Ht. injection Ht as <-. congruence.
Qed.

(** X7. After a restore that returned nil, the next scan returns and
    never stores a backup: it reports not-created with the reason
    "unchanged" or, when the restore could not refresh the latest
    signature, "duplicate content", or it fails on a system call; the
    entries, the backup files and the target file stay as they were.
    With no failing system call it reports "unchanged". *)
Theorem scan_after_restore_stores_nothing (s : Service) (w : World)
    (h : gmap string (list byte)) (id : string) (meta : FileMeta) (fuel : nat)
    (isAuto : bool) (remark : option string) (env : ScanEnv) :
  Run s w h ->
  fst (RestoreBackup s id meta w) = None ->
  exists res w2,
    Scan fuel s isAuto remark env (snd (RestoreBackup s id meta w)) = Some (res, w2)
    /\ ((exists sr, res = Ok sr /\ Created sr = false /\ Item sr = None
           /\ (Reason sr = reasonUnchanged \/ Reason sr = reasonDuplicateContent))
        \/ exists e, res = Err e /\ isIOError e = true)
    /\ Items (loaded (store s) (fs w2)) = Items (loaded (store s) (fs w))
    /\ backups (fs w2) = backups (fs w)
    /\ target (fs w2) = target (fs (snd (RestoreBackup s id meta w)))
    /\ (faults w = [] ->
        exists sr, res = Ok sr /\ Created sr = false /\ Item sr = None
          /\ Reason sr = reasonUnchanged).
Proof.
  intros HR Hnil.
  destruct (RestoreBackup_spec s id meta w) as (Hb & Hitems & Hcase).
  rewrite Hnil in Hcase. destruct Hcase as (E & data & Hfind & Hdata & Htgt & _).
  destruct (findByID_Some _ _ _ Hfind) as [HE Hid].
  destruct (Run_inv s w h HR) as [_ Hbi]. destruct (Run_digests s w h HR) as [_ Hdi].
  destruct (Hbi E HE) as (data1 & Hh1 & Hfile1).
  destruct (Hdi E HE) as (data2 & Hh2 & Hhash & _).
  assert (data1 = data) as -> by congruence.
  assert (data2 = data) as -> by congruence.
  assert (Hdup : exists E0,
             findByContentHash
               (Items (loaded (store s) (fs (snd (RestoreBackup s id meta w)))))
               (contentHashOf (mkFile meta data)) = Some E0).
  { apply findByContentHash_Some. exists E. rewrite Hitems. split; [exact HE|].
    exact Hhash. }
  destruct Hdup as [E0 HE0].
  destruct (Scan_known_content fuel s isAuto remark env _ _ _ Htgt HE0)
    as (res & w2 & Hscan & Hres & Hi & Hbk & Ht).
  exists res, w2. split; [exact Hscan|]. split; [exact Hres|].
  split; [congruence|]. split; [congruence|]. split; [exact Ht|].
  intros Hn.
  rewrite (RestoreBackup_nil s id meta w E data Hn Hfind Hdata) in Hscan.
  cbn [snd] in Hscan.
  rewrite (Scan_nil_unchanged fuel s isAuto remark env _ (mkFile meta data)) in Hscan.
  - injection Hscan as <- _. exists (notCreated reasonUnchanged). auto.
  - exact Hn.
  - reflexivity.
  - reflexivity.
Qed.

(** The first backup of the sample run is restored; the scheduler scans. *)
Lemma scan_after_restore_stores_nothing_witness :
  exists sr w2,
    Scan 4 sampleService true None sampleEnv2
      (snd (RestoreBackup sampleService "0b2f6c1e-0001" sampleMeta sampleWorld3))
    = Some (Ok sr, w2)
    /\ Created sr = false /\ Reason sr = reasonUnchanged
    /\ Items (loaded (store sampleService) (fs w2)) = [sampleEntry1; sampleEntry2].
Proof.
  destruct (scan_after_restore_stores_nothing sampleService sampleWorld3 sampleCaptured
           "0b2f6c1e-0001" sampleMeta 4 true None sampleEnv2 sample_run)
    as (res & w2 & Hscan & _ & Hi & _ & _ & Hn).
  - vm_compute. reflexivity.
  - destruct Hn as (sr & -> & Hc & _ & Hr); [reflexivity|].
    exists sr, w2. split; [exact Hscan|]. split; [exact Hc|]. split; [exact Hr|].
    rewrite Hi. vm_compute. reflexivity.
Defined.

(** ** Relabelling *)

Lemma findByID_findIndex id items :
  match findByID id items with
  | Some E => exists i, findIndex id items = Some i /\ items !! i = Some E
  | None => findIndex id items = None
  end.
Proof.
  induction items as [|x items IH]; simpl; [reflexivity|].
  destruct (decide (ID x = id)).
  - exists O. auto.
  - destruct (findByID id items) as [E|].
    + destruct IH as (i & -> & Hi). exists (S i). auto.
    + rewrite IH. reflexivity.
Qed.

Lemma findByID_None id items :
  findByID id items = None <-> forall it, it ∈ items -> ID it <> id.
Proof.
  induction items as [|x items IH]; simpl.
  - split; [intros _ it Hit; inversion Hit|reflexivity].
  - destruct (decide (ID x = id)) as [Hx|Hx].
    + split; [discriminate|]. intros H. exfalso. apply (H x); [left|exact Hx].
    + rewrite IH. split.
      * intros H it Hit. inversion Hit; subst; [exact Hx|auto].
      * intros H it Hit. apply H. right. exact Hit.
Qed.

Lemma Service_UpdateRemark_nil s id r w :
  faults w = [] ->
  Service_UpdateRemark s id r w
  = match updateRemarkMutator id (TrimSpace r) (loaded (store s) (fs w)) with
    | (_, _, Some e) => (Err e, w)
    | (x, idx', None) =>
        (Ok x, on_fs (set_index (Some (ensureDefaults (targetPath (store s)) idx'))) w)
    end.
Proof.
  intros Hn. unfold Service_UpdateRemark, Store_UpdateRemark, bind.
  rewrite (update_nil _ _ _ Hn).
  destruct (updateRemarkMutator id (TrimSpace r) (loaded (store s) (fs w)))
    as [[x idx'] [e|]]; reflexivity.
Qed.

Lemma Service_UpdateRemark_error s id r w x idx' e :
  updateRemarkMutator id (TrimSpace r) (loaded (store s) (fs w)) = (x, idx', Some e) ->
  fs (snd (Service_UpdateRemark s id r w)) = fs w
  /\ (exists e', fst (Service_UpdateRemark s id r w) = Err e')
  /\ (faults w = [] -> Service_UpdateRemark s id r w = (Err e, w)).
Proof.
  intros Hm. split; [|split].
  - unfold Service_UpdateRemark, Store_UpdateRemark. rewrite snd_bind_ret.
    apply (update_mutator_error _ _ _ _ _ _ Hm).
  - destruct (update_mutator_error _ _ _ _ _ _ Hm) as (_ & (e' & He' & _) & _).
    unfold Service_UpdateRemark, Store_UpdateRemark, bind.
    destruct (update (store s) (updateRemarkMutator id (TrimSpace r)) w) as [[a|e0] w1];
      [discriminate He'|eauto].
  - intros Hn. rewrite (Service_UpdateRemark_nil _ _ _ _ Hn), Hm. reflexivity.
Qed.

(** X8. [UpdateRemark] rejects an unknown id with [ErrBackupNotFound]
    and a label that another entry holds with [ErrRemarkExists]; in both
    cases, and whatever system call fails besides, no file changes. *)
Theorem update_remark_rejected (s : Service) (id r : string) (w : World) :
  let idx := loaded (store s) (fs w) in
  ((forall it, it ∈ Items idx -> ID it <> id) ->
   fs (snd (Service_UpdateRemark s id r w)) = fs w
   /\ (exists e, fst (Service_UpdateRemark s id r w) = Err e)
   /\ (faults w = [] -> Service_UpdateRemark s id r w = (Err ErrBackupNotFound, w)))
  /\ (forall E other,
        findByID id (Items idx) = Some E ->
        Remark E <> TrimSpace r ->
        TrimSpace r <> "" ->
        Remarks idx !! TrimSpace r = Some other ->
        other <> id ->
        fs (snd (Service_UpdateRemark s id r w)) = fs w
        /\ (exists e, fst (Service_UpdateRemark s id r w) = Err e)
        /\ (faults w = [] -> Service_UpdateRemark s id r w = (Err ErrRemarkExists, w))).
Proof.
  intros idx. split.
  - intros Hnone. apply findByID_None in Hnone.
    pose proof (findByID_findIndex id (Items idx)) as Hf. rewrite Hnone in Hf.
    apply (Service_UpdateRemark_error s id r w None idx).
    unfold updateRemarkMutator. fold idx. rewrite Hf. reflexivity.
  - intros E other Hfind Hne Hr Hl Ho.
    pose proof (findByID_findIndex id (Items idx)) as Hf. rewrite Hfind in Hf.
    destruct Hf as (i & Hi & HiE).
    apply (Service_UpdateRemark_error s id r w None idx).
    unfold updateRemarkMutator. fold idx. rewrite Hi, HiE.
    destruct (decide (Remark E = TrimSpace r)); [contradiction|].
    destruct (decide (TrimSpace r <> "")); [|contradiction].
    rewrite Hl. rewrite bool_decide_eq_true_2 by exact Ho. reflexivity.
Qed.

(** The second entry of the sample run asks for the label of the first. *)
Lemma update_remark_rejected_witness :
  Service_UpdateRemark sampleService "0b2f6c1e-0002" " x " sampleWorld3
  = (Err ErrRemarkExists, sampleWorld3).
Proof.
  destruct (update_remark_rejected sampleService "0b2f6c1e-0002" " x " sampleWorld3)
    as [_ H].
  apply (H sampleEntry2 "0b2f6c1e-0001").
  - vm_compute. reflexivity.
  - vm_compute. discriminate.
  - vm_compute. discriminate.
  - vm_compute. reflexivity.
  - discriminate.
  - reflexivity.
Defined.

Lemma findByID_insert id (E' : BackupItem) : forall items i,
  findIndex id items = Some i -> ID E' = id ->
  findByID id (<[i := E']> items) = Some E'.
Proof.
  induction items as [|x items IH]; intros i Hi HE'; simpl in Hi; [discriminate|].
  destruct (decide (ID x = id)) as [Hx|Hx].
  - injection Hi as <-. simpl. destruct (decide (ID E' = id)); [reflexivity|contradiction].
  - destruct (findIndex id items) as [j|] eqn:Ej; [|discriminate].
    injection Hi as <-. simpl. destruct (decide (ID x = id)); [contradiction|].
    apply IH; auto.
Qed.

Lemma elem_of_insert_other (l : list BackupItem) i (E E' it : BackupItem) :
  l !! i = Some E -> it <> E -> it <> E' ->
  it ∈ <[i := E']> l <-> it ∈ l.
Proof.
  intros Hi HnE HnE'. split.
  - intros H. apply elem_of_insert_inv in H as [->|(j & _ & Hj)]; [contradiction|].
    eapply list_elem_of_lookup_2, Hj.
  - intros H. apply list_elem_of_lookup_1 in H as [j Hj].
    apply (list_elem_of_lookup_2 _ j). rewrite list_lookup_insert_ne; [exact Hj|].
    intros <-. congruence.
Qed.

(** X9. What a relabelling that is accepted does, with no failing system
    call: the entry found under the id carries the trimmed label (none,
    when the label is blank: no error then, unlike a scan), the label
    index maps the new label to the id and no longer holds the old one,
    and every other entry and label is as before. *)
Theorem update_remark_applies (s : Service) (id r : string) (w : World)
    (E : BackupItem) :
  let idx := loaded (store s) (fs w) in
  faults w = [] ->
  StoreInv idx ->
  findByID id (Items idx) = Some E ->
  ~ takenByOther idx id (TrimSpace r) ->
  exists idx',
    Service_UpdateRemark s id r w
    = (Ok (Some (set_Remark (TrimSpace r) E)), on_fs (set_index (Some idx')) w)
    /\ findByID id (Items idx') = Some (set_Remark (TrimSpace r) E)
    /\ (forall it, ID it <> id -> it ∈ Items idx' <-> it ∈ Items idx)
    /\ (TrimSpace r <> "" -> Remarks idx' !! TrimSpace r = Some id)
    /\ (Remark E <> TrimSpace r -> Remarks idx' !! Remark E = None)
    /\ (forall l, l <> TrimSpace r -> l <> Remark E ->
          Remarks idx' !! l = Remarks idx !! l)
    /\ StoreInv idx'.
Proof.
  intros idx Hn Hinv Hfind Hfree.
  rewrite (Service_UpdateRemark_nil _ _ _ _ Hn). fold idx.
  generalize dependent idx. intros idx. generalize (TrimSpace r). intros r'.
  intros Hinv Hfind Hfree.
  pose proof (findByID_findIndex id (Items idx)) as Hf. rewrite Hfind in Hf.
  destruct Hf as (i & Hi & HiE).
  destruct (findByID_Some _ _ _ Hfind) as [HE Hid].
  destruct (updateRemarkMutator id r' idx) as [[x idx1] oe] eqn:Hm.
  pose proof Hm as Hm0. unfold updateRemarkMutator in Hm. rewrite Hi, HiE in Hm.
  destruct (decide (Remark E = r')) as [Heq|Hne].
  - (* the entry carries the label already *)
    injection Hm as <- <- <-.
    exists (ensureDefaults (targetPath (store s)) idx).
    rewrite <- Heq, set_Remark_same.
    split; [reflexivity|]. split; [exact Hfind|]. split; [intros; reflexivity|].
    split.
    { intros Hr. apply Hinv. split; [exact Hr|]. exists E. auto. }
    split; [intros Hc; contradiction|]. split; [reflexivity|].
    apply StoreInv_ensureDefaults, Hinv.
  - assert (Htaken :
      (if decide (r' <> "")
       then match Remarks idx !! r' with
            | Some existing => bool_decide (existing <> id)
            | None => false
            end
       else false) = false).
    { destruct (decide (r' <> "")) as [Hr|]; [|reflexivity].
      destruct (Remarks idx !! r') as [existing|] eqn:El; [|reflexivity].
      apply bool_decide_eq_false_2. intros Hex. apply Hfree.
      split; [exact Hr|]. exists existing. auto. }
    rewrite Htaken in Hm. injection Hm as <- <- <-.
    eexists. split; [reflexivity|]. cbn [Items Remarks ensureDefaults set_Remarks set_Items].
    split; [apply findByID_insert; [exact Hi|exact Hid]|].
    split.
    { intros it Hit. apply (elem_of_insert_other _ i E).
      - exact HiE.
      - intros ->. contradiction.
      - intros ->. apply Hit. exact Hid. }
    split.
    { intros Hr. destruct (decide (r' <> "")); [|contradiction].
      apply lookup_insert_eq. }
    split.
    { intros _. destruct (decide (r' <> "")) as [Hr|Hr];
        destruct (decide (Remark E <> "")) as [He|He].
      - rewrite lookup_insert_ne by congruence. apply lookup_delete_eq.
      - rewrite lookup_insert_ne by congruence.
        destruct (Remarks idx !! Remark E) as [x|] eqn:Ex; [|reflexivity].
        exfalso. apply dec_stable in He. rewrite He in Ex.
        exact (StoreInv_no_empty_label idx x Hinv Ex).
      - apply lookup_delete_eq.
      - destruct (Remarks idx !! Remark E) as [x|] eqn:Ex; [|reflexivity].
        exfalso. apply dec_stable in He. rewrite He in Ex.
        exact (StoreInv_no_empty_label idx x Hinv Ex). }
    split.
    { intros l Hl1 Hl2. destruct (decide (r' <> "")) as [Hr|Hr];
        destruct (decide (Remark E <> "")) as [He|He].
      - rewrite lookup_insert_ne by congruence. apply lookup_delete_ne. congruence.
      - rewrite lookup_insert_ne by congruence. reflexivity.
      - apply lookup_delete_ne. congruence.
      - reflexivity. }
    apply StoreInv_ensureDefaults.
    exact (updateRemarkMutator_inv id r' idx _ _ Hinv Hm0).
Qed.

(** The first entry of the sample run loses its label. *)
Lemma update_remark_applies_witness :
  exists idx',
    Service_UpdateRemark sampleService "0b2f6c1e-0001" "  " sampleWorld3
    = (Ok (Some (set_Remark "" sampleEntry1)), on_fs (set_index (Some idx')) sampleWorld3)
    /\ Remarks idx' !! "x" = None.
Proof.
  destruct (update_remark_applies sampleService "0b2f6c1e-0001" "  " sampleWorld3
              sampleEntry1) as (idx' & H & _ & _ & _ & Hold & _).
  - reflexivity.
  - apply (Run_StoreInv sampleService sampleWorld3 sampleCaptured sample_run).
  - vm_compute. reflexivity.
  - intros [Hne _]. apply Hne. vm_compute. reflexivity.
  - exists idx'. split; [exact H|]. apply Hold. vm_compute. discriminate.
Defined.

(** ** Deleting *)

Lemma findByID_filter_out id (items : list BackupItem) :
  findByID id (filter (fun it => ID it <> id) items) = None.
Proof.
  apply findByID_None. intros it Hit. apply list_elem_of_filter in Hit as [Hne _].
  exact Hne.
Qed.

Lemma Remove_backup_nil name w :
  faults w = [] ->
  Remove_backup name w
  = match backups (fs w) !! name with
    | None => (Err ErrNotExist, w)
    | Some _ => (Ok tt, on_fs (set_backups (delete name (backups (fs w)))) w)
    end.
Proof. intros H. unfold Remove_backup. rewrite (fault_nil w H). reflexivity. Qed.

(** X10. Deleting a backup. Whenever [DeleteBackup] returns nil, whatever
    failed on the way, no entry is found under the id any more. With no
    failing system call, in a state the service has reached, deleting an
    id that is in the index returns nil, removes the entries of that id
    from the index and removes the backup file of the entry, and the
    backup file of every remaining entry is as it was. *)
Theorem delete_backup_effect (s : Service) (w : World) (h : gmap string (list byte))
    (id : string) :
  Run s w h ->
  (fst (Service_DeleteBackup s id w) = None ->
   findByID id (Items (loaded (store s) (fs (snd (Service_DeleteBackup s id w))))) = None)
  /\ (forall E,
        faults w = [] ->
        findByID id (Items (loaded (store s) (fs w))) = Some E ->
        exists idx',
          Service_DeleteBackup s id w
          = (None,
             on_fs (fun d => set_backups (delete (Filename E) (backups d))
                               (set_index (Some idx') d)) w)
          /\ Items idx' = filter (fun it => ID it <> id) (Items (loaded (store s) (fs w)))
          /\ forall it, it ∈ Items idx' ->
               delete (Filename E) (backups (fs w)) !! Filename it
               = backups (fs w) !! Filename it
               /\ is_Some (backups (fs w) !! Filename it)).
Proof.
  intros HR. split.
  - intros Hnil. destruct (Service_DeleteBackup_spec s id w) as (_ & Hcase).
    rewrite Hnil in Hcase. destruct Hcase as (removed & _ & _ & -> & _).
    apply findByID_filter_out.
  - intros E Hn Hfind.
    destruct (findByID_Some _ _ _ Hfind) as [HE Hid].
    pose proof (Run_StoreInv s w h HR) as [Hids _].
    destruct (Run_inv s w h HR) as [Hnames Hfiles].
    destruct (deleteBackupMutator_found id (loaded (store s) (fs w)))
      as (removed & idx1 & Hm); [exists E; auto|].
    destruct (deleteBackupMutator_Some _ _ _ _ Hm) as (Hrin & Hrid & Hitems & _).
    assert (removed = E) as ->.
    { apply (ids_elem_eq (Items (loaded (store s) (fs w)))); try assumption. congruence. }
    exists (ensureDefaults (targetPath (store s)) idx1).
    split; [|split].
    + unfold Service_DeleteBackup, Store_DeleteBackup, bind.
      rewrite (update_nil _ _ _ Hn), Hm. cbn [ret fst snd].
      rewrite Remove_backup_nil by exact Hn. cbn [fs on_fs backups set_index].
      destruct (Hfiles E HE) as (data & _ & ->). reflexivity.
    + exact Hitems.
    + intros it Hit. cbn [Items ensureDefaults] in Hit. rewrite Hitems in Hit.
      apply list_elem_of_filter in Hit as [Hne Hit].
      destruct (Hfiles it Hit) as (data & _ & Hd). split; [|rewrite Hd; eauto].
      apply lookup_delete_ne. intros Heq. apply Hne.
      rewrite <- (fmap_elem_eq Filename _ E it Hnames HE Hit Heq). exact Hid.
Qed.

(** The second backup of the sample run is deleted; the backup file of
    the first stays. *)
Lemma delete_backup_effect_witness :
  exists idx',
    Service_DeleteBackup sampleService "0b2f6c1e-0002" sampleWorld3
    = (None,
       on_fs (fun d => set_backups (delete (Filename sampleEntry2) (backups d))
                         (set_index (Some idx') d)) sampleWorld3)
    /\ Items idx' = [sampleEntry1].
Proof.
  destruct (delete_backup_effect sampleService sampleWorld3 sampleCaptured
              "0b2f6c1e-0002" sample_run) as [_ H].
  destruct (H sampleEntry2) as (idx' & Hd & Hitems & _).
  - reflexivity.
  - vm_compute. reflexivity.
  - exists idx'. split; [exact Hd|]. rewrite Hitems. vm_compute. reflexivity.
Defined.

(** ** The store on its own *)

(** X11. [AddBackup] checks the label only: an entry that is already in
    the index, id and label, is accepted again and stored a second time,
    so that two entries share an id. Ids stay unique only because every
    caller brings a fresh one. *)
Theorem add_backup_accepts_known_id (s : Store) (item : BackupItem) (fp : string)
    (w : World) :
  faults w = [] ->
  StoreInv (loaded s (fs w)) ->
  item ∈ Items (loaded s (fs w)) ->
  exists idx',
    AddBackup s item fp w = (Ok idx', on_fs (set_index (Some idx')) w)
    /\ Items idx' = Items (loaded s (fs w)) ++ [item]
    /\ ~ IdsUnique idx'.
Proof.
  intros Hn Hinv Hin.
  assert (Hfree : ~ takenByOther (loaded s (fs w)) (ID item) (Remark item)).
  { intros (Hne & existing & Hl & Hother). apply Hother.
    destruct Hinv as [Hids Hex]. apply Hex in Hl as (_ & it & Hit & Hr & <-).
    f_equal. apply (StoreInv_same_label (loaded s (fs w))); auto.
    - split; assumption.
    - congruence. }
  exists (withEntry item fp (loaded s (fs w))).
  split; [apply AddBackup_nil_free; assumption|]. split; [reflexivity|].
  unfold IdsUnique. rewrite Items_withEntry, fmap_app. intros Hnd.
  apply NoDup_app in Hnd as (_ & Hdisj & _).
  apply (Hdisj (ID item)); [apply list_elem_of_fmap_2, Hin|left].
Qed.

(** The first entry of the sample run is added once more. *)
Lemma add_backup_accepts_known_id_witness :
  exists idx',
    AddBackup (store sampleService) sampleEntry1 "2eb735e5ddcdaf13" sampleWorld1
    = (Ok idx', on_fs (set_index (Some idx')) sampleWorld1)
    /\ Items idx' = [sampleEntry1; sampleEntry1].
Proof.
  destruct (add_backup_accepts_known_id (store sampleService) sampleEntry1
              "2eb735e5ddcdaf13" sampleWorld1) as (idx' & H & Hitems & _).
  - reflexivity.
  - apply (Run_StoreInv sampleService sampleWorld1
             (captured sampleEnv1 sampleWorld0 sampleResult1 ∅)).
    apply (run_scan sampleService sampleWorld0 ∅ 4 false (Some "x") sampleEnv1).
    + apply run_start. reflexivity.
    + vm_compute. apply not_elem_of_nil.
    + vm_compute. reflexivity.
  - apply (list_elem_of_lookup_2 _ 0%nat). vm_compute. reflexivity.
  - exists idx'. split; [exact H|]. rewrite Hitems. vm_compute. reflexivity.
Defined.

Lemma outcome_Snapshot s d :
  outcome (Snapshot s) d (fun idx d' => idx = loaded s d /\ d' = d) (ioFailure d).
Proof. apply outcome_loadIndexUnlocked. Qed.

(** X12. The two lookups of the store never write, whatever fails. With
    no failing system call [FindByContentHash] answers with the first
    entry that records the digest, and with no entry and no error when
    there is none, where [FindByID] answers an unknown id with
    [ErrBackupNotFound]. *)
Theorem store_lookups (s : Store) (w : World) (key : string) :
  fs (snd (Store_FindByContentHash s key w)) = fs w
  /\ fs (snd (FindByID s key w)) = fs w
  /\ (forall E, fst (Store_FindByContentHash s key w) = Ok (Some E) ->
        E ∈ Items (loaded s (fs w)) /\ ContentHash E = key)
  /\ (fst (Store_FindByContentHash s key w) = Ok None ->
        forall E, E ∈ Items (loaded s (fs w)) -> ContentHash E <> key)
  /\ (faults w = [] ->
        Store_FindByContentHash s key w
        = (Ok (findByContentHash (Items (loaded s (fs w))) key), w)
        /\ ((forall E, E ∈ Items (loaded s (fs w)) -> ID E <> key) ->
            FindByID s key w = (Err ErrBackupNotFound, w))).
Proof.
  assert (H1 : outcome (Store_FindByContentHash s key) (fs w)
                 (fun r d' => r = findByContentHash (Items (loaded s (fs w))) key
                              /\ d' = fs w)
                 (unchanged (fs w))).
  { unfold Store_FindByContentHash. eapply outcome_bind.
    - eapply outcome_weaken;
        [apply outcome_Snapshot|intros a d' H; exact H|apply ioFailure_unchanged].
    - cbn beta. intros idx ? [-> ->]. apply outcome_ret. auto. }
  specialize (H1 w eq_refl).
  pose proof (outcome_FindByID s key (fs w) w eq_refl) as H2.
  split; [|split; [|split; [|split]]].
  - destruct (Store_FindByContentHash s key w) as [[r|e] w1]; [apply H1|exact H1].
  - destruct (FindByID s key w) as [[r|e] w1]; [apply H2|exact H2].
  - intros E HE. destruct (Store_FindByContentHash s key w) as [[r|e] w1];
      [|discriminate HE]. cbn [fst] in HE. injection HE as ->. destruct H1 as [H1 _].
    symmetry in H1. revert H1. generalize (Items (loaded s (fs w))).
    induction l as [|x l IH]; simpl; [discriminate|].
    destruct (decide (ContentHash x = key)).
    + intros [= <-]. split; [left|assumption].
    + intros H. destruct (IH H). split; [right|]; assumption.
  - intros HN E HE Hk. destruct (Store_FindByContentHash s key w) as [[r|e] w1];
      [|discriminate HN]. cbn [fst] in HN. injection HN as ->. destruct H1 as [H1 _].
    assert (Hex : exists E0, findByContentHash (Items (loaded s (fs w))) key = Some E0).
    { apply findByContentHash_Some. eauto. }
    destruct Hex as [E0 HE0]. congruence.
  - intros Hn. split.
    + unfold Store_FindByContentHash, Snapshot, bind.
      rewrite (loadIndexUnlocked_nil s w Hn). reflexivity.
    + intros Hnone. rewrite (FindByID_nil _ _ _ Hn).
      apply findByID_None in Hnone. rewrite Hnone. reflexivity.
Qed.

Lemma store_lookups_witness :
  Store_FindByContentHash (store sampleService) "0b2f6c1e-0009" sampleWorld3
  = (Ok None, sampleWorld3)
  /\ FindByID (store sampleService) "0b2f6c1e-0009" sampleWorld3
     = (Err ErrBackupNotFound, sampleWorld3).
Proof.
  destruct (store_lookups (store sampleService) sampleWorld3 "0b2f6c1e-0009")
    as (_ & _ & _ & _ & H).
  destruct (H eq_refl) as [H1 H2]. split.
  - rewrite H1. vm_compute. reflexivity.
  - apply H2. intros E HE.
    apply list_elem_of_lookup_1 in HE as [i Hi].
    destruct i as [|[|i]]; vm_compute in Hi; [| |discriminate Hi];
      injection Hi as <-; discriminate.
Defined.

(** X13. An update of the index is all or nothing, whatever system call
    fails: either it returns the index that the mutator produced, with
    the defaults filled in, and exactly that index is what the index file
    now holds; or it returns an error and the index file is as before.
    The target file and the backup files are never touched. *)
Theorem update_all_or_nothing {X} (s : Store) (mutator : Mutator X) (w : World) :
  target (fs (snd (update s mutator w))) = target (fs w)
  /\ backups (fs (snd (update s mutator w))) = backups (fs w)
  /\ match fst (update s mutator w) with
     | Ok (x, idx'') =>
         exists idx', mutator (loaded s (fs w)) = (x, idx', None)
           /\ idx'' = ensureDefaults (targetPath s) idx'
           /\ index (fs (snd (update s mutator w))) = Some idx''
           /\ loaded s (fs (snd (update s mutator w))) = idx''
     | Err e =>
         fs (snd (update s mutator w)) = fs w
         /\ (isIOError e = true
             \/ exists x idx', mutator (loaded s (fs w)) = (x, idx', Some e))
     end.
Proof.
  pose proof (outcome_update s mutator (fs w) w eq_refl) as H.
  destruct (update s mutator w) as [[[x idx'']|e] w1]; cbn [fst snd] in *.
  - destruct H as (idx' & Hm & -> & ->). split; [reflexivity|]. split; [reflexivity|].
    exists idx'. split; [exact Hm|]. split; [reflexivity|]. split; [reflexivity|].
    apply loaded_set_index.
  - destruct H as [-> H]. auto.
Qed.

(** ** The format of digests and file names *)

Lemma round_length st k w : List.length (Sha256.round st k w) = List.length st.
Proof.
  unfold Sha256.round.
  destruct st as [|a [|b [|c [|d [|e [|f [|g [|h [|i r]]]]]]]]]; reflexivity.
Qed.

Lemma rounds_length : forall ks win st,
  List.length (Sha256.rounds ks win st) = List.length st.
Proof.
  induction ks as [|k ks IH]; intros win st; [reflexivity|].
  destruct win as [|w0 rest]; [reflexivity|].
  cbn [Sha256.rounds]. rewrite IH. apply round_length.
Qed.

Lemma compress_length h block : List.length (Sha256.compress h block) = List.length h.
Proof.
  unfold Sha256.compress. rewrite List.length_map, List.length_combine, rounds_length.
  apply Nat.min_id.
Qed.

Lemma blocks_length : forall n ws h,
  List.length (Sha256.blocks n ws h) = List.length h.
Proof.
  induction n as [|n IH]; intros ws h; [reflexivity|].
  cbn [Sha256.blocks]. rewrite IH. apply compress_length.
Qed.

Lemma concat_be_bytes_length (l : list Z) :
  List.length (List.concat (List.map (Sha256.be_bytes 4) l)) = (4 * List.length l)%nat.
Proof.
  induction l as [|x l IH]; [reflexivity|].
  cbn [List.map List.concat]. rewrite List.length_app, IH.
  unfold Sha256.be_bytes. rewrite List.length_map, List.length_rev, List.length_seq.
  simpl. lia.
Qed.

(** A SHA-256 digest has thirty-two bytes. *)
Lemma Sum256_length data : List.length (Sha256.Sum256 data) = 32%nat.
Proof.
  unfold Sha256.Sum256, Sha256.sum256_Z. rewrite List.length_map.
  rewrite concat_be_bytes_length, blocks_length. reflexivity.
Qed.

Lemma EncodeToString_length bs :
  String.length (EncodeToString bs) = (2 * List.length bs)%nat.
Proof.
  induction bs as [|b bs IH]; [reflexivity|].
  cbn [EncodeToString String.length List.length]. rewrite IH. lia.
Qed.





Lemma allChars_substring p (s : string) : forall n : nat,
  allChars p s = true -> allChars p (substring 0 n s) = true.
Proof.
  induction s as [|a s IH]; intros n H.
  - destruct n; reflexivity.
  - destruct n as [|n]; [reflexivity|]. simpl in *.
    apply andb_true_iff in H as [Ha Hs]. rewrite Ha, IH by exact Hs. reflexivity.
Qed.


Lemma contentHashOf_length f : String.length (contentHashOf f) = 64%nat.
Proof.
  unfold contentHashOf. rewrite EncodeToString_length, Sum256_length. reflexivity.
Qed.



(** ** Scanning with an empty index *)









(** ** Labels and file names, function by function *)

(** X16. [prepareRemark]. A label it returns is never empty and never in
    the label index of the snapshot. With no label supplied it never
    returns an error, and within [fuel] steps, [fuel] exceeding the
    number of labels, it returns the first of [base], [base-1],
    [base-2], ... that is free, [base] being [auto-] or [manual-] and the
    time stamp. A label supplied is accepted, trimmed, exactly when it is
    not blank and no entry holds it. *)
Theorem prepare_remark_label (fuel : nat) (idx : IndexData) (isAuto : bool)
    (now : Clock) :
  (forall req r,
      prepareRemark fuel idx isAuto req now = Some (Ok r) ->
      r <> "" /\ Remarks idx !! r = None)
  /\ (forall e, prepareRemark fuel idx isAuto None now <> Some (Err e))
  /\ ((size (Remarks idx) < fuel)%nat -> Z.of_nat fuel + 1 < 2 ^ 63 ->
      exists k : nat,
        prepareRemark fuel idx isAuto None now
        = Some (Ok (retryLabel (baseLabel isAuto now) (Z.of_nat k)))
        /\ forall i : nat, (i < k)%nat ->
             is_Some (Remarks idx !! retryLabel (baseLabel isAuto now) (Z.of_nat i)))
  /\ (forall s,
        prepareRemark fuel idx isAuto (Some s) now = Some (Ok (TrimSpace s))
        <-> TrimSpace s <> "" /\ Remarks idx !! TrimSpace s = None).
Proof.
  split; [|split; [|split]].
  - intros req r H. exact (prepareRemark_fresh fuel idx isAuto req now r H).
  - intros e. unfold prepareRemark.
    destruct (Remarks idx !! ((if isAuto then "auto-" else "manual-") +:+ stamp now));
      [|discriminate].
    destruct (prepareLoop fuel (Remarks idx) _ 1); discriminate.
  - intros Hs Hb.
    destruct (prepareRemark_nil_label fuel idx isAuto now Hs Hb) as (k & Hk & _ & Hlt).
    exists k. split; [exact Hk|exact Hlt].
  - intros s. split.
    + intros H. exact (prepareRemark_fresh fuel idx isAuto (Some s) now _ H).
    + intros [Hne Hnone]. unfold prepareRemark.
      destruct (decide (TrimSpace s = "")); [contradiction|].
      rewrite Hnone. reflexivity.
Qed.

(** The scheduler's label in the sample index, once [auto-...] and
    [auto-...-1] are taken. *)
Lemma prepare_remark_label_witness :
  exists k : nat,
    prepareRemark 5 (crowdedIndex "auto-20250918-000201" 2) true None
      {| instant := 63893750521000000000; stamp := "20250918-000201" |}
    = Some (Ok (retryLabel "auto-20250918-000201" (Z.of_nat k))).
Proof.
  destruct (prepare_remark_label 5 (crowdedIndex "auto-20250918-000201" 2) true
              {| instant := 63893750521000000000; stamp := "20250918-000201" |})
    as (_ & _ & H & _).
  destruct H as (k & Hk & _).
  - vm_compute. lia.
  - vm_compute. reflexivity.
  - exists k. exact Hk.
Defined.

(** The candidates made from a path element are path elements. *)
Lemma allChars_app p (s1 s2 : string) :
  allChars p (s1 +:+ s2) = allChars p s1 && allChars p s2.
Proof.
  induction s1 as [|a s1 IH]; [reflexivity|].
  change (String a s1 +:+ s2) with (String a (s1 +:+ s2)).
  simpl. rewrite IH, andb_assoc. reflexivity.
Qed.

Lemma string_of_uint_isNameChar (d : Decimal.uint) :
  allChars isNameChar (NilEmpty.string_of_uint d) = true.
Proof. induction d; simpl; try exact IHd; reflexivity. Qed.

Lemma FormatInt_isNameChar z : allChars isNameChar (FormatInt z) = true.
Proof.
  unfold FormatInt, NilEmpty.string_of_int.
  destruct (Z.to_int z) as [d|d]; [apply string_of_uint_isNameChar|].
  simpl. apply string_of_uint_isNameChar.
Qed.

Lemma TrimSuffix_allChars p s suffix :
  allChars p s = true -> allChars p (TrimSuffix s suffix) = true.
Proof.
  intros H. unfold TrimSuffix. cbv zeta.
  destruct (_ && _); [apply allChars_substring|]; exact H.
Qed.

Lemma long_name_pathElement (name : string) :
  (2 < String.length name)%nat -> allChars isNameChar name = true ->
  pathElement name = true.
Proof.
  intros Hlen Hc. unfold pathElement. rewrite Hc.
  assert (Hne : forall t, (String.length t <= 2)%nat -> String.eqb name t = false).
  { intros t Ht. apply String.eqb_neq. intros ->. lia. }
  rewrite !Hne by (simpl; lia). reflexivity.
Qed.

Lemma fileCandidate_pathElement base (k : Z) :
  pathElement base = true -> pathElement (fileCandidate base k) = true.
Proof.
  intros Hb. unfold fileCandidate. destruct (decide (k = 0)); [exact Hb|].
  assert (Hc : allChars isNameChar base = true).
  { unfold pathElement in Hb. apply andb_true_iff in Hb as [_ Hb]. exact Hb. }
  apply long_name_pathElement.
  - rewrite !string_length_append. simpl. lia.
  - rewrite !allChars_app, (TrimSuffix_allChars _ _ _ Hc), FormatInt_isNameChar.
    reflexivity.
Qed.

(** X17. [EnsureUniqueFilename] on a plain file name [base] (one path
    element, as [BuildBackupFilename] supplies): every candidate it makes
    is a path element again. Whatever fails, it
    changes no file and a name it returns does not exist in the backup
    directory (a failing [Stat] makes it pass over a candidate). An empty
    directory name is an error. With no failing system call it returns,
    within [fuel] steps, [fuel] exceeding the number of files, the first
    of [name.json], [name-1.json], [name-2.json], ... that does not
    exist. *)
Theorem ensure_unique_filename_first_free (fuel : nat) (dir base : string)
    (w : World) :
  plainName base = true ->
  (forall k : Z, pathElement (fileCandidate base k) = true)
  /\ (forall r w',
      EnsureUniqueFilename fuel dir base w = Some (r, w') ->
      fs w' = fs w
      /\ forall name, r = Ok name -> backups (fs w) !! name = None)
  /\ (dir = "" ->
      EnsureUniqueFilename fuel dir base w = Some (Err (ErrNew "dir is empty"), w))
  /\ (faults w = [] -> dir <> "" ->
      (size (backups (fs w)) < fuel)%nat -> Z.of_nat fuel + 1 < 2 ^ 63 ->
      exists k : nat,
        EnsureUniqueFilename fuel dir base w
        = Some (Ok (fileCandidate base (Z.of_nat k)), w)
        /\ backups (fs w) !! fileCandidate base (Z.of_nat k) = None
        /\ forall i : nat, (i < k)%nat ->
             is_Some (backups (fs w) !! fileCandidate base (Z.of_nat i))).
Proof.
  intros Hp. apply andb_true_iff in Hp as [Hp _]. split; [|split; [|split]].
  - intros k. apply fileCandidate_pathElement, Hp.
  - intros r w' H. exact (EnsureUniqueFilename_spec fuel dir base w r w' H).
  - intros ->. reflexivity.
  - intros Hn Hd Hs Hb. exact (EnsureUniqueFilename_nil fuel dir base w Hn Hd Hs Hb).
Qed.

(** A second backup of the same content within the same second. *)
Lemma ensure_unique_filename_first_free_witness :
  EnsureUniqueFilename 4 "/srv/data/backups" "20250918-000101_38461323b18a.json"
    sampleWorld3
  = Some (Ok "20250918-000101_38461323b18a-1.json", sampleWorld3).
Proof.
  destruct (ensure_unique_filename_first_free 4 "/srv/data/backups"
              "20250918-000101_38461323b18a.json" sampleWorld3) as (_ & _ & _ & H);
    [vm_compute; reflexivity|].
  destruct H as (k & Hk & Hnone & Hlt).
  - reflexivity.
  - discriminate.
  - vm_compute. lia.
  - vm_compute. reflexivity.
  - destruct k as [|[|k]].
    + vm_compute in Hnone. discriminate Hnone.
    + exact Hk.
    + exfalso. destruct (Hlt 1%nat ltac:(lia)) as [x Hx]. vm_compute in Hx.
      discriminate Hx.
Defined.

(** ** The errors of the service and their HTTP status *)

Lemma isIOError_other e : isIOError e = true -> isOtherError e = true.
Proof.
  intros H. unfold isOtherError.
  rewrite (isIOError_not_conflict e H), (isIOError_not_notfound e H). reflexivity.
Qed.

Lemma isOtherError_wrap msg e :
  isOtherError (ErrWrap msg e) = isOtherError e.
Proof. reflexivity. Qed.

Lemma EnsureDir_error dir w e w' :
  EnsureDir dir w = (Err e, w') -> isOtherError e = true.
Proof.
  unfold EnsureDir. destruct (decide (dir = "")).
  - intros [= <- _]. reflexivity.
  - intros H. pose proof (outcome_MkdirAll (fs w) w eq_refl) as Ho. rewrite H in Ho.
    apply isIOError_other, Ho.
Qed.

Lemma EnsureUniqueFilename_error fuel dir base w e w' :
  EnsureUniqueFilename fuel dir base w = Some (Err e, w') -> isOtherError e = true.
Proof.
  unfold EnsureUniqueFilename. destruct (EnsureDir dir w) as [[[]|e0] w1] eqn:Ed.
  - destruct (backupIsNotExist base w1) as [[] w2]; [discriminate|].
    destruct (uniqueLoop fuel (TrimSuffix base ".json") 1 w2) as [[c w3]|]; discriminate.
  - intros [= <- _]. exact (EnsureDir_error _ _ _ _ Ed).
Qed.

Lemma WriteBackupFile_error dir name data w e w' :
  WriteBackupFile dir name data w = (Err e, w') -> isOtherError e = true.
Proof.
  unfold WriteBackupFile, bind. destruct (EnsureDir dir w) as [[[]|e0] w1] eqn:Ed.
  - pose proof (outcome_AtomicWriteFile_backup name data (fs w1) w1 eq_refl) as Ho.
    destruct (AtomicWriteFile_backup name data w1) as [[[]|e1] w2]; [discriminate|].
    intros [= <- _]. apply isIOError_other, Ho.
  - intros [= <- _]. exact (EnsureDir_error _ _ _ _ Ed).
Qed.

(** An error of the commit: a failed system call, or, on a manual
    trigger, the label conflict [AddBackup] found. *)
Lemma persistLoop_error st base fp (isAuto : bool) : forall fuel item c w e w',
  persistLoop fuel st base item c fp isAuto w = Some (Some e, w') ->
  fs w' = fs w
  /\ (isIOError e = true
      \/ (isAuto = false /\ e = ErrRemarkExists
          /\ takenByOther (loaded st (fs w)) (ID item) (Remark item))).
Proof.
  induction fuel as [|fuel IH]; intros item c w e w' H; [discriminate|].
  cbn [persistLoop] in H.
  pose proof (outcome_AddBackup st item fp (fs w) w eq_refl) as Ho.
  destruct (AddBackup st item fp w) as [[idx'|e0] w1]; [discriminate|].
  destruct Ho as [Hfs Hk].
  destruct (errors_Is e0 ErrRemarkExists && isAuto) eqn:Hb.
  - apply IH in H as [Hfs' Hk']. split; [congruence|].
    destruct Hk' as [Hio|(Ha & _)]; [left; exact Hio|].
    apply andb_true_iff in Hb as [_ Hb]. congruence.
  - injection H as <- <-. split; [exact Hfs|].
    destruct Hk as [Hio|[-> Ht]]; [left; exact Hio|].
    right. cbn in Hb. destruct isAuto; [discriminate|]. auto.
Qed.

(** The errors of the second half of a scan, the snapshot [idx] being
    any index: a label conflict, on a label that was supplied and is
    taken in the snapshot, or, on a manual trigger, on a label that is
    free in the snapshot and taken in the index at commit; or an error of
    another kind (a blank label, an empty directory name, a failed system
    call). *)
Lemma scanNewContent_error_kinds fuel s isAuto remark env idx fr hash data w3 e w' :
  scanNewContent fuel s isAuto remark env idx fr hash data w3 = Some (Err e, w') ->
  (e = ErrRemarkExists
   /\ exists r, remark = Some r /\ TrimSpace r <> ""
        /\ is_Some (Remarks idx !! TrimSpace r))
  \/ (e = ErrRemarkExists /\ isAuto = false
      /\ exists label,
           prepareRemark fuel idx isAuto remark (env_remarkNow env) = Some (Ok label)
           /\ Remarks idx !! label = None
           /\ takenByOther (loaded (store s) (fs w3)) (env_uuid env) label)
  \/ isOtherError e = true.
Proof.
  intros Heq. unfold scanNewContent in Heq. cbv zeta in Heq.
  destruct (prepareRemark fuel idx isAuto remark (env_remarkNow env))
    as [[label|e0]|] eqn:Ep; [| |discriminate].
  2:{ injection Heq as <- _. unfold prepareRemark in Ep. destruct remark as [r|].
      - destruct (decide (TrimSpace r = "")) as [|Hne].
        + injection Ep as <-. right. right. reflexivity.
        + destruct (Remarks idx !! TrimSpace r) eqn:El; [|discriminate].
          injection Ep as <-. left. split; [reflexivity|]. exists r. eauto.
      - destruct (Remarks idx !! _); [|discriminate].
        destruct (prepareLoop fuel _ _ 1); discriminate. }
  destruct (EnsureUniqueFilename fuel (Config.BackupsDir (cfg s))
              (BuildBackupFilename (env_now env) hash) w3)
    as [[r4 w4]|] eqn:E4; [|discriminate].
  destruct r4 as [filename|e4].
  2:{ injection Heq as <- _. right. right. rewrite isOtherError_wrap.
      exact (EnsureUniqueFilename_error _ _ _ _ _ _ E4). }
  apply EnsureUniqueFilename_spec in E4 as [Hfs4 _].
  pose proof (outcome_WriteBackupFile (Config.BackupsDir (cfg s)) filename
                data (fs w4) w4 eq_refl) as H5.
  destruct (WriteBackupFile (Config.BackupsDir (cfg s)) filename data w4)
    as [[fn|e5] w5] eqn:E5.
  2:{ injection Heq as <- _. right. right. rewrite isOtherError_wrap.
      exact (WriteBackupFile_error _ _ _ _ _ _ E5). }
  match type of Heq with
  | context [persistBackup fuel s ?it ?fp isAuto w5] =>
      destruct (persistBackup fuel s it fp isAuto w5) as [[[e6|] w6]|] eqn:E6;
        [|discriminate Heq|discriminate Heq]
  end.
  injection Heq as <- _. unfold persistBackup in E6.
  apply persistLoop_error in E6 as [_ [Hio|(Ha & -> & Ht)]].
  - right. right. apply isIOError_other, Hio.
  - right. left. split; [reflexivity|]. split; [exact Ha|]. exists label.
    split; [reflexivity|]. split; [apply (prepareRemark_fresh _ _ _ _ _ _ Ep)|].
    cbn [ID Remark] in Ht. rewrite H5, Hfs4, loaded_set_backups in Ht. exact Ht.
Qed.

(** A failed scan has failed on a system call before it came to the new
    content, or in its second half. *)
Lemma Scan_error_split fuel s isAuto remark env w e w' :
  Scan fuel s isAuto remark env w = Some (Err e, w') ->
  isIOError e = true
  \/ exists f w3,
       target (fs w) = Some f /\ fs w3 = fs w
       /\ scanNewContent fuel s isAuto remark env (loaded (store s) (fs w))
            (fingerprintResOf f) (contentHashOf f) (file_data f) w3
          = Some (Err e, w').
Proof.
  intros H. pose proof (Scan_paths fuel s isAuto remark env w) as P.
  rewrite H in P.
  inversion P as [e1 w1 Hio Hfs Hnf|w1 Ht Hfs Hw|f w1 Ht Hfp Hfs Hw
                 |f E w1 Ht Hfp Hfind Hfs|f w3 Ht Hfp Hfind Hfs Hw Heq]; subst.
  - left. exact Hio.
  - right. exists f, w3. auto.
Qed.

Lemma updateRemarkMutator_error id r idx x idx' e :
  updateRemarkMutator id r idx = (x, idx', Some e) ->
  (e = ErrBackupNotFound /\ findByID id (Items idx) = None)
  \/ (e = ErrRemarkExists /\ r <> ""
      /\ exists other, Remarks idx !! r = Some other /\ other <> id).
Proof.
  unfold updateRemarkMutator. intros Hm.
  pose proof (findByID_findIndex id (Items idx)) as Hf.
  destruct (findIndex id (Items idx)) as [i|] eqn:Ei.
  - destruct (Items idx !! i) as [item|] eqn:Hi.
    + destruct (decide (Remark item = r)); [discriminate|].
      destruct (decide (r <> "")) as [Hr|Hr].
      * destruct (Remarks idx !! r) as [existing|] eqn:El; [|discriminate].
        destruct (bool_decide (existing <> id)) eqn:Hb; [|discriminate].
        injection Hm as _ _ <-. right. split; [reflexivity|]. split; [exact Hr|].
        exists existing. split; [reflexivity|]. apply bool_decide_eq_true in Hb. exact Hb.
      * discriminate.
    + apply findIndex_Some in Ei as (it & Hit & _). congruence.
  - injection Hm as _ _ <-. left. split; [reflexivity|].
    destruct (findByID id (Items idx)); [|reflexivity].
    destruct Hf as (i & Hi & _). discriminate.
Qed.

Lemma Service_UpdateRemark_error_kinds s id r w e w' :
  Service_UpdateRemark s id r w = (Err e, w') ->
  (e = ErrBackupNotFound /\ findByID id (Items (loaded (store s) (fs w))) = None)
  \/ (e = ErrRemarkExists /\ TrimSpace r <> ""
      /\ exists other, Remarks (loaded (store s) (fs w)) !! TrimSpace r = Some other
                       /\ other <> id)
  \/ isIOError e = true.
Proof.
  unfold Service_UpdateRemark, Store_UpdateRemark, bind. intros H.
  pose proof (outcome_update (store s) (updateRemarkMutator id (TrimSpace r))
                (fs w) w eq_refl) as H1.
  destruct (update (store s) (updateRemarkMutator id (TrimSpace r)) w)
    as [[a|e0] w1]; [discriminate|].
  injection H as <- _. destruct H1 as [_ [Hio|(x & idx' & Hm)]]; [auto|].
  apply updateRemarkMutator_error in Hm as [Hm|Hm]; auto.
Qed.

Lemma Service_DeleteBackup_error_kinds s id w e :
  fst (Service_DeleteBackup s id w) = Some e ->
  (e = ErrBackupNotFound /\ findByID id (Items (loaded (store s) (fs w))) = None)
  \/ isIOError e = true.
Proof.
  unfold Service_DeleteBackup, Store_DeleteBackup, bind. intros H.
  pose proof (outcome_update (store s) (deleteBackupMutator id) (fs w) w eq_refl) as H1.
  destruct (update (store s) (deleteBackupMutator id) w) as [[a|e0] w1];
    [discriminate|].
  cbn [fst] in H. injection H as <-. destruct H1 as [_ [Hio|(x & idx' & Hm)]]; [auto|].
  left. unfold deleteBackupMutator in Hm.
  destruct (acc_found (deleteLoop id (Items (loaded (store s) (fs w))))) eqn:Hf;
    cbn [negb] in Hm; [discriminate|].
  injection Hm as _ _ <-. split; [reflexivity|].
  apply findByID_None. intros it Hit Hid.
  assert (Ht : acc_found (deleteLoop id (Items (loaded (store s) (fs w)))) = true).
  { apply deleteLoop_found. right. eauto. }
  congruence.
Qed.

Lemma RestoreBackup_error_kinds s id meta w e :
  fst (RestoreBackup s id meta w) = Some e ->
  (e = ErrBackupNotFound /\ findByID id (Items (loaded (store s) (fs w))) = None)
  \/ isOtherError e = true.
Proof.
  unfold RestoreBackup. 
  assert (H0 : match FindByID (store s) id w with
               | (Ok _, _) => True
               | (Err e0, _) =>
                   (e0 = ErrBackupNotFound
                    /\ findByID id (Items (loaded (store s) (fs w))) = None)
                   \/ isIOError e0 = true
               end).
  { unfold FindByID, Snapshot, bind.
    pose proof (outcome_loadIndexUnlocked (store s) (fs w) w eq_refl) as Hl.
    destruct (loadIndexUnlocked (store s) w) as [[idx|e0] w1].
    - destruct Hl as [-> _].
      destruct (findByID id (Items (loaded (store s) (fs w)))); [exact I|].
      left. auto.
    - right. apply Hl. }
  destruct (FindByID (store s) id w) as [[E|e0] w1].
  2:{ intros [= <-]. destruct H0 as [H0|H0]; [left; exact H0|].
      right. apply isIOError_other, H0. }
  assert (H2 : match ReadFile_backup (Filename E) w1 with
               | (Ok _, _) => True
               | (Err e0, _) => isOtherError e0 = true
               end).
  { unfold ReadFile_backup. destruct (fault w1) as [[] w2]; [reflexivity|].
    destruct (backups (fs w2) !! Filename E); [exact I|reflexivity]. }
  destruct (ReadFile_backup (Filename E) w1) as [[data|e0] w2].
  2:{ intros [= <-]. right. rewrite isOtherError_wrap. exact H2. }
  pose proof (outcome_MkdirAll (fs w2) w2 eq_refl) as H3.
  destruct (MkdirAll w2) as [[[]|e0] w3].
  2:{ intros [= <-]. right. rewrite isOtherError_wrap. apply isIOError_other, H3. }
  pose proof (outcome_AtomicWriteFile_target meta data (fs w3) w3 eq_refl) as H4.
  destruct (AtomicWriteFile_target meta data w3) as [[[]|e0] w4].
  2:{ intros [= <-]. right. rewrite isOtherError_wrap. apply isIOError_other, H4. }
  destruct (ComputeFingerprint w4) as [[res|e0] w5]; discriminate.
Qed.

Lemma mapServiceError_other Error e :
  isOtherError e = true ->
  mapServiceError Error e = (StatusInternalServerError, Error e).
Proof.
  unfold isOtherError, mapServiceError. intros H.
  apply andb_true_iff in H as [H1 H2].
  apply negb_true_iff in H1. apply negb_true_iff in H2. rewrite H1, H2. reflexivity.
Qed.

(** X18. The HTTP status of a failed request. Wrapping an error in
    context never changes its status, and a failed system call always
    gives 500. The second half of a scan, run on a snapshot [idx] that
    need not be the index of the commit (another writer may have come in
    between), gives 409 exactly for a label conflict: on a supplied label
    that is taken in the snapshot, or, on a manual trigger, on a label
    free in the snapshot that another entry holds at the commit; and 500
    otherwise (so also for a blank label), never 404. A scan that fails
    has failed on a system call, which gives 500, or in that second
    half. A failed relabelling gives 404 for an unknown id, 409 for a
    label another entry holds, 500 for a failed system call. A failed
    deletion or restore gives 404 for an unknown id and 500 otherwise. *)
Theorem http_status_of_service_errors (Error : error -> string) (s : Service)
    (w : World) :
  (forall msg e,
      fst (mapServiceError Error (ErrWrap msg e)) = fst (mapServiceError Error e))
  /\ (forall e, isIOError e = true ->
        mapServiceError Error e = (StatusInternalServerError, Error e))
  /\ (forall fuel isAuto remark env idx fr hash data e w',
        scanNewContent fuel s isAuto remark env idx fr hash data w = Some (Err e, w') ->
        (mapServiceError Error e = (StatusConflict, "备注已存在")
         /\ ((exists r, remark = Some r /\ TrimSpace r <> ""
                /\ is_Some (Remarks idx !! TrimSpace r))
             \/ (isAuto = false
                 /\ exists label,
                      prepareRemark fuel idx isAuto remark (env_remarkNow env)
                      = Some (Ok label)
                      /\ Remarks idx !! label = None
                      /\ takenByOther (loaded (store s) (fs w)) (env_uuid env) label)))
        \/ mapServiceError Error e = (StatusInternalServerError, Error e))
  /\ (forall fuel isAuto remark env e w',
        Scan fuel s isAuto remark env w = Some (Err e, w') ->
        (isIOError e = true
         /\ mapServiceError Error e = (StatusInternalServerError, Error e))
        \/ exists f w3,
             target (fs w) = Some f /\ fs w3 = fs w
             /\ scanNewContent fuel s isAuto remark env (loaded (store s) (fs w))
                  (fingerprintResOf f) (contentHashOf f) (file_data f) w3
                = Some (Err e, w'))
  /\ (forall id r e w',
        Service_UpdateRemark s id r w = (Err e, w') ->
        (mapServiceError Error e = (StatusNotFound, "备份不存在")
         /\ findByID id (Items (loaded (store s) (fs w))) = None)
        \/ (mapServiceError Error e = (StatusConflict, "备注已存在")
            /\ exists other,
                 Remarks (loaded (store s) (fs w)) !! TrimSpace r = Some other
                 /\ other <> id)
        \/ (mapServiceError Error e = (StatusInternalServerError, Error e)
            /\ isIOError e = true))
  /\ (forall id e,
        fst (Service_DeleteBackup s id w) = Some e ->
        (mapServiceError Error e = (StatusNotFound, "备份不存在")
         /\ findByID id (Items (loaded (store s) (fs w))) = None)
        \/ (mapServiceError Error e = (StatusInternalServerError, Error e)
            /\ isIOError e = true))
  /\ (forall id meta e,
        fst (RestoreBackup s id meta w) = Some e ->
        (mapServiceError Error e = (StatusNotFound, "备份不存在")
         /\ findByID id (Items (loaded (store s) (fs w))) = None)
        \/ mapServiceError Error e = (StatusInternalServerError, Error e)).
Proof.
  split; [|split; [|split; [|split; [|split; [|split]]]]].
  - intros msg e. unfold mapServiceError.
    change (errors_Is (ErrWrap msg e) ErrRemarkExists)
      with (errors_Is e ErrRemarkExists).
    change (errors_Is (ErrWrap msg e) ErrBackupNotFound)
      with (errors_Is e ErrBackupNotFound).
    destruct (errors_Is e ErrRemarkExists); [reflexivity|].
    destruct (errors_Is e ErrBackupNotFound); reflexivity.
  - intros e H. apply mapServiceError_other, isIOError_other, H.
  - intros fuel isAuto remark env idx fr hash data e w' H.
    destruct (scanNewContent_error_kinds _ _ _ _ _ _ _ _ _ _ _ _ H)
      as [[-> Hr]|[(-> & Ha & Hl)|Ho]].
    + left. split; [reflexivity|]. left. exact Hr.
    + left. split; [reflexivity|]. right. split; [exact Ha|exact Hl].
    + right. apply mapServiceError_other, Ho.
  - intros fuel isAuto remark env e w' H.
    destruct (Scan_error_split _ _ _ _ _ _ _ _ H) as [Hio|Hs].
    + left. split; [exact Hio|]. apply mapServiceError_other, isIOError_other, Hio.
    + right. exact Hs.
  - intros id r e w' H.
    destruct (Service_UpdateRemark_error_kinds _ _ _ _ _ _ H)
      as [[-> Hn]|[(-> & _ & Ho)|Hio]].
    + left. split; [reflexivity|exact Hn].
    + right. left. split; [reflexivity|exact Ho].
    + right. right. split; [apply mapServiceError_other, isIOError_other, Hio|exact Hio].
  - intros id e H.
    destruct (Service_DeleteBackup_error_kinds _ _ _ _ H) as [[-> Hn]|Hio].
    + left. split; [reflexivity|exact Hn].
    + right. split; [apply mapServiceError_other, isIOError_other, Hio|exact Hio].
  - intros id meta e H.
    destruct (RestoreBackup_error_kinds _ _ _ _ _ H) as [[-> Hn]|Ho].
    + left. split; [reflexivity|exact Hn].
    + right. apply mapServiceError_other, Ho.
Qed.

(** A manual backup under the label "x", which was free when the scan
    took its snapshot and belongs to the first entry of the sample run
    when the scan commits: 409. *)
Lemma http_status_of_service_errors_witness :
  exists e w',
    scanNewContent 4 sampleService false (Some "x") sampleEnv2
      (loaded (store sampleService) (fs sampleWorld0))
      (fingerprintResOf sampleFileChanged) (contentHashOf sampleFileChanged)
      (file_data sampleFileChanged) sampleWorld2
    = Some (Err e, w')
    /\ Remarks (loaded (store sampleService) (fs sampleWorld0)) !! "x" = None
    /\ fst (mapServiceError (fun _ => "") e) = StatusConflict
    /\ fs w' = fs sampleWorld2.
Proof.
  destruct (scanNewContent 4 sampleService false (Some "x") sampleEnv2
      (loaded (store sampleService) (fs sampleWorld0))
      (fingerprintResOf sampleFileChanged) (contentHashOf sampleFileChanged)
      (file_data sampleFileChanged) sampleWorld2)
    as [[[sr|e] w']|] eqn:E;
    [vm_compute in E; discriminate E| |vm_compute in E; discriminate E].
  exists e, w'. split; [reflexivity|]. split; [reflexivity|].
  destruct (http_status_of_service_errors (fun _ => "") sampleService sampleWorld2)
    as (_ & _ & H & _).
  destruct (H 4%nat false (Some "x") sampleEnv2 _ _ _ _ e w' E) as [[-> _]|Hs].
  - split; [reflexivity|]. vm_compute in E. injection E as _ <-. reflexivity.
  - exfalso. vm_compute in E. injection E as <- _. vm_compute in Hs. discriminate Hs.
Defined.

(** ** The configuration *)

(** X19. [buildConfig]. A scan interval of zero or less in the file does
    not switch scanning off: the interval becomes sixty seconds. An
    interval of 1 to 9223372036 seconds is taken as it is, and the whole
    seconds of the result are the setting again. From 9223372037 seconds
    on the multiplication by [time.Second] overflows, up to 18446744073
    into a negative interval. The port is never empty, ["8080"] standing
    in for an empty one, and the browser is opened unless the file says
    otherwise. *)
Theorem build_config_settings (UserHomeDir : result string)
    (Join : string -> string -> string) (Abs : string -> result string)
    (raw : FileConfig.t) (c : Config.t) (st : Settings.t) :
  buildConfig UserHomeDir Join Abs raw = Ok (c, st) ->
  (FileConfig.ScanInterval raw <= 0 -> Settings.ScanInterval st = 60 * Second)
  /\ (0 < FileConfig.ScanInterval raw <= 9223372036 ->
      Settings.ScanInterval st = FileConfig.ScanInterval raw * Second
      /\ 0 < Settings.ScanInterval st
      /\ Z.quot (Settings.ScanInterval st) Second = FileConfig.ScanInterval raw)
  /\ (9223372036 < FileConfig.ScanInterval raw <= 18446744073 ->
      Settings.ScanInterval st < 0)
  /\ Settings.Port st <> ""
  /\ (FileConfig.HTTPPort raw <> "" -> Settings.Port st = FileConfig.HTTPPort raw)
  /\ (FileConfig.AutoOpenBrowser raw = None -> Settings.AutoOpenBrowser st = true)
  /\ (forall b, FileConfig.AutoOpenBrowser raw = Some b ->
        Settings.AutoOpenBrowser st = b).
Proof.
  unfold buildConfig. intros H.
  destruct (ExpandPath UserHomeDir Join Abs (FileConfig.CodexDir raw)) as [codexDir|e];
    [|discriminate].
  destruct (ExpandPath UserHomeDir Join Abs (FileConfig.DataDir raw)) as [dataDir|e];
    [|discriminate].
  injection H as _ <-. cbn [Settings.ScanInterval Settings.Port Settings.AutoOpenBrowser].
  unfold Second, wrap64.
  split; [|split; [|split; [|split; [|split; [|split]]]]].
  - intros Hle. destruct (FileConfig.ScanInterval raw <=? 0) eqn:E;
      [reflexivity|apply Z.leb_gt in E; lia].
  - intros Hr. destruct (FileConfig.ScanInterval raw <=? 0) eqn:E;
      [apply Z.leb_le in E; lia|].
    rewrite Z.mod_small by lia.
    replace (FileConfig.ScanInterval raw * 1000000000 + 2 ^ 63 - 2 ^ 63)
      with (FileConfig.ScanInterval raw * 1000000000) by lia.
    split; [reflexivity|]. split; [lia|]. apply Z.quot_mul. lia.
  - intros Hr. destruct (FileConfig.ScanInterval raw <=? 0) eqn:E;
      [apply Z.leb_le in E; lia|].
    replace (FileConfig.ScanInterval raw * 1000000000 + 2 ^ 63)
      with (FileConfig.ScanInterval raw * 1000000000 - 2 ^ 63 + 1 * 2 ^ 64) by lia.
    rewrite Z.mod_add by lia. rewrite Z.mod_small by lia. lia.
  - destruct (decide (FileConfig.HTTPPort raw = "")); [discriminate|assumption].
  - intros Hp. destruct (decide (FileConfig.HTTPPort raw = "")); [contradiction|reflexivity].
  - intros ->. reflexivity.
  - intros b ->. reflexivity.
Qed.

(** The default configuration, in a home and a working directory. *)
Lemma build_config_settings_witness :
  exists c st,
    buildConfig (Ok "/home/u") (fun a b => a +:+ "/" +:+ b)
      (fun p => if String.prefix "/" p then Ok p else Ok ("/srv/" +:+ p))
      defaultFileConfig
    = Ok (c, st)
    /\ Config.TargetPath c = "/home/u/.codex/auth.json"
    /\ Settings.ScanInterval st = 60 * Second
    /\ Z.quot (Settings.ScanInterval st) Second = 60.
Proof.
  destruct (buildConfig (Ok "/home/u") (fun a b => a +:+ "/" +:+ b)
              (fun p => if String.prefix "/" p then Ok p else Ok ("/srv/" +:+ p))
              defaultFileConfig)
    as [[c st]|e] eqn:E; [|vm_compute in E; discriminate E].
  exists c, st. split; [reflexivity|].
  destruct (build_config_settings _ _ _ defaultFileConfig c st E) as (_ & H2 & _).
  destruct H2 as (H2 & _ & H3); [vm_compute; split; [reflexivity|discriminate]|].
  split; [|split; [exact H2|exact H3]].
  vm_compute in E. injection E as <- _. reflexivity.
Defined.

(** ** The status of the target file *)

Lemma Scan_nil_missing fuel s isAuto remark env w :
  faults w = [] ->
  target (fs w) = None ->
  Scan fuel s isAuto remark env w = Some (Ok (notCreated reasonTargetMissing), w).
Proof.
  intros Hn Ht. unfold Scan, Snapshot.
  rewrite (loadIndexUnlocked_nil _ w Hn), (ComputeFingerprint_nil w Hn), Ht.
  reflexivity.
Qed.

Lemma Status_fs RFC3339 s st w : fs (snd (Status RFC3339 s st w)) = fs w.
Proof.
  unfold Status, Snapshot.
  pose proof (outcome_loadIndexUnlocked (store s) (fs w) w eq_refl) as H1.
  destruct (loadIndexUnlocked (store s) w) as [[idx|e] w1]; [|apply H1].
  destruct H1 as [_ H1].
  pose proof (outcome_ComputeFingerprint (fs w1) w1 eq_refl) as H2.
  destruct (ComputeFingerprint w1) as [[res|e] w2].
  - destruct H2 as (f & _ & _ & H2).
    pose proof (outcome_ComputeContentHash (fs w2) w2 eq_refl) as H3.
    destruct (ComputeContentHash w2) as [[[hash data]|e] w3]; cbn [snd].
    + destruct H3 as (f' & _ & _ & H3). congruence.
    + destruct H3 as [H3 _]. congruence.
  - destruct H2 as [H2 _]. destruct (IsNotExist e); cbn [snd]; congruence.
Qed.

(** X20. [Status] writes nothing, whatever fails. With no failing system
    call it reports whether the target file exists and, if it does, its
    size, its fast signature, its SHA-256 digest and the first twelve
    digits of that; and what it reports agrees with the next scan: the
    file is reported missing exactly when a scan would answer "target
    missing", and the signature reported equals the latest signature
    reported exactly when a scan would answer "unchanged". *)
Theorem status_agrees_with_scan (RFC3339 : Time -> string) (s : Service)
    (st : Settings.t) (w : World) :
  fs (snd (Status RFC3339 s st w)) = fs w
  /\ (faults w = [] -> target (fs w) = None ->
      exists info,
        Status RFC3339 s st w = (Ok info, w)
        /\ StatusInfo.Exists info = false
        /\ StatusInfo.LatestFingerprint info
           = LatestFingerprint (loaded (store s) (fs w))
        /\ forall fuel isAuto remark env,
             Scan fuel s isAuto remark env w
             = Some (Ok (notCreated reasonTargetMissing), w))
  /\ (forall f, faults w = [] -> target (fs w) = Some f ->
      exists info,
        Status RFC3339 s st w = (Ok info, w)
        /\ StatusInfo.Exists info = true
        /\ StatusInfo.Size info = Z.of_nat (List.length (file_data f))
        /\ StatusInfo.ModTime info = RFC3339 (file_ModTime f)
        /\ StatusInfo.Fingerprint info = fingerprintOf (statOf f)
        /\ StatusInfo.ContentHash info = contentHashOf f
        /\ StatusInfo.ContentHashShort info = String.substring 0 12 (contentHashOf f)
        /\ StatusInfo.LatestFingerprint info
           = LatestFingerprint (loaded (store s) (fs w))
        /\ forall fuel isAuto remark env,
             StatusInfo.Fingerprint info = StatusInfo.LatestFingerprint info
             <-> Scan fuel s isAuto remark env w
                 = Some (Ok (notCreated reasonUnchanged), w)).
Proof.
  split; [apply Status_fs|]. split.
  - intros Hn Ht. eexists. split.
    + unfold Status, Snapshot.
      rewrite (loadIndexUnlocked_nil _ w Hn), (ComputeFingerprint_nil w Hn), Ht.
      reflexivity.
    + split; [reflexivity|]. split; [reflexivity|].
      intros fuel isAuto remark env. apply Scan_nil_missing; assumption.
  - intros f Hn Ht. eexists. split.
    + unfold Status, Snapshot.
      rewrite (loadIndexUnlocked_nil _ w Hn), (ComputeFingerprint_nil w Hn), Ht.
      rewrite (ComputeContentHash_nil w Hn), Ht. reflexivity.
    + cbn [StatusInfo.Exists StatusInfo.Size StatusInfo.ModTime StatusInfo.Fingerprint
             StatusInfo.ContentHash StatusInfo.ContentHashShort
             StatusInfo.LatestFingerprint Stat Fingerprint].
      split; [reflexivity|]. split; [reflexivity|]. split; [reflexivity|].
      split; [reflexivity|]. split; [reflexivity|].
      split.
      { fold (contentHashOf f). unfold ShortHash. rewrite contentHashOf_length.
        reflexivity. }
      split; [reflexivity|].
      intros fuel isAuto remark env. split.
      * intros Heq. apply (Scan_nil_unchanged fuel s isAuto remark env w f Hn Ht).
        symmetry. exact Heq.
      * intros Hscan.
        destruct (Scan_not_created _ _ _ _ _ _ _ _ Hscan eq_refl)
          as [(_ & Ht' & _)|(f' & Ht' & [(_ & Hfp & _)|(Hr & _)])].
        -- congruence.
        -- rewrite Ht in Ht'. injection Ht' as <-. symmetry. exact Hfp.
        -- exfalso. unfold notCreated, reasonUnchanged, reasonDuplicateContent in Hr.
           discriminate Hr.
Qed.

(** The status right after the first backup of the sample run. *)
Lemma status_agrees_with_scan_witness :
  exists info,
    Status (fun _ => "2025-09-18T00:00:00Z") sampleService
      (Settings.mk (60 * Second) "8080" true) sampleWorld1
    = (Ok info, sampleWorld1)
    /\ StatusInfo.ContentHashShort info = "e16a717c1e42"
    /\ StatusInfo.Fingerprint info = StatusInfo.LatestFingerprint info.
Proof.
  destruct (status_agrees_with_scan (fun _ => "2025-09-18T00:00:00Z") sampleService
              (Settings.mk (60 * Second) "8080" true) sampleWorld1) as (_ & _ & H).
  destruct (H sampleFile eq_refl) as (info & Hs & _ & _ & _ & Hf & _ & Hsh & Hl & _).
  - reflexivity.
  - exists info. split; [exact Hs|]. split.
    + rewrite Hsh. vm_compute. reflexivity.
    + rewrite Hf, Hl. vm_compute. reflexivity.
Defined.

(** ** What a successful scan leaves behind *)

Lemma findByID_app_fresh id (l : list BackupItem) (item : BackupItem) :
  ID item = id -> id ∉ (ID <$> l) -> findByID id (l ++ [item]) = Some item.
Proof.
  intros Hid Hfresh. induction l as [|x l IH]; simpl.
  - destruct (decide (ID item = id)); [reflexivity|contradiction].
  - destruct (decide (ID x = id)) as [Hx|Hx].
    + exfalso. apply Hfresh. rewrite <- Hx. left.
    + apply IH. intros Hin. apply Hfresh. right. exact Hin.
Qed.

(** A commit that succeeds has stored the entry under its own label, or,
    on an automatic trigger and that label being taken, under a numbered
    one. *)
Lemma persistLoop_stored st base fp (isAuto : bool) : forall fuel item c w w',
  persistLoop fuel st base item c fp isAuto w = Some (None, w') ->
  exists label,
    ~ takenByOther (loaded st (fs w)) (ID item) label
    /\ fs w' = set_index
                 (Some (withEntry (set_Remark label item) fp (loaded st (fs w))))
                 (fs w)
    /\ (label = Remark item
        \/ (isAuto = true
            /\ takenByOther (loaded st (fs w)) (ID item) (Remark item)
            /\ exists k : Z, label = base +:+ "-" +:+ FormatInt k)).
Proof.
  induction fuel as [|fuel IH]; intros item c w w' H; [discriminate|].
  cbn [persistLoop] in H.
  pose proof (outcome_AddBackup st item fp (fs w) w eq_refl) as Ha.
  destruct (AddBackup st item fp w) as [[idx'|e] w1].
  - injection H as <-. destruct Ha as (Hfree & -> & Hfs).
    exists (Remark item). rewrite set_Remark_same. auto.
  - destruct Ha as [Hfs [Hio|[-> Ht]]].
    + rewrite (isIOError_not_conflict e Hio) in H. discriminate H.
    + cbn in H. destruct isAuto; [|discriminate H].
      apply IH in H. rewrite Hfs in H.
      destruct H as (label & Hfree & Hw' & Hl). exists label.
      split; [exact Hfree|]. split; [exact Hw'|]. right.
      split; [reflexivity|]. split; [exact Ht|].
      destruct Hl as [->|(_ & _ & k & ->)]; [exists c; reflexivity|exists k; reflexivity].
Qed.

Lemma numbered_label_nonempty base (k : Z) : base +:+ "-" +:+ FormatInt k <> "".
Proof.
  intros H. apply (f_equal String.length) in H.
  rewrite !string_length_append in H. simpl in H. lia.
Qed.

(** The second half of a scan that reports a new backup, the snapshot
    [idx] being any index: the entry returned carries the label resolved
    on the snapshot, the entry stored the label the commit ended on. *)
Lemma scanNewContent_created fuel s isAuto remark env idx fr hash data w3 sr w' :
  scanNewContent fuel s isAuto remark env idx fr hash data w3 = Some (Ok sr, w') ->
  exists finalRemark filename label,
    let item :=
      {| ID := env_uuid env; Filename := filename; ContentHash := hash;
         FileFingerprint := Fingerprint fr; Size := FileStat.Size (Stat fr);
         CreatedAt := instant (env_now env); Remark := finalRemark;
         IsAuto := isAuto; SourcePath := Config.TargetPath (cfg s);
         LastModified := FileStat.ModTime (Stat fr) |} in
    sr = {| Created := true; Item := Some item; Reason := "" |}
    /\ prepareRemark fuel idx isAuto remark (env_remarkNow env) = Some (Ok finalRemark)
    /\ backups (fs w3) !! filename = None
    /\ ~ takenByOther (loaded (store s) (fs w3)) (env_uuid env) label
    /\ (label = finalRemark
        \/ (isAuto = true
            /\ takenByOther (loaded (store s) (fs w3)) (env_uuid env) finalRemark
            /\ exists k : Z, label = finalRemark +:+ "-" +:+ FormatInt k))
    /\ fs w'
       = set_index
           (Some (withEntry (set_Remark label item) (Fingerprint fr)
                    (loaded (store s) (fs w3))))
           (set_backups (<[filename := data]> (backups (fs w3))) (fs w3)).
Proof.
  unfold scanNewContent. intros H. cbv zeta in H.
  destruct (prepareRemark fuel idx isAuto remark (env_remarkNow env))
    as [[finalRemark|e]|] eqn:Ep; [|discriminate|discriminate].
  destruct (EnsureUniqueFilename fuel (Config.BackupsDir (cfg s))
              (BuildBackupFilename (env_now env) hash) w3) as [[r4 w4]|] eqn:E4;
    [|discriminate].
  apply EnsureUniqueFilename_spec in E4 as [Hfs4 Hfree].
  destruct r4 as [filename|e]; [|discriminate].
  specialize (Hfree filename eq_refl).
  pose proof (outcome_WriteBackupFile (Config.BackupsDir (cfg s)) filename data
                (fs w4) w4 eq_refl) as H5.
  destruct (WriteBackupFile (Config.BackupsDir (cfg s)) filename data w4)
    as [[fn|e] w5]; [|discriminate].
  rewrite Hfs4 in H5.
  match type of H with
  | context [persistBackup fuel s ?it ?fp isAuto w5] =>
      destruct (persistBackup fuel s it fp isAuto w5)
        as [[[e|] w6]|] eqn:E6; [discriminate H| |discriminate H]
  end.
  injection H as <- <-. unfold persistBackup in E6.
  apply persistLoop_stored in E6 as (label & Hnt & Hfs6 & Hl).
  cbn [ID Remark] in Hnt, Hl.
  rewrite H5, loaded_set_backups in Hnt, Hfs6, Hl.
  exists finalRemark, filename, label. cbv zeta.
  split; [reflexivity|]. split; [reflexivity|]. split; [exact Hfree|].
  split; [exact Hnt|]. split; [exact Hl|]. exact Hfs6.
Qed.

(** A scan that reports a new backup has gone through its second
    half. *)
Lemma Scan_created_split fuel s isAuto remark env w sr w' :
  Scan fuel s isAuto remark env w = Some (Ok sr, w') ->
  Created sr = true ->
  exists f w3,
    target (fs w) = Some f /\ fs w3 = fs w
    /\ scanNewContent fuel s isAuto remark env (loaded (store s) (fs w))
         (fingerprintResOf f) (contentHashOf f) (file_data f) w3
       = Some (Ok sr, w').
Proof.
  intros H Hc. pose proof (Scan_paths fuel s isAuto remark env w) as P.
  rewrite H in P.
  inversion P as [e1 w1 Hio Hfs Hnf|w1 Ht Hfs Hw|f w1 Ht Hfp Hfs Hw
                 |f E w1 Ht Hfp Hfind Hfs|f w3 Ht Hfp Hfind Hfs Hw Heq]; subst;
    try discriminate Hc.
  exists f, w3. auto.
Qed.

(** X21. Whenever the second half of a scan reports a new backup,
    whatever failed on the way and whatever snapshot [idx] of the index
    it resolved the label on (another writer may have changed the index
    since): the entry it returns has the id, the digest, the signature
    and the size it was given and the label resolved on the snapshot;
    the entry stored is that entry under the label the commit ended on,
    which is the same label unless, on an automatic trigger, another
    entry held it at the commit, and then is a numbered one (the entry
    returned keeps the label that was not stored); the stored entry is
    the newest of the index and the one found under the id; the label
    index maps its label to its id; its backup file is new and holds the
    bytes given; every entry, label and backup file that existed is as
    before. And a scan reports a new backup only through this second
    half, run on the index it has loaded. *)
Theorem scan_created_is_stored (fuel : nat) (s : Service) (isAuto : bool)
    (remark : option string) (env : ScanEnv) (w : World) :
  env_uuid env ∉ (ID <$> Items (loaded (store s) (fs w))) ->
  (forall idx fr hash data sr w',
      scanNewContent fuel s isAuto remark env idx fr hash data w = Some (Ok sr, w') ->
      exists item label,
        Created sr = true /\ Item sr = Some item /\ Reason sr = ""
        /\ ID item = env_uuid env
        /\ ContentHash item = hash
        /\ FileFingerprint item = Fingerprint fr
        /\ Size item = FileStat.Size (Stat fr)
        /\ CreatedAt item = instant (env_now env)
        /\ IsAuto item = isAuto
        /\ prepareRemark fuel idx isAuto remark (env_remarkNow env)
           = Some (Ok (Remark item))
        /\ Remarks idx !! Remark item = None
        /\ (label = Remark item
            \/ (isAuto = true
                /\ takenByOther (loaded (store s) (fs w)) (ID item) (Remark item)
                /\ exists k : Z, label = Remark item +:+ "-" +:+ FormatInt k))
        /\ label <> ""
        /\ ~ takenByOther (loaded (store s) (fs w)) (ID item) label
        /\ Items (loaded (store s) (fs w'))
           = Items (loaded (store s) (fs w)) ++ [set_Remark label item]
        /\ findByID (ID item) (Items (loaded (store s) (fs w')))
           = Some (set_Remark label item)
        /\ Remarks (loaded (store s) (fs w'))
           = <[label := ID item]> (Remarks (loaded (store s) (fs w)))
        /\ LatestFingerprint (loaded (store s) (fs w')) = FileFingerprint item
        /\ target (fs w') = target (fs w)
        /\ backups (fs w) !! Filename item = None
        /\ backups (fs w') = <[Filename item := data]> (backups (fs w)))
  /\ (forall sr w',
        Scan fuel s isAuto remark env w = Some (Ok sr, w') ->
        Created sr = true ->
        exists f w3,
          target (fs w) = Some f /\ fs w3 = fs w
          /\ scanNewContent fuel s isAuto remark env (loaded (store s) (fs w))
               (fingerprintResOf f) (contentHashOf f) (file_data f) w3
             = Some (Ok sr, w')).
Proof.
  intros Hfresh. split.
  - intros idx fr hash data sr w' H.
    destruct (scanNewContent_created _ _ _ _ _ _ _ _ _ _ _ _ H)
      as (finalRemark & filename & label & Hsr & Hp & Hnone & Hnt & Hl & Hfs).
    cbv zeta in Hsr, Hfs.
    destruct (prepareRemark_fresh _ _ _ _ _ _ Hp) as [Hne Hfree].
    assert (Hlne : label <> "").
    { destruct Hl as [->|(_ & _ & k & ->)]; [exact Hne|apply numbered_label_nonempty]. }
    eexists _, label. rewrite Hsr. cbn [Created Item Reason].
    split; [reflexivity|]. split; [reflexivity|]. split; [reflexivity|].
    cbn [ID ContentHash FileFingerprint Size CreatedAt IsAuto Remark Filename].
    split; [reflexivity|]. split; [reflexivity|]. split; [reflexivity|].
    split; [reflexivity|]. split; [reflexivity|]. split; [reflexivity|].
    split; [exact Hp|]. split; [exact Hfree|]. split; [exact Hl|].
    split; [exact Hlne|]. split; [exact Hnt|].
    rewrite Hfs.
    match goal with
    | |- context [withEntry ?it ?fp _] =>
        change (loaded (store s)
                  (set_index (Some (withEntry it fp (loaded (store s) (fs w))))
                     (set_backups (<[filename := data]> (backups (fs w))) (fs w))))
          with (loaded (store s)
                  (set_index (Some (withEntry it fp (loaded (store s) (fs w)))) (fs w)));
        rewrite (loaded_withEntry s it fp (fs w))
    end.
    split; [reflexivity|].
    split; [rewrite Items_withEntry; apply findByID_app_fresh; [reflexivity|exact Hfresh]|].
    split.
    { unfold withEntry. cbn [Remark set_Remark ID].
      destruct (decide (label <> "")); [reflexivity|contradiction]. }
    split; [reflexivity|]. split; [reflexivity|]. split; [exact Hnone|reflexivity].
  - intros sr w' H Hc. exact (Scan_created_split _ _ _ _ _ _ _ _ H Hc).
Qed.

(** A third scan by the scheduler, in the second of the second one and
    on a snapshot taken before it: the entry is stored under a numbered
    label, the entry returned has the label without number. *)
Lemma scan_created_is_stored_witness :
  exists sr w' item,
    scanNewContent 4 sampleService true None sampleEnv3
      (loaded (store sampleService) (fs sampleWorld1))
      (fingerprintResOf sampleFileThird) (contentHashOf sampleFileThird)
      (file_data sampleFileThird)
      (on_fs (set_target (Some sampleFileThird)) sampleWorld3)
    = Some (Ok sr, w')
    /\ Item sr = Some item
    /\ Remark item = "auto-20250918-000101"
    /\ findByID "0b2f6c1e-0003" (Items (loaded (store sampleService) (fs w')))
       = Some (set_Remark "auto-20250918-000101-1" item)
    /\ backups (fs w') !! Filename item = Some (file_data sampleFileThird).
Proof.
  destruct (scanNewContent 4 sampleService true None sampleEnv3
      (loaded (store sampleService) (fs sampleWorld1))
      (fingerprintResOf sampleFileThird) (contentHashOf sampleFileThird)
      (file_data sampleFileThird)
      (on_fs (set_target (Some sampleFileThird)) sampleWorld3))
    as [[[sr|e] w']|] eqn:E;
    [|vm_compute in E; discriminate E|vm_compute in E; discriminate E].
  destruct (scan_created_is_stored 4 sampleService true None sampleEnv3
              (on_fs (set_target (Some sampleFileThird)) sampleWorld3)) as [H _].
  - vm_compute. intros Hin.
    apply elem_of_cons in Hin as [Hin|Hin]; [discriminate Hin|].
    apply list_elem_of_singleton in Hin. discriminate Hin.
  - destruct (H _ _ _ _ sr w' E)
      as (item & label & _ & Hitem & _ & Hid & _ & _ & _ & _ & _ & Hp & _ & Hl & _ & _
          & _ & Hfind & _ & _ & _ & _ & Hb).
    assert (Hr : Remark item = "auto-20250918-000101").
    { assert (Hp0 : prepareRemark 4 (loaded (store sampleService) (fs sampleWorld1))
                      true None (env_remarkNow sampleEnv3)
                    = Some (Ok "auto-20250918-000101")) by (vm_compute; reflexivity).
      rewrite Hp0 in Hp. injection Hp as Hp. symmetry. exact Hp. }
    exists sr, w', item. split; [reflexivity|]. split; [exact Hitem|].
    split; [exact Hr|]. split.
    + clear Hfind Hb Hl Hp Hid. vm_compute in E. injection E as <- <-.
      vm_compute in Hitem. injection Hitem as <-. vm_compute. reflexivity.
    + rewrite Hb. apply lookup_insert_eq.
Defined.

(** ** A deletion whose file removal fails *)

Lemma update_after_ten {X} s (mutator : Mutator X) w fl x idx' :
  faults w = replicate 10 false ++ fl ->
  mutator (loaded s (fs w)) = (x, idx', None) ->
  update s mutator w
  = (Ok (x, ensureDefaults (targetPath s) idx'),
     set_faults fl (on_fs (set_index (Some (ensureDefaults (targetPath s) idx'))) w)).
Proof.
  intros Hfl Hm. destruct w as [d fl0]. cbn [fs faults] in Hfl, Hm. subst fl0.
  unfold update.
  cbv beta iota zeta delta [WithFileLock MkdirAll loadIndexUnlocked bind wrapping
    ReadFileIfExists_index syscall ret fail fault faults fs set_faults replicate app].
  change (ensureDefaults (targetPath s)
            match index d with Some idx => idx | None => zeroIndex end)
    with (loaded s d).
  rewrite Hm.
  cbv beta iota zeta delta [AtomicWriteJSON writeTemp rename MkdirAll syscall
    bind wrapping ret fault faults fs set_faults on_fs].
  reflexivity.
Qed.

(** X22. [DeleteBackup] does not report a failed removal of the backup
    file: when the index has been rewritten (ten system calls) and the
    removal fails, it returns nil, the entry is gone from the index, and
    the backup file stays where it was, with no entry left that refers
    to it. *)
Theorem delete_backup_ignores_removal_failure (s : Service) (w : World)
    (h : gmap string (list byte)) (id : string) (E : BackupItem) (fl : list bool) :
  Run s w h ->
  findByID id (Items (loaded (store s) (fs w))) = Some E ->
  faults w = replicate 10 false ++ true :: fl ->
  let w' := snd (Service_DeleteBackup s id w) in
  fst (Service_DeleteBackup s id w) = None
  /\ (forall it, it ∈ Items (loaded (store s) (fs w')) -> ID it <> id)
  /\ (forall it, it ∈ Items (loaded (store s) (fs w')) -> Filename it <> Filename E)
  /\ backups (fs w') = backups (fs w)
  /\ is_Some (backups (fs w') !! Filename E).
Proof.
  intros HR Hfind Hfl. cbv zeta.
  destruct (findByID_Some _ _ _ Hfind) as [HE Hid].
  pose proof (Run_StoreInv s w h HR) as [Hids _].
  destruct (Run_inv s w h HR) as [Hnames Hfiles].
  destruct (deleteBackupMutator_found id (loaded (store s) (fs w)))
    as (removed & idx1 & Hm); [exists E; auto|].
  destruct (deleteBackupMutator_Some _ _ _ _ Hm) as (Hrin & Hrid & Hitems & _).
  assert (removed = E) as ->.
  { apply (ids_elem_eq (Items (loaded (store s) (fs w)))); try assumption. congruence. }
  assert (Hd : Service_DeleteBackup s id w
               = (None,
                  set_faults fl
                    (on_fs (set_index (Some (ensureDefaults (targetPath (store s)) idx1)))
                       w))).
  { unfold Service_DeleteBackup, Store_DeleteBackup, bind.
    rewrite (update_after_ten _ _ _ _ _ _ Hfl Hm). cbn [ret fst snd].
    unfold Remove_backup, fault. cbn [faults set_faults]. reflexivity. }
  rewrite Hd. cbn [fst snd fs set_faults on_fs]. rewrite loaded_set_index.
  cbn [Items ensureDefaults backups set_index]. rewrite Hitems.
  split; [reflexivity|]. split; [|split; [|split]].
  - intros it Hit. apply list_elem_of_filter in Hit as [Hne _]. exact Hne.
  - intros it Hit Heq. apply list_elem_of_filter in Hit as [Hne Hit]. apply Hne.
    rewrite (fmap_elem_eq Filename _ it E Hnames Hit HE Heq). exact Hid.
  - reflexivity.
  - destruct (Hfiles E HE) as (data & _ & Hdata). rewrite Hdata. eauto.
Qed.

(** The second backup of the sample run is deleted while the removal of
    its file fails. *)
Lemma delete_backup_ignores_removal_failure_witness :
  fst (Service_DeleteBackup sampleService "0b2f6c1e-0002"
         (set_faults (replicate 10 false ++ [true]) sampleWorld3)) = None
  /\ is_Some (backups (fs (snd (Service_DeleteBackup sampleService "0b2f6c1e-0002"
                                  (set_faults (replicate 10 false ++ [true]) sampleWorld3))))
              !! Filename sampleEntry2).
Proof.
  destruct (delete_backup_ignores_removal_failure sampleService
              (set_faults (replicate 10 false ++ [true]) sampleWorld3) sampleCaptured
              "0b2f6c1e-0002" sampleEntry2 [])
    as (H1 & _ & _ & _ & H2).
  - apply run_faults, sample_run.
  - vm_compute. reflexivity.
  - reflexivity.
  - split; [exact H1|exact H2].
Defined.

(** ** What the fast signature is made of *)

Lemma string_of_uint_notBar (d : Decimal.uint) :
  allChars notBar (NilEmpty.string_of_uint d) = true.
Proof. induction d; simpl; try exact IHd; reflexivity. Qed.

Lemma FormatInt_notBar z : allChars notBar (FormatInt z) = true.
Proof.
  unfold FormatInt, NilEmpty.string_of_int.
  destruct (Z.to_int z) as [d|d]; [apply string_of_uint_notBar|].
  simpl. apply string_of_uint_notBar.
Qed.

(** A text without bar, a bar and the rest: the split is unique. *)
Lemma split_at_bar : forall s1 s2 r1 r2 : string,
  allChars notBar s1 = true -> allChars notBar s2 = true ->
  s1 +:+ String "|" r1 = s2 +:+ String "|" r2 ->
  s1 = s2 /\ r1 = r2.
Proof.
  induction s1 as [|a s1 IH]; intros [|b s2] r1 r2 H1 H2 H.
  - injection H as ->. auto.
  - exfalso. change (String "|" r1 = String b (s2 +:+ String "|" r2)) in H.
    injection H as <- _. cbn in H2. discriminate.
  - exfalso. change (String a (s1 +:+ String "|" r1) = String "|" r2) in H.
    injection H as -> _. cbn in H1. discriminate.
  - change (String a (s1 +:+ String "|" r1) = String b (s2 +:+ String "|" r2)) in H.
    injection H as -> H. cbn in H1, H2.
    apply andb_true_iff in H1 as [_ H1]. apply andb_true_iff in H2 as [_ H2].
    destruct (IH s2 r1 r2 H1 H2 H) as [-> ->]. auto.
Qed.

(** X23. The fast signature is the hash of a text from which the four
    values it is made of can be read back: two files have the same text
    only if they agree in size, in modification time (as [UnixNano]), in
    inode and in device. So a change of any of the four changes the
    text that is hashed, and the signature unless the first eight bytes
    of the two SHA-256 digests collide. *)
Theorem fingerprint_seed_is_unambiguous (st1 st2 : FileStat.t) :
  fingerprintOf st1
  = EncodeToString (List.firstn 8 (Sha256.Sum256 (bytes_of (fingerprintSeed st1))))
  /\ (fingerprintSeed st1 = fingerprintSeed st2 ->
      FileStat.Size st1 = FileStat.Size st2
      /\ UnixNano (FileStat.ModTime st1) = UnixNano (FileStat.ModTime st2)
      /\ FileStat.Inode st1 = FileStat.Inode st2
      /\ FileStat.Dev st1 = FileStat.Dev st2).
Proof.
  split; [reflexivity|].
  unfold fingerprintSeed. intros H.
  change ("|" +:+ ?x) with (String "|" x) in H.
  apply split_at_bar in H as [H1 H]; try apply FormatInt_notBar.
  change ("|" +:+ ?x) with (String "|" x) in H.
  apply split_at_bar in H as [H2 H]; try apply FormatInt_notBar.
  change ("|" +:+ ?x) with (String "|" x) in H.
  apply split_at_bar in H as [H3 H4]; try apply FormatInt_notBar.
  apply FormatInt_inj in H1, H2, H3, H4. auto.
Qed.

(** Two readings of a file whose modification times differ by 2^64
    nanoseconds: the same text, the same [UnixNano]. *)
Lemma fingerprint_seed_is_unambiguous_witness :
  UnixNano 63893750400000000000 = UnixNano (63893750400000000000 + 2 ^ 64)
  /\ FileStat.Inode (FileStat.mk 11 63893750400000000000 42 7)
     = FileStat.Inode (FileStat.mk 11 (63893750400000000000 + 2 ^ 64) 42 7).
Proof.
  destruct (fingerprint_seed_is_unambiguous
              (FileStat.mk 11 63893750400000000000 42 7)
              (FileStat.mk 11 (63893750400000000000 + 2 ^ 64) 42 7)) as [_ Hinj].
  destruct Hinj as (_ & Hm & Hi & _).
  - vm_compute. reflexivity.
  - split; [exact Hm|exact Hi].
Defined.
